(** * Indeed job scraper front end: result processing and export pipeline

    A shallow embedding of the React front end's pure logic and of its
    effectful request and download paths:

    - [JobTable]         (the JobTable component, kept in
      frontend/src/App.js): the [analytics] and [processedJobs] memoised
      derivations, the [handleSort] and [handleFilterChange] handlers and
      the "no data" notice;
    - [Api]              (frontend/src/services/api.js): [scrapeJobs] and
      [downloadFile];
    - [DownloadButtons]  (frontend/src/components/DownloadButtons.js):
      [handleDownload] and the size shown for the last download;
    - [JobScraper]       (the JobScraper component, kept in
      frontend/src/App.js): [validateForm], [handleInputChange] and
      [handleSubmit];
    - [App]              (frontend/src/App.js): the three scrape
      callbacks and the props they give to the table and the download
      buttons.

    Modelling conventions.

    - A JavaScript string is the sequence of its UTF-16 code units; the
      model takes code units below 256 (the Latin-1 range), one [ascii]
      each, so that [toLowerCase] and [trim] are exact on every value of
      type [string].
    - A property that may be absent ([undefined] or [null]) is an [option].
    - A Number produced by a division is an IEEE 754 binary64 value
      ([spec_float] with [prec = 53], [emax = 1024]); array lengths and
      counters are [nat], page counts are [Z].
    - [String.prototype.localeCompare] depends on the host locale: it is a
      parameter of the sort, and its laws are hypotheses of the theorems
      that need them.
    - The network, the clock and the DOM are an explicit environment; a
      call returns its completion together with the list of events it
      produced. [console] output is not modelled.
    - A callback prop is a handler of the parent, which completes
      normally: its call is an event of the child, and the parent's
      handler is applied to the parent's state in the order of the
      events. *)

From Stdlib Require Import ZArith List String Ascii Bool Arith Lia.
From Stdlib Require Import Permutation Sorted Floats.SpecFloat.
From Stdlib Require OrdersEx.
From Stdlib Require Import RelationClasses.
From Stdlib Require QArith Qpower Lqa.
Import ListNotations.

Local Open Scope string_scope.
Local Open Scope list_scope.

(* ===================================================================== *)
(** ** JavaScript strings                                                 *)
(* ===================================================================== *)

Module JsString.

(** ECMAScript WhiteSpace and LineTerminator code units below 256:
    TAB, LF, VT, FF, CR, SP and NBSP. *)
Definition isWhiteSpace (c : ascii) : bool :=
  let n := nat_of_ascii c in
  (((9 <=? n) && (n <=? 13)) || (n =? 32) || (n =? 160))%nat.

Fixpoint trimStart (s : string) : string :=
  match s with
  | EmptyString => EmptyString
  | String c s' => if isWhiteSpace c then trimStart s' else s
  end.

Fixpoint trimEnd (s : string) : string :=
  match s with
  | EmptyString => EmptyString
  | String c s' =>
      match trimEnd s' with
      | EmptyString => if isWhiteSpace c then EmptyString
                       else String c EmptyString
      | t => String c t
      end
  end.

(** [String.prototype.trim] *)
Definition trim (s : string) : string := trimEnd (trimStart s).

(** Simple lower-case mapping of one code unit below 256: A-Z, and the
    Latin-1 capitals U+00C0..U+00DE except the multiplication sign. *)
Definition toLowerCase_unit (c : ascii) : ascii :=
  let n := nat_of_ascii c in
  if (((65 <=? n) && (n <=? 90))
      || ((192 <=? n) && (n <=? 222) && negb (n =? 215)))%nat
  then ascii_of_nat (n + 32) else c.

(** [String.prototype.toLowerCase] *)
Fixpoint toLowerCase (s : string) : string :=
  match s with
  | EmptyString => EmptyString
  | String c s' => String (toLowerCase_unit c) (toLowerCase s')
  end.

(** [s.startsWith(t)] *)
Fixpoint startsWith (s t : string) {struct t} : bool :=
  match t with
  | EmptyString => true
  | String b t' =>
      match s with
      | EmptyString => false
      | String a s' => Ascii.eqb a b && startsWith s' t'
      end
  end.

(** [s.includes(t)]: [t] occurs in [s] as a run of consecutive units. *)
Fixpoint includes (s t : string) : bool :=
  startsWith s t ||
  match s with
  | EmptyString => false
  | String _ s' => includes s' t
  end.

(** ToBoolean on a string: only the empty string is falsy. *)
Definition truthy (s : string) : bool :=
  match s with EmptyString => false | String _ _ => true end.

(** ToBoolean on a possibly absent string. *)
Definition truthy_opt (o : option string) : bool :=
  match o with Some s => truthy s | None => false end.

(** [v || fallback] for a possibly absent string [v]. *)
Definition or_else (o : option string) (fallback : string) : string :=
  match o with
  | Some s => if truthy s then s else fallback
  | None => fallback
  end.

(** [s.replace(/[:.]/g, '-')] *)
Fixpoint replace_colon_dot (s : string) : string :=
  match s with
  | EmptyString => EmptyString
  | String c s' =>
      String (if Ascii.eqb c ":" || Ascii.eqb c "." then "-"%char else c)
             (replace_colon_dot s')
  end.

(** [s.substring(0, n)] *)
Fixpoint substring0 (n : nat) (s : string) : string :=
  match n, s with
  | O, _ => EmptyString
  | S _, EmptyString => EmptyString
  | S n', String c s' => String c (substring0 n' s')
  end.

(** The unit [c] occurs in [s]. *)
Fixpoint mem (c : ascii) (s : string) : bool :=
  match s with
  | EmptyString => false
  | String a s' => Ascii.eqb a c || mem c s'
  end.

(** Decimal rendering of an integer, as in a template literal. *)
Definition digit (n : nat) : ascii := ascii_of_nat (48 + n).

Fixpoint decimal_aux (fuel n : nat) (acc : string) : string :=
  match fuel with
  | O => acc
  | S fuel' =>
      let acc' := String (digit (n mod 10)) acc in
      if (n / 10 =? 0)%nat then acc' else decimal_aux fuel' (n / 10) acc'
  end.

Definition of_nat (n : nat) : string := decimal_aux (S n) n EmptyString.

Definition of_Z (z : Z) : string :=
  if (z <? 0)%Z then "-" ++ of_nat (Z.to_nat (- z)) else of_nat (Z.to_nat z).

(** A decimal digit. *)
Definition isDigit (c : ascii) : bool :=
  let n := nat_of_ascii c in ((48 <=? n) && (n <=? 57))%nat.

(** The value of [c] as a digit of [parseInt] in the given radix. *)
Definition digitValue (radix : Z) (c : ascii) : option Z :=
  let n := Z.of_nat (nat_of_ascii c) in
  let v :=
    if ((48 <=? n) && (n <=? 57))%Z then Some (n - 48)%Z
    else if ((97 <=? n) && (n <=? 122))%Z then Some (n - 87)%Z
    else if ((65 <=? n) && (n <=? 90))%Z then Some (n - 55)%Z
    else None in
  match v with
  | Some d => if (d <? radix)%Z then Some d else None
  | None => None
  end.

(** The integer written by the longest prefix of digits of [s]; [acc] is
    what was read so far, [None] before the first digit. *)
Fixpoint parseDigits (radix : Z) (s : string) (acc : option Z) : option Z :=
  match s with
  | EmptyString => acc
  | String c s' =>
      match digitValue radix c with
      | Some d =>
          parseDigits radix s'
            (Some (radix * match acc with Some a => a | None => 0 end + d)%Z)
      | None => acc
      end
  end.

(** [parseInt(s)] with no radix: leading white space, a sign, a [0x]
    prefix, then the digits. [None] is NaN; the result is the integer
    the digits write (the Number is that integer up to 2^53), and -0 is
    not told from 0. *)
Definition parseInt (s : string) : option Z :=
  let s1 := trimStart s in
  let '(negative, s2) :=
    match s1 with
    | String c r =>
        if Ascii.eqb c "-" then (true, r)
        else if Ascii.eqb c "+" then (false, r)
        else (false, s1)
    | EmptyString => (false, s1)
    end in
  let '(radix, s3) :=
    match s2 with
    | String c (String x r) =>
        if Ascii.eqb c "0" && (Ascii.eqb x "x" || Ascii.eqb x "X")
        then (16%Z, r) else (10%Z, s2)
    | _ => (10%Z, s2)
    end in
  match parseDigits radix s3 None with
  | Some v => Some (if negative then (- v)%Z else v)
  | None => None
  end.

(** Every unit of [s] is a decimal digit. *)
Fixpoint all_digits (s : string) : bool :=
  match s with
  | EmptyString => true
  | String c s' => isDigit c && all_digits s'
  end.

End JsString.

(* ===================================================================== *)
(** ** JavaScript arrays                                                  *)
(* ===================================================================== *)

Module JsArray.

Section Sort.
Context {A : Type}.
Variable comparefn : A -> A -> Z.

(** Place [x], which preceded every element of [l] in the input, into
    the sorted [l]: it moves behind [y] only when [comparefn x y > 0]. *)
Fixpoint insert (x : A) (l : list A) : list A :=
  match l with
  | [] => [x]
  | y :: l' =>
      if (0 <? comparefn x y)%Z then y :: insert x l'
      else x :: y :: l'
  end.

(** [Array.prototype.sort(comparefn)]: since ECMAScript 2019 the sort
    is stable; for a consistent comparator its result is the unique
    stably sorted arrangement, computed here by insertion. *)
Fixpoint sort (l : list A) : list A :=
  match l with
  | [] => []
  | x :: l' => insert x (sort l')
  end.
End Sort.

(** [a.slice(-n)]: the last [n] elements. *)
Definition slice_last {A : Type} (n : nat) (l : list A) : list A :=
  skipn (List.length l - n) l.

(** [a.includes(x)] on an array of strings. *)
Definition includes (l : list string) (x : string) : bool :=
  existsb (String.eqb x) l.

End JsArray.

(* ===================================================================== *)
(** ** JavaScript Numbers that come out of a division                     *)
(* ===================================================================== *)

Module JsNumber.

Definition prec : Z := 53.
Definition emax : Z := 1024.

(** The Number with the value of an integer (rounded to nearest even
    beyond 2^53). *)
Definition of_Z (z : Z) : spec_float := binary_normalize prec emax z 0 false.

Definition of_nat (n : nat) : spec_float := of_Z (Z.of_nat n).

Definition div : spec_float -> spec_float -> spec_float := SFdiv prec emax.
Definition mul : spec_float -> spec_float -> spec_float := SFmul prec emax.

(** [floor (s * m * 2^e + 1/2)] for a finite non-zero Number. *)
Definition round_half_up (s : bool) (m : positive) (e : Z) : Z :=
  let v := if s then Z.neg m else Z.pos m in
  match e with
  | Z.neg p => ((2 * v + Z.pos (2 ^ p)) / Z.pos (2 ^ (p + 1)))%Z
  | _ => (v * 2 ^ e)%Z
  end.

(** [Math.round]: the closest integral Number, ties towards +infinity;
    NaN, the infinities and the zeros are returned unchanged, and a
    negative argument that rounds to zero gives -0. *)
Definition Math_round (x : spec_float) : spec_float :=
  match x with
  | S754_finite s m e => binary_normalize prec emax (round_half_up s m e) 0 s
  | _ => x
  end.

End JsNumber.

(* ===================================================================== *)
(** ** Plain JavaScript objects used as string-keyed tables               *)
(* ===================================================================== *)

Module JsObject.

(** The own enumerable properties, in creation order. *)
Definition t (V : Type) : Type := list (string * V).

Definition empty {V : Type} : t V := [].

Fixpoint get_own {V : Type} (o : t V) (k : string) : option V :=
  match o with
  | [] => None
  | (k', v) :: o' => if String.eqb k' k then Some v else get_own o' k
  end.

(** Define the own property [k]: an existing one keeps its place, a new
    one goes last (as in [{...prev, [k]: v}]). *)
Fixpoint define {V : Type} (o : t V) (k : string) (v : V) : t V :=
  match o with
  | [] => [(k, v)]
  | (k', v') :: o' =>
      if String.eqb k' k then (k', v) :: o' else (k', v') :: define o' k v
  end.

(** The number of entries of [Object.keys(o)]. *)
Definition keys_length {V : Type} (o : t V) : nat := List.length o.

(** The property names every object literal inherits from
    [Object.prototype]. *)
Definition prototype_names : list string :=
  [ "constructor"; "hasOwnProperty"; "isPrototypeOf";
    "propertyIsEnumerable"; "toLocaleString"; "toString"; "valueOf";
    "__proto__"; "__defineGetter__"; "__defineSetter__";
    "__lookupGetter__"; "__lookupSetter__" ].

(** The array index a property name writes, if any: the name is the
    canonical decimal numeral of an integer below 2^32 - 1. *)
Definition array_index (k : string) : option Z :=
  match k with
  | EmptyString => None
  | String c rest =>
      let canonical :=
        negb (Ascii.eqb c "0")
        || match rest with EmptyString => true | String _ _ => false end in
      if canonical && JsString.all_digits k
      then match JsString.parseDigits 10 k None with
           | Some n => if (n <? 4294967295)%Z then Some n else None
           | None => None
           end
      else None
  end.

(** [Object.entries(o)]: the properties named by an array index come
    first, by ascending index, and then the others in creation order. *)
Definition entries {V : Type} (o : t V) : list (string * V) :=
  let index (e : string * V) : Z :=
    match array_index (fst e) with Some i => i | None => 0%Z end in
  let indexed (e : string * V) : bool :=
    match array_index (fst e) with Some _ => true | None => false end in
  JsArray.sort (fun a b => (index a - index b)%Z) (filter indexed o)
  ++ filter (fun e => negb (indexed e)) o.

End JsObject.

(* ===================================================================== *)
(** ** JobTable.js                                                        *)
(* ===================================================================== *)

Module JobTable.
Import JsString.

(** One scraped listing, with the property names the table reads. *)
Record Job : Type := mkJob {
  Title : option string;
  Company : option string;
  Location : option string;
  Link : option string
}.

(** The column a header click selects: 'Title', 'Company', 'Location'. *)
Inductive SortField : Type := by_Title | by_Company | by_Location.

(** 'asc' or 'desc'. *)
Inductive SortDirection : Type := asc | desc.

(** [job[sortField]] *)
Definition prop (f : SortField) (job : Job) : option string :=
  match f with
  | by_Title => Title job
  | by_Company => Company job
  | by_Location => Location job
  end.

(** *** analytics *)

(** What a slot of the [companies] / [locations] table holds: a count,
    or, for a name that collides with an inherited property, the string
    that [+ 1] made of the inherited value. *)
Inductive Tally : Type := Count (n : nat) | NotACount.

(** [table[name] = (table[name] || 0) + 1] on a table created by [{}].
    A read falls back to [Object.prototype]; a write to ["__proto__"]
    goes to the inherited setter, which ignores a non-object value. *)
Definition tally (table : JsObject.t Tally) (name : string)
  : JsObject.t Tally :=
  let next :=
    match JsObject.get_own table name with
    | Some (Count n) => Count (n + 1)
    | Some NotACount => NotACount
    | None =>
        if JsArray.includes JsObject.prototype_names name
        then NotACount else Count 1
    end in
  if String.eqb name "__proto__" then table
  else JsObject.define table name next.

(** [job.Link && job.Link !== 'N/A'] *)
Definition hasValidLink (job : Job) : bool :=
  truthy_opt (Link job) &&
  match Link job with
  | Some l => negb (String.eqb l "N/A")
  | None => true
  end.

(** The summary shown above the table. The two top-3 lists are left
    out: no property below reads them. *)
Record AnalyticsSummary : Type := mkSummary {
  totalJobs : nat;
  uniqueCompanies : nat;
  uniqueLocations : nat;
  validLinksPercentage : spec_float
}.

(** The [forEach] callback, on the pair of tables [companies] and
    [locations]. *)
Definition countJob (acc : JsObject.t Tally * JsObject.t Tally) (job : Job)
  : JsObject.t Tally * JsObject.t Tally :=
  let company := or_else (Company job) "Unknown" in
  let location := or_else (Location job) "Unknown" in
  (tally (fst acc) company, tally (snd acc) location).

(** The [companies] and [locations] tables after the [forEach]. *)
Definition tables (jobs : list Job) : JsObject.t Tally * JsObject.t Tally :=
  fold_left countJob jobs (JsObject.empty, JsObject.empty).

(** [Math.round((validLinks / jobs.length) * 100)] *)
Definition percentage (validLinks total : nat) : spec_float :=
  JsNumber.Math_round
    (JsNumber.mul
       (JsNumber.div (JsNumber.of_nat validLinks) (JsNumber.of_nat total))
       (JsNumber.of_nat 100)).

(** The [analytics] memo: [None] is the [null] "no data" result. *)
Definition analytics (jobs : option (list Job)) : option AnalyticsSummary :=
  match jobs with
  | None => None
  | Some [] => None
  | Some jobs =>
      let validLinks := List.length (filter hasValidLink jobs) in
      let '(companies, locations) := tables jobs in
      Some {| totalJobs := List.length jobs;
              uniqueCompanies := JsObject.keys_length companies;
              uniqueLocations := JsObject.keys_length locations;
              validLinksPercentage :=
                percentage validLinks (List.length jobs) |}
  end.

(** *** processedJobs *)

(** [v?.toLowerCase().includes(filterText.toLowerCase())] *)
Definition field_includes (v : option string) (filterText : string) : bool :=
  match v with
  | Some s => includes (toLowerCase s) (toLowerCase filterText)
  | None => false
  end.

(** The filter callback. *)
Definition matches (filterText : string) (job : Job) : bool :=
  field_includes (Title job) filterText
  || field_includes (Company job) filterText
  || field_includes (Location job) filterText.

Section Sorting.
(** [a.localeCompare(b)]: negative, zero or positive. *)
Variable localeCompare : string -> string -> Z.

(** The sort callback. *)
Definition compareJobs (sortField : SortField)
           (sortDirection : SortDirection) (a b : Job) : Z :=
  let aVal := or_else (prop sortField a) "" in
  let bVal := or_else (prop sortField b) "" in
  let comparison := localeCompare aVal bVal in
  match sortDirection with
  | asc => comparison
  | desc => (- comparison)%Z
  end.

(** The [processedJobs] memo. [sortField = None] is the initial
    [''] state. *)
Definition processedJobs (jobs : option (list Job)) (filterText : string)
           (sortField : option SortField) (sortDirection : SortDirection)
  : list Job :=
  match jobs with
  | None => []
  | Some jobs =>
      let filtered :=
        if truthy (trim filterText)
        then filter (matches filterText) jobs
        else jobs in
      match sortField with
      | Some f => JsArray.sort (compareJobs f sortDirection) filtered
      | None => filtered
      end
  end.
End Sorting.

(** *** topCompanies and topLocations *)

(** The comparator [(a, b) => b[1] - a[1]] on two entries of a table.
    The difference is NaN when a slot holds no count, and the sort reads
    NaN as +0. *)
Definition byCountDesc (a b : string * Tally) : Z :=
  match snd a, snd b with
  | Count x, Count y => (Z.of_nat y - Z.of_nat x)%Z
  | _, _ => 0%Z
  end.

(** [Object.entries(table).sort((a, b) => b[1] - a[1]).slice(0, 3)] *)
Definition top3 (table : JsObject.t Tally) : list (string * Tally) :=
  firstn 3 (JsArray.sort byCountDesc (JsObject.entries table)).

(** The [topCompanies] and [topLocations] fields of the summary of a
    non-empty list. *)
Definition topCompanies (jobs : list Job) : list (string * Tally) :=
  top3 (fst (tables jobs)).

Definition topLocations (jobs : list Job) : list (string * Tally) :=
  top3 (snd (tables jobs)).

(** *** The state of the table and its handlers *)

(** The three [useState] cells: [sortField] is [None] for the initial
    ['']. *)
Record ViewState : Type := mkView {
  sortField : option SortField;
  sortDirection : SortDirection;
  filterText : string
}.

Definition initialView : ViewState :=
  {| sortField := None; sortDirection := asc; filterText := "" |}.

Definition SortField_eqb (f g : SortField) : bool :=
  match f, g with
  | by_Title, by_Title | by_Company, by_Company
  | by_Location, by_Location => true
  | _, _ => false
  end.

(** [handleSort(field)]: a click on the header of a column. *)
Definition handleSort (field : SortField) (st : ViewState) : ViewState :=
  if match sortField st with
     | Some f => SortField_eqb f field
     | None => false
     end
  then {| sortField := sortField st;
          sortDirection :=
            match sortDirection st with asc => desc | desc => asc end;
          filterText := filterText st |}
  else {| sortField := Some field;
          sortDirection := asc;
          filterText := filterText st |}.

(** [handleFilterChange(e)], with [e.target.value = value]. *)
Definition handleFilterChange (value : string) (st : ViewState) : ViewState :=
  {| sortField := sortField st;
     sortDirection := sortDirection st;
     filterText := value |}.

(** The rows of the table body in a state. *)
Definition rows (localeCompare : string -> string -> Z)
           (jobs : option (list Job)) (st : ViewState) : list Job :=
  processedJobs localeCompare jobs (filterText st) (sortField st)
                (sortDirection st).

(** *** The keys of the rows *)

Section Keys.
(** What a template literal writes for a property: the string itself,
    and "undefined" or "null" for an absent one. *)
Variable written : option string -> string.

(** [`${job.Title}-${job.Company}-${index}`] *)
Definition rowKey (job : Job) (index : nat) : string :=
  (written (Title job) ++ "-" ++ written (Company job) ++ "-"
     ++ JsString.of_nat index)%string.

(** The keys that [processedJobs.map((job, index) => ...)] gives to the
    rows, the first of which has the given index. *)
Fixpoint rowKeysFrom (index : nat) (rows : list Job) : list string :=
  match rows with
  | [] => []
  | job :: rows' => rowKey job index :: rowKeysFrom (S index) rows'
  end.

Definition rowKeys (rows : list Job) : list string := rowKeysFrom 0 rows.
End Keys.

(** What is rendered in place of the table when [!jobs || jobs.length
    === 0]: the headline and, when [message] is truthy, the message.
    [None] when the table is rendered. *)
Definition noData (jobs : option (list Job)) (success : option bool)
           (message : option string) : option (string * option string) :=
  let notice :=
    Some (match success with
          | Some false => "Scraping encountered issues"
          | _ => "No jobs found"
          end,
          if truthy_opt message then message else None) in
  match jobs with
  | None => notice
  | Some [] => notice
  | Some (_ :: _) => None
  end.

End JobTable.

(* ===================================================================== *)
(** ** services/api.js                                                    *)
(* ===================================================================== *)

Module Api.
Import JsString.

(** [error.response.data] of a server-reported failure. *)
Record ResponseData : Type := mkData {
  detail : option string;
  data_message : option string
}.

(** [error.response] *)
Record AxiosResponse : Type := mkResponse {
  status : Z;
  data : option ResponseData
}.

(** An [Error] object with the properties the handlers read or set. *)
#[warnings="-register-all"]
Inductive JsError : Type := mkError {
  message : string;
  code : option string;
  response : option AxiosResponse;
  originalError : option JsError
}.

(** [new Error(msg)] *)
Definition new_Error (msg : string) : JsError := mkError msg None None None.

(** How a call completes. *)
Inductive completion (A : Type) : Type :=
| Normal (a : A)
| Throw (e : JsError).
Arguments Normal {A} a.
Arguments Throw {A} e.

(** The body of [POST /scrape]. *)
Record ScrapeRequest : Type := mkRequest {
  job_title : string;
  location : string;
  pages : Z
}.

(** [response.data] of a scrape. *)
Record ScrapeResult : Type := mkResult {
  success : bool;
  jobs : list JobTable.Job;
  total_jobs : Z;
  pages_scraped : Z;
  result_message : option string
}.

(** The downloaded payload: only its size is read. *)
Record Blob : Type := mkBlob { size : nat }.

(** A request handed to axios. *)
Inductive Request : Type :=
| POST (url : string) (body : ScrapeRequest)
| GET (url : string) (accept : string).

(** The external collaborator: how each request is answered. *)
Record Backend : Type := mkBackend {
  post : string -> ScrapeRequest -> completion ScrapeResult;
  get : string -> string -> completion Blob
}.

(** The result of an async call: its completion and the requests it
    issued, in order. *)
Definition outcome (A : Type) : Type := (completion A * list Request)%type.

(** The [catch] block of [scrapeJobs]: one message per failure class. *)
Definition scrapeErrorMessage (error : JsError) : string :=
  match response error with
  | Some r =>
      let from_data (f : ResponseData -> option string) :=
        match data r with Some d => f d | None => None end in
      or_else (from_data detail)
        (or_else (from_data data_message)
           ("Server error (" ++ JsString.of_Z (status r) ++ ")"))
  | None =>
      if match code error with
         | Some c => String.eqb c "ECONNABORTED" | None => false end
      then "Request timed out. Scraping took too long."
      else if match code error with
              | Some c => String.eqb c "ECONNREFUSED" | None => false end
      then "Cannot connect to server. Make sure backend is running."
      else if truthy (message error) then message error
      else "Scraping failed"
  end.

(** [scrapeJobs(jobTitle, location = 'Remote', pages = 1)]; an omitted
    argument is [None]. *)
Definition scrapeJobs (net : Backend) (jobTitle : option string)
           (location : option string) (pages : option Z)
  : outcome ScrapeResult :=
  let location := match location with Some l => l | None => "Remote" end in
  let pages := match pages with Some p => p | None => 1%Z end in
  let attempt : outcome ScrapeResult :=
    match jobTitle with
    | None =>
        (Throw (new_Error
           "Job title is required and must be a non-empty string"), [])
    | Some jobTitle =>
        if negb (truthy jobTitle)
           || (String.length (trim jobTitle) =? 0)%nat
        then (Throw (new_Error
           "Job title is required and must be a non-empty string"), [])
        else if ((pages <? 1) || (pages >? 10))%Z
        then (Throw (new_Error "Pages must be between 1 and 10"), [])
        else
          (* job_title: jobTitle.trim(), location: location.trim() ||
             'Remote', pages: parseInt(pages) || 1 *)
          let requestData :=
            {| job_title := trim jobTitle;
               location := or_else (Some (trim location)) "Remote";
               pages := if (pages =? 0)%Z then 1%Z else pages |} in
          (post net "/scrape" requestData, [POST "/scrape" requestData])
    end in
  match attempt with
  | (Normal d, sent) => (Normal d, sent)
  | (Throw error, sent) =>
      (Throw {| message := scrapeErrorMessage error;
                code := None;
                response := response error;
                originalError := Some error |}, sent)
  end.

Definition validFormats : list string := ["csv"; "excel"; "json"].

(** The [Accept] header chosen for a format. *)
Definition acceptHeader (format : string) : string :=
  if String.eqb format "json" then "application/json"
  else if String.eqb format "excel"
  then "application/vnd.openxmlformats-officedocument.spreadsheetml.sheet"
  else "text/csv".

(** [downloadFile(format)] *)
Definition downloadFile (net : Backend) (format : string) : outcome Blob :=
  let attempt : outcome Blob :=
    if negb (JsArray.includes validFormats format)
    then (Throw (new_Error ("Invalid format: " ++ format)%string), [])
    else
      let url := ("/download/" ++ format)%string in
      (get net url (acceptHeader format), [GET url (acceptHeader format)]) in
  match attempt with
  | (Normal blob, sent) => (Normal blob, sent)
  | (Throw error, sent) =>
      (Throw {| message := "Download failed";
                code := None;
                response := response error;
                originalError := Some error |}, sent)
  end.

End Api.

(* ===================================================================== *)
(** ** DownloadButtons.js                                                 *)
(* ===================================================================== *)

Module DownloadButtons.
Import JsString Api.

(** One entry of the download history. *)
Record DownloadInfo : Type := mkInfo {
  format : string;
  filename : string;
  timestamp : string;
  info_size : nat
}.

Record DownloadStats : Type := mkStats {
  totalDownloads : nat;
  lastDownload : option DownloadInfo;
  downloadHistory : list DownloadInfo
}.

(** The two [useState] cells of the component. *)
Record State : Type := mkState {
  downloading : JsObject.t bool;
  downloadStats : DownloadStats
}.

Definition initialState : State :=
  {| downloading := JsObject.empty;
     downloadStats := {| totalDownloads := 0;
                         lastDownload := None;
                         downloadHistory := [] |} |}.

(** What surrounds one call of the handler. *)
Record Env : Type := mkEnv {
  (** the [hasData] prop *)
  hasData : bool;
  (** the rejection of [import('../services/api')], if it fails *)
  import_failure : option JsError;
  (** the backend behind [downloadFile] *)
  net : Backend;
  (** [window.URL.createObjectURL] *)
  createObjectURL : Blob -> completion string;
  (** what the n-th [new Date().toISOString()] of the call returns *)
  toISOString_now : nat -> string
}.

(** The effects of the handler that leave the component. *)
Inductive Event : Type :=
| SetDownloading (format : string) (busy : bool)
| Sent (r : Request)
| Clicked (href download : string)
| Alerted (text : string).

(** A computation over the component state that may throw and that
    logs its events. *)
Definition M (A : Type) : Type :=
  State -> (completion A * State * list Event)%type.

Definition ret {A : Type} (a : A) : M A := fun st => (Normal a, st, []).

Definition bind {A B : Type} (m : M A) (k : A -> M B) : M B :=
  fun st =>
    match m st with
    | (Normal a, st1, ev1) =>
        let '(c, st2, ev2) := k a st1 in (c, st2, ev1 ++ ev2)
    | (Throw e, st1, ev1) => (Throw e, st1, ev1)
    end.

Notation "x <- m ;; k" := (bind m (fun x => k))
  (at level 61, m at next level, right associativity).
Notation "m ;; k" := (bind m (fun _ => k))
  (at level 61, right associativity).

Definition lift {A : Type} (c : completion A) : M A :=
  fun st => (c, st, []).

Definition emit (e : Event) : M unit := fun st => (Normal tt, st, [e]).

(** [await] of an API call: its requests are logged. *)
Definition await {A : Type} (o : outcome A) : M A :=
  fun st => (fst o, st, map Sent (snd o)).

(** [try { block } catch (error) { handler } finally { finalizer }] *)
Definition try_catch_finally {A : Type} (block : M A)
           (handler : JsError -> M A) (finalizer : M unit) : M A :=
  fun st =>
    let '(c1, st1, ev1) := block st in
    let '(c2, st2, ev2) :=
      match c1 with
      | Normal a => (Normal a, st1, [])
      | Throw e => handler e st1
      end in
    let '(c3, st3, ev3) := finalizer st2 in
    (match c3 with Normal _ => c2 | Throw e => Throw e end,
     st3, ev1 ++ ev2 ++ ev3).

(** [setDownloading(prev => ({ ...prev, [format]: busy }))] *)
Definition setDownloading (format : string) (busy : bool) : M unit :=
  fun st =>
    (Normal tt,
     {| downloading := JsObject.define (downloading st) format busy;
        downloadStats := downloadStats st |},
     [SetDownloading format busy]).

(** [setDownloadStats(update)] *)
Definition setDownloadStats (update : DownloadStats -> DownloadStats)
  : M unit :=
  fun st =>
    (Normal tt,
     {| downloading := downloading st;
        downloadStats := update (downloadStats st) |},
     []).

(** [{ csv: 'csv', excel: 'xlsx', json: 'json' }[format]] *)
Definition extensions (format : string) : option string :=
  if String.eqb format "csv" then Some "csv"
  else if String.eqb format "excel" then Some "xlsx"
  else if String.eqb format "json" then Some "json"
  else None.

(** [new Date().toISOString().replace(/[:.]/g, '-').substring(0, 19)] *)
Definition timestampOf (iso : string) : string :=
  substring0 19 (replace_colon_dot iso).

(** [`indeed-jobs-${timestamp}.${extensions[format]}`]; the name is only
    built after [downloadFile] has accepted the format. *)
Definition filenameOf (iso format : string) : string :=
  ("indeed-jobs-" ++ timestampOf iso ++ "."
     ++ match extensions format with
        | Some ext => ext
        | None => "undefined"
        end)%string.

(** [error.response?.data?.detail || error.message] *)
Definition failureDetail (error : JsError) : string :=
  or_else
    match response error with
    | Some r => match data r with Some d => detail d | None => None end
    | None => None
    end
    (message error).

(** The [try] block of [handleDownload]. *)
Definition downloadBlock (env : Env) (format : string) : M unit :=
  lift match import_failure env with
       | Some e => Throw e
       | None => Normal tt
       end ;;
  blob <- await (downloadFile (net env) format) ;;
  url <- lift (createObjectURL env blob) ;;
  let filename := filenameOf (toISOString_now env 0) format in
  emit (Clicked url filename) ;;
  let downloadInfo :=
    {| format := format;
       filename := filename;
       timestamp := toISOString_now env 1;
       info_size := size blob |} in
  setDownloadStats (fun prev =>
    {| totalDownloads := totalDownloads prev + 1;
       lastDownload := Some downloadInfo;
       downloadHistory :=
         JsArray.slice_last 10 (downloadHistory prev ++ [downloadInfo]) |}).

(** The [catch] block of [handleDownload]. *)
Definition downloadFailed (error : JsError) : M unit :=
  emit (Alerted ("Download failed: " ++ failureDetail error)%string).

(** [handleDownload(format)] *)
Definition handleDownload (env : Env) (format : string) : M unit :=
  if negb (hasData env) then ret tt
  else
    setDownloading format true ;;
    try_catch_finally
      (downloadBlock env format)
      downloadFailed
      (setDownloading format false).

(** [Math.round(size / 1024)]: a size in KB. *)
Definition sizeInKB (size : nat) : spec_float :=
  JsNumber.Math_round
    (JsNumber.div (JsNumber.of_nat size) (JsNumber.of_nat 1024)).

(** The size the statistics panel shows for the last download,
    [Math.round(downloadStats.lastDownload.size / 1024)]; the panel is
    rendered when [totalDownloads > 0], and the line of the last
    download when there is one. *)
Definition lastSizeInKB (stats : DownloadStats) : option spec_float :=
  if (0 <? totalDownloads stats)%nat
  then match lastDownload stats with
       | Some info => Some (sizeInKB (info_size info))
       | None => None
       end
  else None.

End DownloadButtons.

(* ===================================================================== *)
(** ** JobScraper.js                                                      *)
(* ===================================================================== *)

Module JobScraper.
Import JsString.

Record FormData : Type := mkForm {
  jobTitle : string;
  location : string;
  pages : Z
}.

(** The [name] of the input that changed: one of the three inputs of the
    form. *)
Inductive InputName : Type := name_jobTitle | name_location | name_pages.

Definition key (name : InputName) : string :=
  match name with
  | name_jobTitle => "jobTitle"
  | name_location => "location"
  | name_pages => "pages"
  end.

(** The four [useState] cells. A slot of [validationErrors] holds a
    message, or [None] for [undefined]. *)
Record State : Type := mkState {
  formData : FormData;
  isLoading : bool;
  error : string;
  validationErrors : JsObject.t (option string)
}.

Definition initialState : State :=
  {| formData := {| jobTitle := ""; location := "Remote"; pages := 1 |};
     isLoading := false;
     error := "";
     validationErrors := JsObject.empty |}.

(** The [errors] object that [validateForm] builds. *)
Definition errorsOf (form : FormData) : JsObject.t (option string) :=
  let errors : JsObject.t (option string) := JsObject.empty in
  let errors :=
    if negb (truthy (trim (jobTitle form)))
    then JsObject.define errors "jobTitle" (Some "Job title is required")
    else if (String.length (trim (jobTitle form)) <? 2)%nat
    then JsObject.define errors "jobTitle"
           (Some "Job title must be at least 2 characters")
    else errors in
  if ((pages form <? 1) || (pages form >? 10))%Z
  then JsObject.define errors "pages" (Some "Pages must be between 1 and 10")
  else errors.

(** [validateForm()]: its result and the state it leaves. *)
Definition validateForm (st : State) : bool * State :=
  let errors := errorsOf (formData st) in
  ((JsObject.keys_length errors =? 0)%nat,
   {| formData := formData st;
      isLoading := isLoading st;
      error := error st;
      validationErrors := errors |}).

(** [validationErrors[name]] read as a condition. *)
Definition hasValidationError (st : State) (name : InputName) : bool :=
  match JsObject.get_own (validationErrors st) (key name) with
  | Some (Some msg) => truthy msg
  | _ => false
  end.

(** [handleInputChange(e)], with [e.target] holding [name] and
    [value]. *)
Definition handleInputChange (name : InputName) (value : string) (st : State)
  : State :=
  let form := formData st in
  {| formData :=
       match name with
       | name_jobTitle =>
           {| jobTitle := value; location := location form;
              pages := pages form |}
       | name_location =>
           {| jobTitle := jobTitle form; location := value;
              pages := pages form |}
       | name_pages =>
           (* parseInt(value) || 1 *)
           {| jobTitle := jobTitle form; location := location form;
              pages := match parseInt value with
                       | Some n => if (n =? 0)%Z then 1%Z else n
                       | None => 1%Z
                       end |}
       end;
     isLoading := isLoading st;
     error := if truthy (error st) then "" else error st;
     validationErrors :=
       if hasValidationError st name
       then JsObject.define (validationErrors st) (key name) None
       else validationErrors st |}.

(** What surrounds one submit: the module loader, the backend, and
    whether the optional [onScrapeError] prop is given. *)
Record Env : Type := mkEnv {
  import_failure : option Api.JsError;
  net : Api.Backend;
  onScrapeError_given : bool
}.

(** The effects of a submit that leave the component: the requests, and
    the calls of the parent's callbacks. *)
Inductive Event : Type :=
| Sent (r : Api.Request)
| ScrapeStart
| ScrapeComplete (result : Api.ScrapeResult)
| ScrapeError (error : Api.JsError).

Definition setIsLoading (b : bool) (st : State) : State :=
  {| formData := formData st;
     isLoading := b;
     error := error st;
     validationErrors := validationErrors st |}.

Definition setError (msg : string) (st : State) : State :=
  {| formData := formData st;
     isLoading := isLoading st;
     error := msg;
     validationErrors := validationErrors st |}.

(** [err.response?.data?.detail || err.message] *)
Definition failureDetail (err : Api.JsError) : string :=
  or_else
    match Api.response err with
    | Some r =>
        match Api.data r with Some d => Api.detail d | None => None end
    | None => None
    end
    (Api.message err).

(** [if (onScrapeError) onScrapeError(e)] *)
Definition reportError (env : Env) (e : Api.JsError) : list Event :=
  if onScrapeError_given env then [ScrapeError e] else [].

(** The [catch] block of [handleSubmit]. *)
Definition submitFailed (env : Env) (err : Api.JsError) (st : State)
  : State * list Event :=
  (setError ("Error: " ++ failureDetail err)%string st, reportError env err).

(** The [try] block of [handleSubmit], with the [catch] block applied
    to what it throws. *)
Definition submitBlock (env : Env) (st : State) : State * list Event :=
  match import_failure env with
  | Some err => submitFailed env err st
  | None =>
      let form := formData st in
      match Api.scrapeJobs (net env) (Some (jobTitle form))
                           (Some (location form)) (Some (pages form)) with
      | (Api.Normal result, sent) =>
          if Api.success result
          then (st, map Sent sent ++ [ScrapeComplete result])
          else
            let errorMessage :=
              or_else (Api.result_message result) "Scraping failed" in
            (setError errorMessage st,
             map Sent sent ++ reportError env (Api.new_Error errorMessage))
      | (Api.Throw err, sent) =>
          let '(st', evs) := submitFailed env err st in
          (st', map Sent sent ++ evs)
      end
  end.

(** [handleSubmit(e)] *)
Definition handleSubmit (env : Env) (st : State) : State * list Event :=
  let '(valid, st) := validateForm st in
  if negb valid then (st, [])
  else
    let st := setError "" (setIsLoading true st) in
    let '(st, evs) := submitBlock env st in
    (setIsLoading false st, ScrapeStart :: evs).

End JobScraper.

(* ===================================================================== *)
(** ** App.js                                                             *)
(* ===================================================================== *)

Module App.
Import JsString.

(** The [scrapeResults] and [isLoading] cells. *)
Record State : Type := mkState {
  scrapeResults : option Api.ScrapeResult;
  isLoading : bool
}.

Definition initialState : State :=
  {| scrapeResults := None; isLoading := false |}.

Definition handleScrapeStart (st : State) : State :=
  {| scrapeResults := None; isLoading := true |}.

Definition handleScrapeComplete (results : Api.ScrapeResult) (st : State)
  : State :=
  {| scrapeResults := Some results; isLoading := false |}.

Definition handleScrapeError (error : Api.JsError) (st : State) : State :=
  {| scrapeResults :=
       Some {| Api.success := false;
               Api.result_message :=
                 Some (if truthy (Api.message error) then Api.message error
                       else "Unknown error occurred");
               Api.jobs := [];
               Api.total_jobs := 0;
               Api.pages_scraped := 0 |};
     isLoading := false |}.

(** The three callbacks as App passes them to JobScraper. *)
Definition receive (st : State) (e : JobScraper.Event) : State :=
  match e with
  | JobScraper.ScrapeStart => handleScrapeStart st
  | JobScraper.ScrapeComplete results => handleScrapeComplete results st
  | JobScraper.ScrapeError error => handleScrapeError error st
  | JobScraper.Sent _ => st
  end.

(** The [hasData] prop of DownloadButtons, [scrapeResults.jobs.length >
    0]; [None] when there are no results and nothing is rendered. *)
Definition hasData (st : State) : option bool :=
  match scrapeResults st with
  | Some results => Some (0 <? List.length (Api.jobs results))%nat
  | None => None
  end.

(** What JobTable shows in place of the table, from the props App
    gives it. *)
Definition notice (st : State) : option (string * option string) :=
  match scrapeResults st with
  | Some results =>
      JobTable.noData (Some (Api.jobs results)) (Some (Api.success results))
                      (Api.result_message results)
  | None => None
  end.

(** A submit of the form, with App as the parent. *)
Definition submit (env : JobScraper.Env) (st : JobScraper.State * State)
  : JobScraper.State * State * list JobScraper.Event :=
  let '(scraper, evs) := JobScraper.handleSubmit env (fst st) in
  (scraper, fold_left receive evs (snd st), evs).

End App.

(* ===================================================================== *)
(** ** A host whose collation is the code-unit order                      *)
(* ===================================================================== *)

(** One admissible [localeCompare]; it instantiates the theorems that are
    stated for every comparison obeying the collation laws. *)
Module Host.

Definition ordinalCompare (a b : string) : Z :=
  match OrdersEx.String_as_OT.compare a b with
  | Lt => (-1)%Z
  | Eq => 0%Z
  | Gt => 1%Z
  end.

End Host.

(* ===================================================================== *)
(** ** Vocabulary of the properties                                       *)
(* ===================================================================== *)

Module Spec.
Import JsString JobTable.

(** [t] occurs in [s] as a substring. *)
Definition occurs_in (t s : string) : Prop :=
  exists a b : string, s = (a ++ t ++ b)%string.

(** Every unit of [s] is white space (so is the empty string). *)
Fixpoint whitespace_only (s : string) : bool :=
  match s with
  | EmptyString => true
  | String c s' => isWhiteSpace c && whitespace_only s'
  end.

(** A job title the request client refuses: absent, empty, or white
    space only. *)
Definition blankTitle (jobTitle : option string) : bool :=
  match jobTitle with
  | None => true
  | Some t => whitespace_only t
  end.

(** A record passes the filter: one of its three fields is present and
    its lower-cased value contains the lower-cased text. *)
Definition Matches (filterText : string) (job : Job) : Prop :=
  exists v : string,
    (Title job = Some v \/ Company job = Some v \/ Location job = Some v)
    /\ occurs_in (toLowerCase filterText) (toLowerCase v).

(** [a] may stand before [b] under a comparator. *)
Definition before {A : Type} (comparefn : A -> A -> Z) (a b : A) : Prop :=
  (comparefn a b <= 0)%Z.

(** [a] and [b] tie under a comparator. *)
Definition ties {A : Type} (comparefn : A -> A -> Z) (a b : A) : bool :=
  (comparefn a b =? 0)%Z.

(** A comparator with its sign flipped. *)
Definition negated {A : Type} (comparefn : A -> A -> Z) (a b : A) : Z :=
  (- comparefn a b)%Z.

(** The string a record is sorted by: the field, or [''] when the field
    is absent or empty. *)
Definition sortKey (f : SortField) (job : Job) : string :=
  or_else (prop f job) "".

(** Two records have sort keys that compare equal. *)
Definition sameKey (localeCompare : string -> string -> Z) (f : SortField)
           (a b : Job) : bool :=
  (localeCompare (sortKey f a) (sortKey f b) =? 0)%Z.

(** No event of the list touches a busy flag. *)
Definition quiet (evs : list DownloadButtons.Event) : Prop :=
  forall f b, ~ In (DownloadButtons.SetDownloading f b) evs.

(** The collation laws: the sign is antisymmetric and "not after" is
    transitive. *)
Definition consistent {A : Type} (comparefn : A -> A -> Z) : Prop :=
  (forall a b, Z.sgn (comparefn a b) = (- Z.sgn (comparefn b a))%Z)
  /\ (forall a b c, (comparefn a b <= 0 -> comparefn b c <= 0
                     -> comparefn a c <= 0)%Z).

(** The names under which the two tables of [analytics] count a
    record. *)
Definition companyOf (job : Job) : string := or_else (Company job) "Unknown".

Definition locationOf (job : Job) : string :=
  or_else (Location job) "Unknown".

(** A name that every object inherits from [Object.prototype]. *)
Definition inherited (name : string) : bool :=
  JsArray.includes JsObject.prototype_names name.

(** How many of [names] are [name]. *)
Definition occurrences (name : string) (names : list string) : nat :=
  List.length (filter (String.eqb name) names).

(** What the slot of [name] holds in a table that tallied [names]:
    nothing when the name did not occur, and nothing for ["__proto__"];
    no count for any other inherited name; else the number of
    occurrences. *)
Definition slotOf (name : string) (names : list string) : option Tally :=
  match occurrences name names with
  | O => None
  | S n =>
      if String.eqb name "__proto__" then None
      else if inherited name then Some NotACount
      else Some (Count (S n))
  end.

(** The count an entry of a table shows. *)
Definition countOf (e : string * Tally) : nat :=
  match snd e with Count n => n | NotACount => 0 end.

(** The distinct names that get a slot: ["__proto__"] never does. *)
Definition distinctNames (names : list string) : list string :=
  nodup string_dec
        (filter (fun n => negb (String.eqb n "__proto__")) names).

(** [top] lists the most frequent of [names]: three of them, or all when
    there are fewer; each with the number of its occurrences and no name
    twice; in non-increasing order of that number; and no name left out
    occurs more often than a name listed. *)
Definition mostFrequent (names : list string) (top : list (string * Tally))
  : Prop :=
  List.length top = Nat.min 3 (List.length (distinctNames names))
  /\ NoDup (map fst top)
  /\ (forall e, In e top ->
        In (fst e) names /\ snd e = Count (occurrences (fst e) names))
  /\ StronglySorted (fun a b => countOf b <= countOf a) top
  /\ (forall name e, In name names -> ~ In name (map fst top) -> In e top ->
        occurrences name names <= countOf e).

(** The order of [byCountDesc] on entries all of which hold a count. *)
Definition byCount (a b : string * Tally) : Z :=
  (Z.of_nat (countOf b) - Z.of_nat (countOf a))%Z.

(** The body that [scrapeJobs] sends for its arguments. *)
Definition requestOf (jobTitle : string) (location : option string)
           (pages : option Z) : Api.ScrapeRequest :=
  {| Api.job_title := trim jobTitle;
     Api.location :=
       or_else (Some (trim match location with
                           | Some l => l
                           | None => "Remote"
                           end)) "Remote";
     Api.pages := match pages with Some p => p | None => 1%Z end |}.

(** The files a list of events of the download handler saved, by
    address and name; the alerts it showed; the requests it sent. *)
Definition saved (evs : list DownloadButtons.Event)
  : list (string * string) :=
  flat_map (fun e => match e with
                     | DownloadButtons.Clicked href download =>
                         [(href, download)]
                     | _ => []
                     end) evs.

Definition alerts (evs : list DownloadButtons.Event) : list string :=
  flat_map (fun e => match e with
                     | DownloadButtons.Alerted text => [text]
                     | _ => []
                     end) evs.

Definition requests (evs : list DownloadButtons.Event) : list Api.Request :=
  flat_map (fun e => match e with
                     | DownloadButtons.Sent r => [r]
                     | _ => []
                     end) evs.

(** The history holds the last ten downloads at most, and the last
    download is its last entry. *)
Definition statsConsistent (s : DownloadButtons.DownloadStats) : Prop :=
  List.length (DownloadButtons.downloadHistory s)
    = Nat.min 10 (DownloadButtons.totalDownloads s)
  /\ match DownloadButtons.lastDownload s with
     | None => DownloadButtons.totalDownloads s = 0
     | Some info =>
         exists older, DownloadButtons.downloadHistory s = older ++ [info]
     end.

(** The state after a run of clicks on the download buttons, each in
    its own surroundings and each finished before the next. *)
Definition session (calls : list (DownloadButtons.Env * string))
           (st : DownloadButtons.State) : DownloadButtons.State :=
  fold_left (fun st call =>
               snd (fst (DownloadButtons.handleDownload
                           (fst call) (snd call) st)))
            calls st.

(** The entry a successful download adds to the history. *)
Definition infoOf (env : DownloadButtons.Env) (format : string)
           (blob : Api.Blob) : DownloadButtons.DownloadInfo :=
  {| DownloadButtons.format := format;
     DownloadButtons.filename :=
       DownloadButtons.filenameOf (DownloadButtons.toISOString_now env 0)
                                  format;
     DownloadButtons.timestamp := DownloadButtons.toISOString_now env 1;
     DownloadButtons.info_size := Api.size blob |}.

(** [error.response?.data?.detail], when it is a non-empty string. *)
Definition serverDetail (error : Api.JsError) : option string :=
  match Api.response error with
  | Some r =>
      match Api.data r with
      | Some d =>
          match Api.detail d with
          | Some (String c s) => Some (String c s)
          | _ => None
          end
      | None => None
      end
  | None => None
  end.

(** The state the download handler leaves when there was data: the
    flag of the format was set and cleared. *)
Definition settled (format : string) (st : DownloadButtons.State)
           (stats : DownloadButtons.DownloadStats) : DownloadButtons.State :=
  {| DownloadButtons.downloading :=
       JsObject.define
         (JsObject.define (DownloadButtons.downloading st) format true)
         format false;
     DownloadButtons.downloadStats := stats |}.

(** The requests among the events of a submit. *)
Definition submitted (evs : list JobScraper.Event) : list Api.Request :=
  flat_map (fun e => match e with JobScraper.Sent r => [r] | _ => [] end) evs.

(** The state of the form when the guarded block of a valid submit
    starts. *)
Definition started (st : JobScraper.State) : JobScraper.State :=
  JobScraper.setError ""
    (JobScraper.setIsLoading true (snd (JobScraper.validateForm st))).

(** The page after a scrape that failed: it is no longer loading, its
    result reports the failure with a message and holds no job, the
    notice stands in place of the table, and the download buttons are
    without data. *)
Definition reportsFailure (app : App.State) : Prop :=
  App.isLoading app = false
  /\ App.hasData app = Some false
  /\ exists results msg,
       App.scrapeResults app = Some results
       /\ Api.success results = false
       /\ Api.jobs results = []
       /\ msg <> ""
       /\ Api.result_message results = Some msg
       /\ App.notice app = Some ("Scraping encountered issues", Some msg).

(** The unit that stands for [c] in the time stamp of a file name: a
    hyphen for a colon and for a period, else [c] itself. *)
Definition safeUnit (c : ascii) : ascii :=
  if Ascii.eqb c ":" || Ascii.eqb c "." then "-"%char else c.

(** A reading of the clock, in UTC. *)
Record Instant : Type := mkInstant {
  year : nat;
  month : nat;
  day : nat;
  hours : nat;
  minutes : nat;
  seconds : nat;
  milliseconds : nat
}.

(** The last [width] decimal digits of [n], with leading zeros. *)
Fixpoint padded (width n : nat) : string :=
  match width with
  | O => ""
  | S w => (padded w (n / 10) ++ String (digit (n mod 10)) "")%string
  end.

(** [Date.prototype.toISOString] at a reading of the clock in a year up
    to 9999: [YYYY-MM-DDTHH:mm:ss.sssZ]. *)
Definition toISOString (t : Instant) : string :=
  (padded 4 (year t) ++ "-" ++ padded 2 (month t) ++ "-"
     ++ padded 2 (day t) ++ "T" ++ padded 2 (hours t) ++ ":"
     ++ padded 2 (minutes t) ++ ":" ++ padded 2 (seconds t) ++ "."
     ++ padded 3 (milliseconds t) ++ "Z")%string.

(** A reading of the clock to the second, written with hyphens only:
    [YYYY-MM-DDTHH-mm-ss]. *)
Definition stamp (t : Instant) : string :=
  (padded 4 (year t) ++ "-" ++ padded 2 (month t) ++ "-"
     ++ padded 2 (day t) ++ "T" ++ padded 2 (hours t) ++ "-"
     ++ padded 2 (minutes t) ++ "-" ++ padded 2 (seconds t))%string.

End Spec.

(* ===================================================================== *)
(** ** Sample data                                                        *)
(* ===================================================================== *)

(** Three records, and a few environments for the request and download
    paths. *)
Module Sample.
Import JobTable.

Definition engineer_acme : Job :=
  {| Title := Some "Engineer"; Company := Some "Acme";
     Location := None; Link := None |}.

Definition untitled_acme : Job :=
  {| Title := Some ""; Company := Some "Acme";
     Location := None; Link := None |}.

Definition analyst_beta : Job :=
  {| Title := Some "Analyst"; Company := Some "Beta";
     Location := None; Link := None |}.

Definition three : list Job := [engineer_acme; untitled_acme; analyst_beta].

(** An axios timeout. *)
Definition timeout_error : Api.JsError :=
  {| Api.message := "timeout of 300000ms exceeded";
     Api.code := Some "ECONNABORTED";
     Api.response := None;
     Api.originalError := None |}.

(** An axios error for a 404 answer with a [detail]. *)
Definition not_found_error : Api.JsError :=
  {| Api.message := "Request failed with status code 404";
     Api.code := Some "ERR_BAD_REQUEST";
     Api.response :=
       Some {| Api.status := 404;
               Api.data := Some {| Api.detail := Some "No data available";
                                   Api.data_message := None |} |};
     Api.originalError := None |}.

(** A backend that answers every request. *)
Definition serving : Api.Backend :=
  {| Api.post := fun _ body =>
       Api.Normal {| Api.success := true;
                     Api.jobs := three;
                     Api.total_jobs := 3;
                     Api.pages_scraped := Api.pages body;
                     Api.result_message := None |};
     Api.get := fun _ _ => Api.Normal {| Api.size := 2048 |} |}.

(** A backend every request to which fails with [e]. *)
Definition failing (e : Api.JsError) : Api.Backend :=
  {| Api.post := fun _ _ => Api.Throw e;
     Api.get := fun _ _ => Api.Throw e |}.

(** A page with data, on 5 March 2024 at 14:07:09.123 UTC. *)
Definition browser (backend : Api.Backend) : DownloadButtons.Env :=
  {| DownloadButtons.hasData := true;
     DownloadButtons.import_failure := None;
     DownloadButtons.net := backend;
     DownloadButtons.createObjectURL := fun _ => Api.Normal "blob:1";
     DownloadButtons.toISOString_now := fun _ => "2024-03-05T14:07:09.123Z" |}.

(** A listing with all its fields. *)
Definition listing (title company location : string) : Job :=
  {| Title := Some title; Company := Some company;
     Location := Some location;
     Link := Some "https://www.indeed.com/viewjob?jk=1" |}.

(** Eight listings of four companies; one names no company and has an
    empty location. *)
Definition board : list Job :=
  [ listing "Engineer" "Acme" "Remote";
    listing "Analyst" "Beta" "Berlin";
    listing "Designer" "Acme" "Remote";
    {| Title := Some "Clerk"; Company := None;
       Location := Some ""; Link := None |};
    listing "Tester" "Gamma" "Remote";
    listing "Writer" "Delta" "Paris";
    listing "Lead" "Beta" "Berlin";
    listing "Operator" "Acme" "Oslo" ].

(** The form filled in for three pages of remote developer jobs. *)
Definition filled : JobScraper.State :=
  {| JobScraper.formData :=
       {| JobScraper.jobTitle := " dev "; JobScraper.location := "Remote";
          JobScraper.pages := 3 |};
     JobScraper.isLoading := false;
     JobScraper.error := "";
     JobScraper.validationErrors := JsObject.empty |}.

(** The surroundings of a submit, with App as the parent. *)
Definition page (backend : Api.Backend) : JobScraper.Env :=
  {| JobScraper.import_failure := None;
     JobScraper.net := backend;
     JobScraper.onScrapeError_given := true |}.

End Sample.

(* ===================================================================== *)
(** ** Vocabulary of the binary64 bounds                                  *)
(* ===================================================================== *)

(** The rational value of a mantissa and an exponent, and where the
    rounding steps of [SpecFloat] keep the value they round. *)
Module FloatSpec.
Import QArith.
Local Open Scope Z_scope.

(** [2^e] for any integer [e]. *)
Definition pow2 (e : Z) : Q := ((2 # 1) ^ e)%Q.

(** [m * 2^e] *)
Definition dyadic (m e : Z) : Q := (inject_Z m * pow2 e)%Q.

(** [x] lies in the cell that starts at [m * 2^e] and is [2^e] wide, at
    the place the location says: on its left end, in its lower half, on
    its middle, or in its upper half. *)
Definition bracket (m e : Z) (l : location) (x : Q) : Prop :=
  match l with
  | loc_Exact => (x == dyadic m e)%Q
  | loc_Inexact Lt =>
      (dyadic m e < x)%Q /\ (2 * x < dyadic (2 * m + 1) e)%Q
  | loc_Inexact Eq => (2 * x == dyadic (2 * m + 1) e)%Q
  | loc_Inexact Gt =>
      (dyadic (2 * m + 1) e < 2 * x)%Q /\ (x < dyadic (m + 1) e)%Q
  end.

End FloatSpec.

(* ===================================================================== *)
(** * Properties                                                          *)
(* ===================================================================== *)

(** ** Strings *)

Module JsStringFacts.
Import JsString Spec.

(** The string operations on a few inputs. *)
Example string_samples :
  trim "  a b  " = "a b"
  /\ toLowerCase "AcMe Z@[" = "acme z@["
  /\ includes "acme corp" "e c" = true
  /\ includes "" "" = true
  /\ includes "ab" "abc" = false
  /\ replace_colon_dot "14:07:09.123Z" = "14-07-09-123Z"
  /\ JsString.of_Z 404 = "404".
Proof. repeat split. Qed.

Lemma startsWith_spec (s t : string) :
  startsWith s t = true <-> exists b : string, s = (t ++ b)%string.
Proof.
  revert s; induction t as [|c t IH]; intros s; simpl.
  - split; [intros _; now exists s | reflexivity].
  - destruct s as [|a s]; simpl.
    + split; [discriminate | intros [b Hb]; discriminate].
    + rewrite andb_true_iff, Ascii.eqb_eq, IH. split.
      * intros [-> [b ->]]. now exists b.
      * intros [b Hb]. injection Hb as -> ->.
        split; [reflexivity | now exists b].
Qed.

Lemma includes_spec (s t : string) :
  includes s t = true <-> occurs_in t s.
Proof.
  unfold occurs_in. induction s as [|c s IH].
  - simpl. rewrite orb_false_r, startsWith_spec. split.
    + intros [b Hb]. now exists EmptyString, b.
    + intros [[|a0 a] [b Hb]]; [now exists b | discriminate].
  - cbn [includes]. rewrite orb_true_iff, startsWith_spec, IH. split.
    + intros [[b Hb] | [a [b Hb]]].
      * now exists EmptyString, b.
      * exists (String c a), b. simpl. now rewrite Hb.
    + intros [[|a0 a] [b Hb]].
      * left. now exists b.
      * right. simpl in Hb. injection Hb as _ Hb. now exists a, b.
Qed.

Lemma trimEnd_empty (s : string) :
  trimEnd s = EmptyString <-> whitespace_only s = true.
Proof.
  induction s as [|c s IH]; simpl.
  - tauto.
  - destruct (trimEnd s) eqn:E.
    + destruct (isWhiteSpace c); simpl.
      * rewrite <- IH. tauto.
      * split; discriminate.
    + split; [discriminate |].
      rewrite andb_true_iff. intros [_ H]. apply IH in H. discriminate.
Qed.

Lemma trimStart_whitespace (s : string) :
  whitespace_only (trimStart s) = whitespace_only s.
Proof.
  induction s as [|c s IH]; simpl; [reflexivity |].
  destruct (isWhiteSpace c) eqn:E; simpl; [exact IH | now rewrite E].
Qed.

(** [filterText.trim()] is falsy exactly for white-space-only text. *)
Lemma truthy_trim (s : string) :
  truthy (trim s) = negb (whitespace_only s).
Proof.
  unfold trim. rewrite <- trimStart_whitespace.
  destruct (trimEnd (trimStart s)) eqn:E; simpl.
  - apply trimEnd_empty in E. now rewrite E.
  - destruct (whitespace_only (trimStart s)) eqn:W; [| reflexivity].
    apply trimEnd_empty in W. congruence.
Qed.

Lemma mem_replace_colon (s : string) :
  mem ":" (replace_colon_dot s) = false.
Proof.
  induction s as [|c s IH]; simpl; [reflexivity |].
  rewrite IH, orb_false_r.
  destruct (Ascii.eqb c ":") eqn:E1; simpl; [reflexivity |].
  destruct (Ascii.eqb c ".") eqn:E2; simpl; [reflexivity | exact E1].
Qed.

Lemma mem_replace_dot (s : string) :
  mem "." (replace_colon_dot s) = false.
Proof.
  induction s as [|c s IH]; simpl; [reflexivity |].
  rewrite IH, orb_false_r.
  destruct (Ascii.eqb c ":") eqn:E1; simpl; [reflexivity |].
  destruct (Ascii.eqb c ".") eqn:E2; simpl; [reflexivity | exact E2].
Qed.

Lemma mem_substring0 (c : ascii) (n : nat) (s : string) :
  mem c s = false -> mem c (substring0 n s) = false.
Proof.
  revert s; induction n as [|n IH]; intros [|a s]; simpl; try reflexivity.
  rewrite !orb_false_iff. intros [H1 H2]. split; [exact H1 | now apply IH].
Qed.

Lemma substring0_replace (n : nat) (s : string) :
  substring0 n (replace_colon_dot s) = replace_colon_dot (substring0 n s).
Proof.
  revert s; induction n as [|n IH]; intros [|a s]; simpl; try reflexivity.
  now rewrite IH.
Qed.

Lemma substring0_length (n : nat) (s : string) :
  String.length (substring0 n s) = Nat.min n (String.length s).
Proof.
  revert s; induction n as [|n IH]; intros [|a s]; simpl; try reflexivity.
  now rewrite IH.
Qed.

End JsStringFacts.

(** ** Sorting with a consistent comparator *)

Module JsArrayFacts.
Import JsArray Spec.

Section Any.
Context {A : Type}.
Variable comparefn : A -> A -> Z.

Lemma insert_perm (x : A) (l : list A) :
  Permutation (insert comparefn x l) (x :: l).
Proof.
  induction l as [|y l IH]; simpl; [reflexivity |].
  destruct (0 <? comparefn x y)%Z; [| reflexivity].
  rewrite IH. apply perm_swap.
Qed.

Lemma sort_perm (l : list A) : Permutation (sort comparefn l) l.
Proof.
  induction l as [|x l IH]; simpl; [reflexivity |].
  rewrite insert_perm. now constructor.
Qed.

Lemma sort_length (l : list A) :
  List.length (sort comparefn l) = List.length l.
Proof. apply Permutation_length, sort_perm. Qed.
End Any.

Section Consistent.
Context {A : Type}.
Variable comparefn : A -> A -> Z.

(** The comparator is consistent: antisymmetric in sign, and its
    "not after" relation is transitive. *)
Hypothesis comparefn_sym :
  forall a b, Z.sgn (comparefn a b) = (- Z.sgn (comparefn b a))%Z.
Hypothesis comparefn_trans :
  forall a b c, (comparefn a b <= 0 -> comparefn b c <= 0
                 -> comparefn a c <= 0)%Z.

#[local] Abbreviation before := (Spec.before comparefn).
#[local] Abbreviation ties := (Spec.ties comparefn).

Lemma comparefn_flip (a b : A) :
  (0 < comparefn a b)%Z -> (comparefn b a < 0)%Z.
Proof. intros H. specialize (comparefn_sym a b). lia. Qed.

Lemma comparefn_flip_le (a b : A) :
  (comparefn a b <= 0)%Z -> (0 <= comparefn b a)%Z.
Proof. intros H. specialize (comparefn_sym a b). lia. Qed.

Lemma ties_sym (a b : A) : ties a b = ties b a.
Proof.
  unfold ties. specialize (comparefn_sym a b).
  destruct (Z.eqb_spec (comparefn a b) 0), (Z.eqb_spec (comparefn b a) 0);
    try reflexivity; lia.
Qed.

Lemma ties_before (a b : A) :
  ties a b = true <-> before a b /\ before b a.
Proof.
  unfold ties, before. rewrite Z.eqb_eq.
  specialize (comparefn_sym a b). lia.
Qed.

Lemma ties_trans (a b c : A) :
  ties a b = true -> ties b c = true -> ties a c = true.
Proof.
  rewrite !ties_before. intros [H1 H2] [H3 H4]. split.
  - exact (comparefn_trans _ _ _ H1 H3).
  - exact (comparefn_trans _ _ _ H4 H2).
Qed.

Lemma insert_before (y x : A) (l : list A) :
  before y x -> Forall (before y) l ->
  Forall (before y) (insert comparefn x l).
Proof.
  intros Hx Hl. eapply Permutation_Forall.
  - symmetry. apply insert_perm.
  - now constructor.
Qed.

Lemma insert_sorted (x : A) (l : list A) :
  StronglySorted before l ->
  StronglySorted before (insert comparefn x l).
Proof.
  induction 1 as [|y l Hs IH Hy]; simpl.
  - repeat constructor.
  - destruct (Z.ltb_spec 0 (comparefn x y)) as [Hlt | Hle].
    + constructor; [exact IH |].
      apply insert_before; [| exact Hy].
      unfold before. apply comparefn_flip in Hlt. lia.
    + constructor; [now constructor |].
      constructor; [exact Hle |].
      eapply Forall_impl; [| exact Hy].
      intros z Hz. exact (comparefn_trans _ _ _ Hle Hz).
Qed.

(** The result is ordered. *)
Lemma sort_sorted (l : list A) : StronglySorted before (sort comparefn l).
Proof.
  induction l as [|x l IH]; simpl; [constructor | now apply insert_sorted].
Qed.

Lemma insert_stable (k x : A) (l : list A) :
  filter (ties k) (insert comparefn x l) = filter (ties k) (x :: l).
Proof.
  induction l as [|y l IH]; [reflexivity |].
  cbn [insert]. destruct (Z.ltb_spec 0 (comparefn x y)) as [Hlt | Hle];
    [| reflexivity].
  cbn [filter] in *. rewrite IH.
  destruct (ties k x) eqn:Ex, (ties k y) eqn:Ey; try reflexivity.
  exfalso. rewrite ties_sym in Ex.
  pose proof (ties_trans _ _ _ Ex Ey) as H.
  unfold ties in H. apply Z.eqb_eq in H. lia.
Qed.

(** The result is stable: every class of tying elements keeps the
    order it had in the input. *)
Lemma sort_stable (k : A) (l : list A) :
  filter (ties k) (sort comparefn l) = filter (ties k) l.
Proof.
  induction l as [|x l IH]; [reflexivity |].
  cbn [sort]. rewrite insert_stable. cbn [filter]. now rewrite IH.
Qed.

(** An ordered, stable arrangement of a list is unique. *)
Lemma stable_sorted_unique (l1 l2 : list A) :
  Permutation l1 l2 ->
  StronglySorted before l1 -> StronglySorted before l2 ->
  (forall k, filter (ties k) l1 = filter (ties k) l2) ->
  l1 = l2.
Proof.
  revert l2; induction l1 as [|a l1 IH]; intros l2 Hp H1 H2 Hf.
  - now apply Permutation_nil in Hp.
  - destruct l2 as [|b l2].
    + symmetry in Hp. now apply Permutation_nil in Hp.
    + apply StronglySorted_inv in H1 as [H1 Ha].
      apply StronglySorted_inv in H2 as [H2 Hb].
      assert (Haa : ties a a = true).
      { unfold ties. apply Z.eqb_eq. specialize (comparefn_sym a a). lia. }
      assert (Hbb : ties b b = true).
      { unfold ties. apply Z.eqb_eq. specialize (comparefn_sym b b). lia. }
      assert (Hab : ties a b = true).
      { apply ties_before. split.
        - assert (Hin : In b (a :: l1))
            by (eapply Permutation_in; [symmetry; exact Hp | now left]).
          destruct Hin as [<- | Hin]; [now apply ties_before in Haa |].
          rewrite Forall_forall in Ha. now apply Ha.
        - assert (Hin : In a (b :: l2))
            by (eapply Permutation_in; [exact Hp | now left]).
          destruct Hin as [<- | Hin]; [now apply ties_before in Hbb |].
          rewrite Forall_forall in Hb. now apply Hb. }
      assert (E : a = b).
      { specialize (Hf a). cbn [filter] in Hf.
        rewrite Haa, Hab in Hf. now injection Hf. }
      subst b. f_equal. apply IH; try assumption.
      * eapply Permutation_cons_inv; exact Hp.
      * intros k. specialize (Hf k). cbn [filter] in Hf.
        destruct (ties k a); [now injection Hf | exact Hf].
Qed.

(** Sorting an arrangement that is already a stable permutation of
    [l] gives the sort of [l]. *)
Lemma sort_of_stable_perm (l l' : list A) :
  Permutation l' l ->
  (forall k, filter (ties k) l' = filter (ties k) l) ->
  sort comparefn l' = sort comparefn l.
Proof.
  intros Hp Hf. apply stable_sorted_unique.
  - now rewrite !sort_perm.
  - apply sort_sorted.
  - apply sort_sorted.
  - intros k. now rewrite !sort_stable.
Qed.
End Consistent.

Section Reversed.
Context {A : Type}.
Variable comparefn : A -> A -> Z.
Hypothesis comparefn_sym :
  forall a b, Z.sgn (comparefn a b) = (- Z.sgn (comparefn b a))%Z.
Hypothesis comparefn_trans :
  forall a b c, (comparefn a b <= 0 -> comparefn b c <= 0
                 -> comparefn a c <= 0)%Z.

#[local] Abbreviation negated := (Spec.negated comparefn).

Lemma negated_sym (a b : A) :
  Z.sgn (negated a b) = (- Z.sgn (negated b a))%Z.
Proof. unfold negated. specialize (comparefn_sym a b). lia. Qed.

Lemma negated_trans (a b c : A) :
  (negated a b <= 0 -> negated b c <= 0 -> negated a c <= 0)%Z.
Proof.
  unfold negated. intros H1 H2.
  pose proof (comparefn_sym a b) as Sab.
  pose proof (comparefn_sym b c) as Sbc.
  pose proof (comparefn_sym a c) as Sac.
  assert (Hca : (comparefn c a <= 0)%Z)
    by (apply (comparefn_trans c b a); lia).
  lia.
Qed.

Lemma ties_negated (k x : A) : ties negated k x = ties comparefn k x.
Proof.
  unfold ties, negated.
  destruct (Z.eqb_spec (- comparefn k x) 0), (Z.eqb_spec (comparefn k x) 0);
    try reflexivity; lia.
Qed.

Lemma sorted_rev_negated (l : list A) :
  StronglySorted (before comparefn) l ->
  StronglySorted (before negated) (rev l).
Proof.
  induction 1 as [|a l Hs IH Ha]; simpl; [constructor |].
  assert (G : forall l', StronglySorted (before negated) l' ->
              Forall (fun z => before negated z a) l' ->
              StronglySorted (before negated) (l' ++ [a])).
  { induction l' as [|z l' IHl']; intros Hl' Hz; simpl.
    - repeat constructor.
    - apply StronglySorted_inv in Hl' as [Hl' Hzz].
      apply Forall_cons_iff in Hz as [Hza Hz].
      constructor; [now apply IHl' |].
      apply Forall_app. split; [exact Hzz | now constructor]. }
  apply G; [exact IH |].
  apply Forall_rev. eapply Forall_impl; [| exact Ha].
  intros z Hz. unfold before, negated in *.
  specialize (comparefn_sym a z). lia.
Qed.

(** Descending order is the ascending order read backwards, except
    that ties keep their input order: it is the reverse of the
    ascending sort of the reversed input. *)
Lemma sort_negated_rev (l : list A) :
  sort negated l = rev (sort comparefn (rev l)).
Proof.
  apply (stable_sorted_unique negated negated_sym).
  - rewrite sort_perm, <- Permutation_rev, sort_perm.
    apply Permutation_rev.
  - apply sort_sorted; [exact negated_sym | exact negated_trans].
  - apply sorted_rev_negated.
    now apply sort_sorted.
  - intros k.
    rewrite (sort_stable negated negated_sym negated_trans).
    rewrite filter_rev.
    rewrite !(filter_ext _ _ (ties_negated k)).
    rewrite (sort_stable comparefn comparefn_sym comparefn_trans).
    now rewrite filter_rev, rev_involutive.
Qed.
(** Without ties, descending order is ascending order reversed. *)
Lemma sort_negated_rev_no_ties (l : list A) :
  (forall k, List.length (filter (ties comparefn k) l) <= 1) ->
  sort negated l = rev (sort comparefn l).
Proof.
  intros H. apply (stable_sorted_unique negated negated_sym).
  - rewrite sort_perm, <- Permutation_rev. symmetry. apply sort_perm.
  - apply sort_sorted; [exact negated_sym | exact negated_trans].
  - apply sorted_rev_negated. now apply sort_sorted.
  - intros k.
    rewrite (sort_stable negated negated_sym negated_trans).
    rewrite filter_rev.
    rewrite !(filter_ext _ _ (ties_negated k)).
    rewrite (sort_stable comparefn comparefn_sym comparefn_trans).
    specialize (H k).
    destruct (filter (ties comparefn k) l) as [|a [|b t]];
      simpl in *; try reflexivity; lia.
Qed.
End Reversed.

End JsArrayFacts.

(** ** The code-unit collation obeys the collation laws *)

Module HostFacts.
Import Host Spec.

Lemma ordinalCompare_cases (a b : string) :
  (ordinalCompare a b = 0%Z /\ a = b)
  \/ (ordinalCompare a b = (-1)%Z /\ OrdersEx.String_as_OT.lt a b)
  \/ (ordinalCompare a b = 1%Z /\ OrdersEx.String_as_OT.lt b a).
Proof.
  unfold ordinalCompare.
  destruct (OrdersEx.String_as_OT.compare_spec a b) as [E | L | G]; auto.
Qed.

Lemma string_lt_irrefl (a : string) : ~ OrdersEx.String_as_OT.lt a a.
Proof. apply (StrictOrder_Irreflexive a). Qed.

Lemma string_lt_trans (a b c : string) :
  OrdersEx.String_as_OT.lt a b -> OrdersEx.String_as_OT.lt b c ->
  OrdersEx.String_as_OT.lt a c.
Proof. apply (StrictOrder_Transitive a b c). Qed.

Lemma ordinalCompare_sym (a b : string) :
  Z.sgn (ordinalCompare a b) = (- Z.sgn (ordinalCompare b a))%Z.
Proof.
  destruct (ordinalCompare_cases a b) as [[E H] | [[E H] | [E H]]],
           (ordinalCompare_cases b a) as [[E' H'] | [[E' H'] | [E' H']]];
    rewrite E, E'; try reflexivity; exfalso; subst;
    try (now apply (string_lt_irrefl b));
    try (now apply (string_lt_irrefl a));
    apply (string_lt_irrefl a); eapply string_lt_trans; eassumption.
Qed.

Lemma ordinalCompare_trans (a b c : string) :
  (ordinalCompare a b <= 0 -> ordinalCompare b c <= 0
   -> ordinalCompare a c <= 0)%Z.
Proof.
  destruct (ordinalCompare_cases a b) as [[E H] | [[E H] | [E H]]],
           (ordinalCompare_cases b c) as [[E' H'] | [[E' H'] | [E' H']]],
           (ordinalCompare_cases a c) as [[F K] | [[F K] | [F K]]];
    rewrite E, E', F; intros; try lia; exfalso; subst;
    try (now apply (string_lt_irrefl c));
    try (now apply (string_lt_irrefl b));
    try (apply (string_lt_irrefl b); eapply string_lt_trans; eassumption);
    try (apply (string_lt_irrefl c); eapply string_lt_trans; eassumption).
  apply (string_lt_irrefl a).
  eapply string_lt_trans; [exact H |].
  eapply string_lt_trans; eassumption.
Qed.

Lemma ordinalCompare_consistent : consistent ordinalCompare.
Proof. split; [exact ordinalCompare_sym | exact ordinalCompare_trans]. Qed.

End HostFacts.

(** ** JobTable: the filter *)

Module JobTableFacts.
Import JsString JobTable Spec JsStringFacts JsArrayFacts.

Lemma field_includes_spec (v : option string) (filterText : string) :
  field_includes v filterText = true <->
  exists s, v = Some s /\ occurs_in (toLowerCase filterText) (toLowerCase s).
Proof.
  destruct v as [s |]; simpl.
  - rewrite includes_spec. split.
    + intros H. now exists s.
    + intros [s' [E H]]. now injection E as ->.
  - split; [discriminate | intros [s [E _]]; discriminate].
Qed.

(** The filter callback decides [Matches]. *)
Lemma matches_spec (filterText : string) (job : Job) :
  matches filterText job = true <-> Matches filterText job.
Proof.
  unfold matches, Matches.
  rewrite !orb_true_iff, !field_includes_spec. split.
  - intros [[[s [E H]] | [s [E H]]] | [s [E H]]]; exists s; auto.
  - intros [s [[E | [E | E]] H]]; [left; left | left; right | right];
      now exists s.
Qed.






(** ** JobTable: the sort *)

Lemma compareJobs_asc (lc : string -> string -> Z) (f : SortField)
      (a b : Job) :
  compareJobs lc f asc a b = lc (sortKey f a) (sortKey f b).
Proof. reflexivity. Qed.

Lemma compareJobs_desc (lc : string -> string -> Z) (f : SortField)
      (a b : Job) :
  compareJobs lc f desc a b = negated (compareJobs lc f asc) a b.
Proof. reflexivity. Qed.

Lemma compareJobs_sym (lc : string -> string -> Z) (f : SortField) :
  consistent lc ->
  forall a b, Z.sgn (compareJobs lc f asc a b)
              = (- Z.sgn (compareJobs lc f asc b a))%Z.
Proof. intros [Hs _] a b. apply Hs. Qed.

Lemma compareJobs_trans (lc : string -> string -> Z) (f : SortField) :
  consistent lc ->
  forall a b c, (compareJobs lc f asc a b <= 0 -> compareJobs lc f asc b c <= 0
                 -> compareJobs lc f asc a c <= 0)%Z.
Proof. intros [_ Ht] a b c. apply Ht. Qed.

Lemma sort_desc_negated (lc : string -> string -> Z) (f : SortField)
      (l : list Job) :
  JsArray.sort (compareJobs lc f desc) l
  = JsArray.sort (negated (compareJobs lc f asc)) l.
Proof. reflexivity. Qed.

(** A tie class keeps its input order through the sort, in either
    direction. *)
Lemma sort_jobs_stable (lc : string -> string -> Z) (f : SortField)
      (dir : SortDirection) (k : Job) (l : list Job) :
  consistent lc ->
  filter (sameKey lc f k) (JsArray.sort (compareJobs lc f dir) l)
  = filter (sameKey lc f k) l.
Proof.
  intros Hc.
  pose proof (compareJobs_sym lc f Hc) as Hs.
  pose proof (compareJobs_trans lc f Hc) as Ht.
  destruct dir.
  - exact (sort_stable (compareJobs lc f asc) Hs Ht k l).
  - rewrite sort_desc_negated.
    rewrite <- !(filter_ext _ _ (ties_negated (compareJobs lc f asc) k)).
    exact (sort_stable _ (negated_sym _ Hs) (negated_trans _ Hs Ht) k l).
Qed.

(** The descending sort is the reverse of the ascending sort of the
    reversed input. *)
Lemma sort_jobs_desc_rev (lc : string -> string -> Z) (f : SortField)
      (l : list Job) :
  consistent lc ->
  JsArray.sort (compareJobs lc f desc) l
  = rev (JsArray.sort (compareJobs lc f asc) (rev l)).
Proof.
  intros Hc. rewrite sort_desc_negated.
  apply sort_negated_rev;
    [exact (compareJobs_sym lc f Hc) | exact (compareJobs_trans lc f Hc)].
Qed.

(** Sorting descending what was sorted ascending gives the descending
    sort of the input. *)
Lemma sort_jobs_desc_after_asc (lc : string -> string -> Z) (f : SortField)
      (l : list Job) :
  consistent lc ->
  JsArray.sort (compareJobs lc f desc)
               (JsArray.sort (compareJobs lc f asc) l)
  = JsArray.sort (compareJobs lc f desc) l.
Proof.
  intros Hc.
  pose proof (compareJobs_sym lc f Hc) as Hs.
  pose proof (compareJobs_trans lc f Hc) as Ht.
  rewrite !sort_desc_negated.
  apply (sort_of_stable_perm _ (negated_sym _ Hs) (negated_trans _ Hs Ht)).
  - apply sort_perm.
  - intros k.
    rewrite !(filter_ext _ _ (ties_negated (compareJobs lc f asc) k)).
    exact (sort_stable _ Hs Ht k l).
Qed.

(** When no two records tie, the descending sort is the ascending sort
    reversed. *)
Lemma sort_jobs_desc_rev_no_ties (lc : string -> string -> Z) (f : SortField)
      (l : list Job) :
  consistent lc ->
  (forall k, List.length (filter (sameKey lc f k) l) <= 1) ->
  JsArray.sort (compareJobs lc f desc) l
  = rev (JsArray.sort (compareJobs lc f asc) l).
Proof.
  intros Hc H. rewrite sort_desc_negated.
  apply sort_negated_rev_no_ties;
    [exact (compareJobs_sym lc f Hc) | exact (compareJobs_trans lc f Hc)
     | exact H].
Qed.

Lemma filtered_rev (filterText : string) (jobs : list Job) :
  (if truthy (trim filterText)
   then filter (matches filterText) (rev jobs) else rev jobs)
  = rev (if truthy (trim filterText)
         then filter (matches filterText) jobs else jobs).
Proof.
  destruct (truthy (trim filterText)); [apply filter_rev | reflexivity].
Qed.

(** C2. For a collation that obeys the collation laws, and every job
    list, filter text and sort column:
    - the sort is stable: the records whose keys tie with a given record
      stand in the view in the order they have in the filtered list;
    - the ascending view is ordered by the key, the descending view by
      the reversed comparison;
    - descending is ascending reversed, up to the order of ties: it is
      the reverse of the ascending view of the reversed input, it is
      what the descending sort makes of the ascending view, and it is
      the ascending view reversed when no two shown records tie;
    - an absent field is sorted as the empty string;
    - where "Acme" sorts before "Beta", the three sample records sorted
      by company ascending are the two Acme records in their original
      order and then the Beta record, whatever the input order of the
      Beta record. *)
Theorem C2_sort_stable_and_reversible :
  forall lc : string -> string -> Z,
    consistent lc ->
    (forall jobs filterText f dir k,
        filter (sameKey lc f k)
               (processedJobs lc (Some jobs) filterText (Some f) dir)
        = filter (sameKey lc f k)
                 (processedJobs lc (Some jobs) filterText None dir))
    /\ (forall jobs filterText f,
           StronglySorted
             (fun a b => (lc (sortKey f a) (sortKey f b) <= 0)%Z)
             (processedJobs lc (Some jobs) filterText (Some f) asc)
           /\ StronglySorted
                (fun a b => (0 <= lc (sortKey f a) (sortKey f b))%Z)
                (processedJobs lc (Some jobs) filterText (Some f) desc))
    /\ (forall jobs filterText f,
           processedJobs lc (Some jobs) filterText (Some f) desc
           = rev (processedJobs lc (Some (rev jobs)) filterText (Some f) asc)
           /\ JsArray.sort (compareJobs lc f desc)
                (processedJobs lc (Some jobs) filterText (Some f) asc)
              = processedJobs lc (Some jobs) filterText (Some f) desc
           /\ ((forall k,
                  List.length
                    (filter (sameKey lc f k)
                            (processedJobs lc (Some jobs) filterText None asc))
                  <= 1) ->
               processedJobs lc (Some jobs) filterText (Some f) desc
               = rev (processedJobs lc (Some jobs) filterText (Some f) asc)))
    /\ (forall f dir a b,
           compareJobs lc f dir a b
           = match dir with
             | asc => lc (sortKey f a) (sortKey f b)
             | desc => (- lc (sortKey f a) (sortKey f b))%Z
             end)
    /\ (forall f job, prop f job = None -> sortKey f job = "")
    /\ ((lc "Acme" "Beta" < 0)%Z ->
        processedJobs lc (Some Sample.three) "" (Some by_Company) asc
          = Sample.three
        /\ processedJobs lc
             (Some [Sample.analyst_beta; Sample.engineer_acme;
                    Sample.untitled_acme]) "" (Some by_Company) asc
           = Sample.three
        /\ processedJobs lc (Some Sample.three) "" (Some by_Company) desc
           = [Sample.analyst_beta; Sample.engineer_acme;
              Sample.untitled_acme]).
Proof.
  intros lc Hc.
  pose proof Hc as [Hsym Htrans].
  split; [| split; [| split; [| split; [| split]]]].
  - intros jobs filterText f dir k. unfold processedJobs.
    now apply sort_jobs_stable.
  - intros jobs filterText f. unfold processedJobs. split.
    + exact (sort_sorted _ (compareJobs_sym lc f Hc)
                         (compareJobs_trans lc f Hc) _).
    + rewrite sort_desc_negated.
      pose proof (sort_sorted _
                    (negated_sym _ (compareJobs_sym lc f Hc))
                    (negated_trans _ (compareJobs_sym lc f Hc)
                                   (compareJobs_trans lc f Hc))) as S.
      eapply StronglySorted_ind
        with (P := StronglySorted
                     (fun a b => (0 <= lc (sortKey f a) (sortKey f b))%Z));
        [constructor | | apply S].
      intros a l _ IH Ha. constructor; [exact IH |].
      eapply Forall_impl; [| exact Ha].
      intros b Hb. unfold before, negated in Hb.
      rewrite compareJobs_asc in Hb. lia.
  - intros jobs filterText f. unfold processedJobs. split; [| split].
    + rewrite filtered_rev. now apply sort_jobs_desc_rev.
    + now apply sort_jobs_desc_after_asc.
    + now apply sort_jobs_desc_rev_no_ties.
  - intros f [] a b; reflexivity.
  - intros f job E. unfold sortKey. now rewrite E.
  - intros Hab.
    assert (Haa : lc "Acme" "Acme" = 0%Z)
      by (specialize (Hsym "Acme" "Acme"); lia).
    assert (Hba : (0 < lc "Beta" "Acme")%Z)
      by (specialize (Hsym "Acme" "Beta"); lia).
    assert (E1 : (0 <? lc "Acme" "Beta")%Z = false) by (apply Z.ltb_ge; lia).
    assert (E2 : (0 <? lc "Beta" "Acme")%Z = true) by (apply Z.ltb_lt; lia).
    assert (E3 : (0 <? lc "Acme" "Acme")%Z = false) by (apply Z.ltb_ge; lia).
    assert (E4 : (0 <? - lc "Acme" "Beta")%Z = true) by (apply Z.ltb_lt; lia).
    assert (E5 : (0 <? - lc "Beta" "Acme")%Z = false) by (apply Z.ltb_ge; lia).
    assert (E6 : (0 <? - lc "Acme" "Acme")%Z = false) by (apply Z.ltb_ge; lia).
    unfold processedJobs, Sample.three, Sample.engineer_acme,
      Sample.untitled_acme, Sample.analyst_beta, compareJobs.
    repeat (progress (cbn -[Z.ltb Z.opp];
                      rewrite ?E1, ?E2, ?E3, ?E4, ?E5, ?E6)).
    repeat split.
Qed.

(** C2 at the code-unit collation. *)
Lemma C2_witness :
  processedJobs Host.ordinalCompare
    (Some [Sample.analyst_beta; Sample.engineer_acme; Sample.untitled_acme])
    "" (Some by_Company) asc
  = Sample.three.
Proof.
  destruct (C2_sort_stable_and_reversible Host.ordinalCompare
              HostFacts.ordinalCompare_consistent)
    as [_ [_ [_ [_ [_ H]]]]].
  destruct (H eq_refl) as [_ [E _]]. exact E.
Defined.

End JobTableFacts.

(** ** JobTable: the analytics counters *)

Module AnalyticsFacts.
Import JsString JobTable Spec.

Lemma define_length {V : Type} (o : JsObject.t V) (k : string) (v : V) :
  List.length (JsObject.define o k v) <= S (List.length o).
Proof.
  induction o as [|[k' v'] o IH]; simpl; [lia |].
  destruct (String.eqb k' k); simpl; lia.
Qed.

(** One more record adds at most one name to a table. *)
Lemma tally_length (table : JsObject.t Tally) (name : string) :
  List.length (tally table name) <= S (List.length table).
Proof.
  unfold tally. destruct (String.eqb name "__proto__"); [lia |].
  apply define_length.
Qed.

Lemma tables_length_from (jobs : list Job)
      (acc : JsObject.t Tally * JsObject.t Tally) :
  List.length (fst (fold_left countJob jobs acc))
    <= List.length (fst acc) + List.length jobs
  /\ List.length (snd (fold_left countJob jobs acc))
     <= List.length (snd acc) + List.length jobs.
Proof.
  revert acc.
  induction jobs as [|job jobs IH]; intros acc; simpl; [lia |].
  destruct (IH (countJob acc job)) as [H1 H2].
  change (fst (countJob acc job))
    with (tally (fst acc) (or_else (Company job) "Unknown")) in H1.
  change (snd (countJob acc job))
    with (tally (snd acc) (or_else (Location job) "Unknown")) in H2.
  pose proof (tally_length (fst acc) (or_else (Company job) "Unknown")).
  pose proof (tally_length (snd acc) (or_else (Location job) "Unknown")).
  split; lia.
Qed.

(** Neither table has more names than there are records. *)
Lemma tables_length (jobs : list Job) :
  JsObject.keys_length (fst (tables jobs)) <= List.length jobs
  /\ JsObject.keys_length (snd (tables jobs)) <= List.length jobs.
Proof.
  unfold JsObject.keys_length, tables.
  exact (tables_length_from jobs (JsObject.empty, JsObject.empty)).
Qed.

(** The summary of a non-empty list, field by field. *)
Lemma analytics_nonempty (job : Job) (jobs : list Job) :
  analytics (Some (job :: jobs)) =
  Some {| totalJobs := List.length (job :: jobs);
          uniqueCompanies :=
            JsObject.keys_length (fst (tables (job :: jobs)));
          uniqueLocations :=
            JsObject.keys_length (snd (tables (job :: jobs)));
          validLinksPercentage :=
            percentage (List.length (filter hasValidLink (job :: jobs)))
                       (List.length (job :: jobs)) |}.
Proof.
  unfold analytics. now destruct (tables (job :: jobs)).
Qed.

(** C3. For every job sequence: an empty (or absent) sequence gives the
    "no data" result; any other gives a summary whose [totalJobs] is the
    length of the sequence and whose [uniqueCompanies] (and
    [uniqueLocations]) is at most that length. *)
Theorem C3_analytics_counts :
  analytics None = None
  /\ forall J : list Job,
       match J with
       | [] => analytics (Some J) = None
       | _ :: _ =>
           exists s, analytics (Some J) = Some s
                     /\ totalJobs s = List.length J
                     /\ uniqueCompanies s <= List.length J
                     /\ uniqueLocations s <= List.length J
       end.
Proof.
  split; [reflexivity |].
  intros [|job jobs]; [reflexivity |].
  rewrite analytics_nonempty. eexists. split; [reflexivity |].
  cbn [totalJobs uniqueCompanies uniqueLocations].
  pose proof (tables_length (job :: jobs)) as [H1 H2].
  repeat split; assumption.
Qed.

End AnalyticsFacts.

(** ** services/api.js *)

Module ApiFacts.
Import JsString Api Spec JsStringFacts.

Lemma includes_validFormats (format : string) :
  JsArray.includes validFormats format = false <->
  format <> "csv" /\ format <> "excel" /\ format <> "json".
Proof.
  unfold JsArray.includes, validFormats. cbn [existsb].
  rewrite !orb_false_iff, !String.eqb_neq. tauto.
Qed.

(** A rejected format never reaches the network. *)
Lemma downloadFile_invalid (net : Backend) (format : string) :
  JsArray.includes validFormats format = false ->
  downloadFile net format =
  (Throw {| message := "Download failed";
            code := None;
            response := None;
            originalError :=
              Some (new_Error ("Invalid format: " ++ format)%string) |}, []).
Proof. intros H. unfold downloadFile. now rewrite H. Qed.

(** An accepted format is requested once, and the answer decides. *)
Lemma downloadFile_valid (net : Backend) (format : string) :
  JsArray.includes validFormats format = true ->
  downloadFile net format =
  let url := ("/download/" ++ format)%string in
  (match get net url (acceptHeader format) with
   | Normal blob => Normal blob
   | Throw error =>
       Throw {| message := "Download failed";
                code := None;
                response := response error;
                originalError := Some error |}
   end, [GET url (acceptHeader format)]).
Proof.
  intros H. unfold downloadFile. rewrite H. cbn [negb].
  now destruct (get net _ _).
Qed.

(** C9. Whatever makes [downloadFile] fail, the error it throws has the
    message "Download failed"; the cause is kept as [originalError] (and
    its server response, if any, as [response]). The cause is either the
    local "Invalid format" rejection, with nothing sent, or the rejection
    of the one request sent. *)
Theorem C9_download_failure_message_is_fixed :
  forall (net : Backend) (format : string) (e : JsError)
         (sent : list Request),
    downloadFile net format = (Throw e, sent) ->
    message e = "Download failed"
    /\ code e = None
    /\ exists cause,
         originalError e = Some cause
         /\ response e = response cause
         /\ ((cause = new_Error ("Invalid format: " ++ format)%string
              /\ JsArray.includes validFormats format = false
              /\ sent = [])
             \/ (get net ("/download/" ++ format)%string (acceptHeader format)
                 = Throw cause
                 /\ JsArray.includes validFormats format = true
                 /\ sent = [GET ("/download/" ++ format)%string
                                (acceptHeader format)])).
Proof.
  intros net format e sent H.
  destruct (JsArray.includes validFormats format) eqn:V.
  - rewrite (downloadFile_valid net format V) in H. cbv zeta in H.
    destruct (get net _ _) as [blob | cause] eqn:G; [discriminate |].
    injection H as <- <-.
    split; [reflexivity |]. split; [reflexivity |].
    exists cause. split; [reflexivity |]. split; [reflexivity |].
    right. auto.
  - rewrite (downloadFile_invalid net format V) in H.
    injection H as <- <-.
    split; [reflexivity |]. split; [reflexivity |].
    eexists. split; [reflexivity |]. split; [reflexivity |].
    left. auto.
Qed.

(** C9 at a timed-out csv download. *)
Lemma C9_witness :
  message
    match fst (downloadFile (Sample.failing Sample.timeout_error) "csv") with
    | Throw e => e
    | Normal _ => new_Error ""
    end = "Download failed".
Proof.
  exact (proj1 (C9_download_failure_message_is_fixed
                  (Sample.failing Sample.timeout_error) "csv" _ _ eq_refl)).
Defined.

Lemma trim_length_zero (t : string) :
  (String.length (trim t) =? 0)%nat = whitespace_only t.
Proof.
  pose proof (truthy_trim t) as H.
  destruct (trim t); simpl in *.
  - now destruct (whitespace_only t).
  - now destruct (whitespace_only t).
Qed.

Lemma truthy_whitespace (t : string) :
  truthy t = false -> whitespace_only t = true.
Proof. now destruct t. Qed.

(** A blank title is refused first, whatever the page count. *)
Lemma scrapeJobs_blank_title (net : Backend) (jobTitle location : option string)
      (pages : option Z) :
  blankTitle jobTitle = true ->
  scrapeJobs net jobTitle location pages =
  (Throw {| message := "Job title is required and must be a non-empty string";
            code := None;
            response := None;
            originalError :=
              Some (new_Error
                "Job title is required and must be a non-empty string") |},
   []).
Proof.
  intros H. unfold scrapeJobs. destruct jobTitle as [t |]; [| reflexivity].
  simpl in H. rewrite trim_length_zero, H, orb_true_r. reflexivity.
Qed.

(** With a usable title, a page count out of range is refused next. *)
Lemma scrapeJobs_pages_out_of_range (net : Backend)
      (jobTitle location : option string) (pages : Z) :
  blankTitle jobTitle = false ->
  (pages < 1 \/ 10 < pages)%Z ->
  scrapeJobs net jobTitle location (Some pages) =
  (Throw {| message := "Pages must be between 1 and 10";
            code := None;
            response := None;
            originalError :=
              Some (new_Error "Pages must be between 1 and 10") |}, []).
Proof.
  intros H Hp. unfold scrapeJobs. destruct jobTitle as [t |]; [| discriminate].
  simpl in H. rewrite trim_length_zero, H, orb_false_r.
  destruct (truthy t) eqn:T;
    [| apply truthy_whitespace in T; congruence].
  cbn [negb].
  assert (R : ((pages <? 1) || (pages >? 10))%Z = true).
  { apply orb_true_iff. rewrite Z.ltb_lt, Z.gtb_ltb, Z.ltb_lt. exact Hp. }
  rewrite R. reflexivity.
Qed.

(** C7 (as amended). For every page count outside 1..10 the request
    client rejects the scrape before any network call. When the job
    title is usable (present and not blank after trimming) the
    validation message is "Pages must be between 1 and 10"; when the
    title is blank the message is the job title's, since that check
    comes first. *)
Theorem C7_pages_out_of_range_rejected_before_network :
  forall (net : Backend) (jobTitle location : option string) (pages : Z),
    (pages < 1 \/ 10 < pages)%Z ->
    exists e,
      scrapeJobs net jobTitle location (Some pages) = (Throw e, [])
      /\ response e = None
      /\ message e =
           (if blankTitle jobTitle
            then "Job title is required and must be a non-empty string"
            else "Pages must be between 1 and 10")
      /\ originalError e = Some (new_Error (message e)).
Proof.
  intros net jobTitle location pages Hp.
  destruct (blankTitle jobTitle) eqn:B; eexists; split.
  - now apply scrapeJobs_blank_title.
  - repeat split.
  - now apply scrapeJobs_pages_out_of_range.
  - repeat split.
Qed.

(** C7 at 15 pages. *)
Lemma C7_witness :
  exists e,
    scrapeJobs Sample.serving (Some "Python Developer") (Some "Remote")
               (Some 15%Z) = (Throw e, [])
    /\ message e = "Pages must be between 1 and 10".
Proof.
  destruct (C7_pages_out_of_range_rejected_before_network
              Sample.serving (Some "Python Developer") (Some "Remote") 15)
    as [e [H1 [_ [H2 _]]]].
  - right. reflexivity.
  - exists e. split; [exact H1 | exact H2].
Defined.

(** C7 as stated fails when the job title is blank as well: with an
    empty title and 15 pages the message is the job title's and holds
    no digit, so it cannot refer to the 1-10 bound. *)
Lemma C7_blank_title_counterexample :
  exists e,
    scrapeJobs Sample.serving (Some "") (Some "Remote") (Some 15%Z)
    = (Throw e, [])
    /\ message e = "Job title is required and must be a non-empty string"
    /\ includes (message e) "1" = false
    /\ includes (message e) "0" = false.
Proof. eexists. repeat split. Qed.

(** The message of a failed scrape, by class of failure: the server's
    detail, a bare status, a timeout, and any other error. *)
Example scrapeJobs_failure_messages :
  let msg (e : JsError) :=
    match fst (scrapeJobs (Sample.failing e) (Some "dev") None None) with
    | Throw e' => message e'
    | Normal _ => ""
    end in
  msg Sample.not_found_error = "No data available"
  /\ msg {| message := "Request failed with status code 500";
            code := Some "ERR_BAD_RESPONSE";
            response := Some {| status := 500; data := None |};
            originalError := None |} = "Server error (500)"
  /\ msg Sample.timeout_error = "Request timed out. Scraping took too long."
  /\ msg (new_Error "Network Error") = "Network Error"
  /\ msg (new_Error "") = "Scraping failed".
Proof. repeat split. Qed.

(** A usable request is sent once, trimmed, and the answer is returned. *)
Example scrapeJobs_sends :
  scrapeJobs Sample.serving (Some " dev ") (Some "  ") (Some 3%Z) =
  (post Sample.serving "/scrape"
        {| job_title := "dev"; location := "Remote"; pages := 3 |},
   [POST "/scrape" {| job_title := "dev"; location := "Remote"; pages := 3 |}]).
Proof. reflexivity. Qed.

End ApiFacts.

(** ** DownloadButtons.js *)

Module DownloadFacts.
Import JsString Api DownloadButtons Spec JsStringFacts ApiFacts.

Lemma get_own_define {V : Type} (o : JsObject.t V) (k : string) (v : V) :
  JsObject.get_own (JsObject.define o k v) k = Some v.
Proof.
  induction o as [|[k' v'] o IH]; simpl.
  - now rewrite String.eqb_refl.
  - destruct (String.eqb k' k) eqn:E; simpl; now rewrite E.
Qed.

Lemma get_own_define_other {V : Type} (o : JsObject.t V) (k k' : string)
      (v : V) :
  k <> k' ->
  JsObject.get_own (JsObject.define o k v) k' = JsObject.get_own o k'.
Proof.
  intros N. induction o as [|[k0 v0] o IH]; simpl.
  - apply String.eqb_neq in N. now rewrite N.
  - destruct (String.eqb k0 k) eqn:E; simpl.
    + apply String.eqb_eq in E. subst k0.
      apply String.eqb_neq in N. now rewrite N.
    + now rewrite IH.
Qed.

(** Whatever the block and the handler do, normal completion or throw,
    the finalizer of [handleDownload] runs last and leaves the flag of
    the format cleared. *)
Lemma finally_clears_flag {A : Type} (block : M A) (handler : JsError -> M A)
      (format : string) (st : State) :
  exists c st' evs,
    try_catch_finally block handler (setDownloading format false) st
    = (c, st', evs ++ [SetDownloading format false])
    /\ JsObject.get_own (downloading st') format = Some false.
Proof.
  unfold try_catch_finally.
  destruct (block st) as [[c1 st1] ev1].
  destruct c1 as [a | e].
  - eexists _, _, (ev1 ++ []). split.
    + cbn. now rewrite <- !app_assoc.
    + cbn. apply get_own_define.
  - destruct (handler e st1) as [[c2 st2] ev2].
    eexists _, _, (ev1 ++ ev2). split.
    + cbn. now rewrite <- !app_assoc.
    + cbn. apply get_own_define.
Qed.

Lemma quiet_nil : quiet [].
Proof. intros f b []. Qed.

Lemma quiet_app (l1 l2 : list Event) : quiet l1 -> quiet l2 -> quiet (l1 ++ l2).
Proof.
  intros H1 H2 f b H. apply in_app_or in H as [H | H];
    [exact (H1 f b H) | exact (H2 f b H)].
Qed.

Lemma quiet_sent (sent : list Request) : quiet (map Sent sent).
Proof.
  intros f b H. apply in_map_iff in H as [r [E _]]. discriminate.
Qed.

Lemma quiet_clicked (url name : string) : quiet [Clicked url name].
Proof. intros f b [H | []]. discriminate. Qed.

Lemma quiet_alerted (text : string) : quiet [Alerted text].
Proof. intros f b [H | []]. discriminate. Qed.

(** The guarded block leaves the busy flags alone, whether it completes
    or throws. *)
Lemma downloadBlock_quiet (env : Env) (format : string) (st : State) :
  exists c st' evs,
    downloadBlock env format st = (c, st', evs)
    /\ quiet evs /\ downloading st' = downloading st.
Proof.
  unfold downloadBlock, bind, lift, await, emit, setDownloadStats.
  destruct (import_failure env) as [e |].
  - eexists _, _, _. split; [reflexivity |].
    split; [apply quiet_nil | reflexivity].
  - destruct (downloadFile (net env) format) as [[blob | e] sent]; cbn.
    + destruct (createObjectURL env blob) as [url | e]; cbn.
      * eexists _, _, _. split; [reflexivity |]. split; [| reflexivity].
        apply quiet_app; [apply quiet_sent |].
        apply quiet_clicked.
      * eexists _, _, _. split; [reflexivity |]. split; [| reflexivity].
        apply quiet_app; [apply quiet_sent | apply quiet_nil].
    + eexists _, _, _. split; [reflexivity |]. split; [| reflexivity].
      apply quiet_sent.
Qed.

(** C6. Every call of the handler completes normally. When there is
    data, its first effect marks the format busy, its last effect clears
    the mark, nothing in between touches a busy flag, and the flag of the
    format is [false] in the final state: so on success, on a rejected
    format, on a failed import, request or save. Without data nothing is
    marked and the state is unchanged. *)
Theorem C6_busy_flag_always_cleared :
  forall (env : Env) (format : string) (st : State),
    exists st' evs,
      handleDownload env format st = (Normal tt, st', evs)
      /\ if hasData env
         then JsObject.get_own (downloading st') format = Some false
              /\ exists mid,
                   evs = SetDownloading format true
                           :: mid ++ [SetDownloading format false]
                   /\ quiet mid
         else st' = st /\ evs = [].
Proof.
  intros env format st. unfold handleDownload.
  destruct (hasData env); cbn [negb].
  2: { exists st, []. repeat split. }
  unfold bind at 1. cbn [setDownloading].
  unfold try_catch_finally.
  match goal with
  | |- context [downloadBlock env format ?s] =>
      destruct (downloadBlock_quiet env format s)
        as [c [st1 [ev1 [E [Q D]]]]]; rewrite E
  end.
  destruct c as [[] | e]; cbn.
  - eexists _, _. split; [reflexivity |]. split.
    + apply get_own_define.
    + exists ev1. split; [reflexivity | exact Q].
  - eexists _, _. split; [reflexivity |]. split.
    + apply get_own_define.
    + exists (ev1 ++ [Alerted ("Download failed: " ++ failureDetail e)%string]).
      split; [cbn; now rewrite <- app_assoc |].
      apply quiet_app; [exact Q | apply quiet_alerted].
Qed.

(** A format the client refuses sends nothing from the handler either:
    it alerts, and the busy flag goes up and down. *)
Lemma handleDownload_invalid (env : Env) (format : string) (st : State) :
  JsArray.includes validFormats format = false ->
  hasData env = true ->
  exists text,
    snd (handleDownload env format st)
    = [SetDownloading format true; Alerted text;
       SetDownloading format false].
Proof.
  intros V Hd.
  unfold handleDownload, downloadBlock, downloadFailed, try_catch_finally,
    bind, lift, await, emit, setDownloading.
  rewrite Hd, (downloadFile_invalid (net env) format V). cbn.
  destruct (import_failure env); cbn; eexists; reflexivity.
Qed.

(** C5. Every format other than csv, excel and json is rejected by the
    client itself: [downloadFile] throws, the rejection it wraps is the
    "Invalid format" error naming the format (the code's unsupported
    format error), it carries no server response, and no request is
    issued; the download handler that calls it sends no request
    either. *)
Theorem C5_unsupported_format_rejected_locally :
  forall (backend : Backend) (format : string),
    format <> "csv" -> format <> "excel" -> format <> "json" ->
    downloadFile backend format =
      (Throw {| message := "Download failed";
                code := None;
                response := None;
                originalError :=
                  Some (new_Error ("Invalid format: " ++ format)%string) |},
       [])
    /\ forall (env : Env) (st : State) (r : Request),
         ~ In (Sent r) (snd (handleDownload env format st)).
Proof.
  intros backend format H1 H2 H3.
  assert (V : JsArray.includes validFormats format = false)
    by (apply includes_validFormats; auto).
  split; [now apply downloadFile_invalid |].
  intros env st r. destruct (hasData env) eqn:Hd.
  - destruct (handleDownload_invalid env format st V Hd) as [text ->].
    intros [H | [H | [H | []]]]; discriminate.
  - unfold handleDownload. rewrite Hd. intros [].
Qed.

(** C5 at the format "pdf", against a backend that would answer. *)
Lemma C5_witness :
  downloadFile Sample.serving "pdf" =
  (Throw {| message := "Download failed";
            code := None;
            response := None;
            originalError := Some (new_Error "Invalid format: pdf") |}, []).
Proof.
  apply (C5_unsupported_format_rejected_locally Sample.serving "pdf");
    discriminate.
Defined.

(** The exits of the handler on the sample page: a download that
    succeeds, a format the client refuses, and a request that times out. *)
Example handleDownload_exits :
  snd (handleDownload (Sample.browser Sample.serving) "json" initialState)
    = [SetDownloading "json" true;
       Sent (GET "/download/json" "application/json");
       Clicked "blob:1" "indeed-jobs-2024-03-05T14-07-09.json";
       SetDownloading "json" false]
  /\ snd (handleDownload (Sample.browser Sample.serving) "pdf" initialState)
     = [SetDownloading "pdf" true;
        Alerted "Download failed: Download failed";
        SetDownloading "pdf" false]
  /\ snd (handleDownload
            (Sample.browser (Sample.failing Sample.not_found_error))
            "csv" initialState)
     = [SetDownloading "csv" true;
        Sent (GET "/download/csv" "text/csv");
        Alerted "Download failed: No data available";
        SetDownloading "csv" false].
Proof. repeat split. Qed.

(** The time stamp of a file name holds no colon and no period, and is
    the first 19 units of the ISO rendering with both replaced. *)
Lemma timestampOf_safe (iso : string) :
  mem ":" (timestampOf iso) = false
  /\ mem "." (timestampOf iso) = false
  /\ timestampOf iso = replace_colon_dot (substring0 19 iso)
  /\ String.length (timestampOf iso) <= 19.
Proof.
  unfold timestampOf. repeat split.
  - apply mem_substring0, mem_replace_colon.
  - apply mem_substring0, mem_replace_dot.
  - apply substring0_replace.
  - rewrite substring0_length. apply Nat.le_min_l.
Qed.

(** Unit by unit: the time stamp is made of the first 19 units of the
    ISO rendering, a hyphen standing for each colon and period. *)
Lemma timestampOf_units (iso : string) :
  list_ascii_of_string (timestampOf iso)
  = map safeUnit (firstn 19 (list_ascii_of_string iso)).
Proof.
  unfold timestampOf. generalize 19 as n. intros n. revert iso.
  induction n as [|n IH]; intros [|c s]; simpl; try reflexivity.
  now rewrite IH.
Qed.

Lemma safeUnit_digit (n : nat) :
  safeUnit (digit (n mod 10)) = digit (n mod 10).
Proof.
  pose proof (Nat.mod_upper_bound n 10 ltac:(lia)) as H.
  destruct (n mod 10) as [|k]; [reflexivity |].
  do 9 (destruct k as [|k]; [reflexivity |]). lia.
Qed.

(** The time stamp made at a reading of the clock is that reading to the
    second. *)
Lemma timestampOf_instant (t : Instant) :
  timestampOf (toISOString t) = stamp t.
Proof.
  rewrite <- (string_of_list_ascii_of_string (timestampOf _)).
  rewrite timestampOf_units.
  unfold toISOString, stamp. cbn -[Nat.div Nat.modulo digit safeUnit].
  rewrite !safeUnit_digit. reflexivity.
Qed.

Example toISOString_sample :
  toISOString {| year := 2024; month := 3; day := 5; hours := 14;
                 minutes := 7; seconds := 9; milliseconds := 123 |}
  = toISOString_now (Sample.browser Sample.serving) 0.
Proof. reflexivity. Qed.

(** What a successful export does, step by step. *)
Lemma handleDownload_success (env : Env) (format : string) (st : State)
      (blob : Blob) (url : string) :
  hasData env = true ->
  import_failure env = None ->
  downloadFile (net env) format
    = (Normal blob,
       [GET ("/download/" ++ format)%string (acceptHeader format)]) ->
  createObjectURL env blob = Normal url ->
  exists st',
    handleDownload env format st =
    (Normal tt, st',
     [SetDownloading format true;
      Sent (GET ("/download/" ++ format)%string (acceptHeader format));
      Clicked url (filenameOf (toISOString_now env 0) format);
      SetDownloading format false])
    /\ option_map filename (lastDownload (downloadStats st'))
       = Some (filenameOf (toISOString_now env 0) format).
Proof.
  intros Hd Hi Hf Hu.
  unfold handleDownload, downloadBlock, try_catch_finally, bind, lift, await,
    emit, setDownloadStats, setDownloading.
  rewrite Hd, Hi, Hf. cbn. rewrite Hu. cbn.
  eexists. split; reflexivity.
Qed.

(** C8. For every successful export of csv, excel or json (there is
    data, the backend answers the one request with a blob and the
    browser accepts it), whatever the current time: the file is saved
    under the name [indeed-jobs-<timestamp>.<ext>], where <ext> is csv,
    xlsx or json respectively. The <timestamp> renders the current time:
    it is made of the first 19 units of the ISO rendering of the current
    time, with a hyphen in place of each colon and period, so it holds
    neither; when the clock reads a moment of a year up to 9999, it is
    that moment to the second, [YYYY-MM-DDTHH-mm-ss]. *)
Theorem C8_export_filename_form :
  forall (env : Env) (format : string) (st : State) (blob : Blob)
         (url : string),
    hasData env = true ->
    import_failure env = None ->
    In format validFormats ->
    get (net env) ("/download/" ++ format)%string (acceptHeader format)
      = Normal blob ->
    createObjectURL env blob = Normal url ->
    exists st' name ts ext,
      handleDownload env format st =
        (Normal tt, st',
         [SetDownloading format true;
          Sent (GET ("/download/" ++ format)%string (acceptHeader format));
          Clicked url name;
          SetDownloading format false])
      /\ option_map filename (lastDownload (downloadStats st')) = Some name
      /\ name = ("indeed-jobs-" ++ ts ++ "." ++ ext)%string
      /\ ((format = "csv" /\ ext = "csv")
          \/ (format = "excel" /\ ext = "xlsx")
          \/ (format = "json" /\ ext = "json"))
      /\ ts = timestampOf (toISOString_now env 0)
      /\ mem ":" ts = false
      /\ mem "." ts = false
      /\ list_ascii_of_string ts
         = map safeUnit
               (firstn 19 (list_ascii_of_string (toISOString_now env 0)))
      /\ (forall t : Instant,
            toISOString_now env 0 = toISOString t -> ts = stamp t).
Proof.
  intros env format st blob url Hd Hi Hv Hg Hu.
  assert (V : JsArray.includes validFormats format = true).
  { destruct Hv as [<- | [<- | [<- | []]]]; reflexivity. }
  pose proof (downloadFile_valid (net env) format V) as Hf.
  cbv zeta in Hf. rewrite Hg in Hf.
  destruct (handleDownload_success env format st blob url Hd Hi Hf Hu)
    as [st' [E L]].
  destruct (timestampOf_safe (toISOString_now env 0)) as [S1 [S2 _]].
  exists st', (filenameOf (toISOString_now env 0) format),
    (timestampOf (toISOString_now env 0)),
    (match extensions format with Some ext => ext | None => "undefined" end).
  split; [exact E |]. split; [exact L |]. split; [reflexivity |].
  split; [destruct Hv as [<- | [<- | [<- | []]]]; cbn; auto |].
  split; [reflexivity |]. split; [exact S1 |]. split; [exact S2 |].
  split; [apply timestampOf_units |].
  intros t ->. apply timestampOf_instant.
Qed.

(** C8 on the sample page, for the Excel export. *)
Lemma C8_witness :
  exists st',
    handleDownload (Sample.browser Sample.serving) "excel" initialState =
    (Normal tt, st',
     [SetDownloading "excel" true;
      Sent (GET "/download/excel"
             "application/vnd.openxmlformats-officedocument.spreadsheetml.sheet");
      Clicked "blob:1" "indeed-jobs-2024-03-05T14-07-09.xlsx";
      SetDownloading "excel" false]).
Proof.
  destruct (C8_export_filename_form
              (Sample.browser Sample.serving) "excel" initialState
              {| size := 2048 |} "blob:1" eq_refl eq_refl
              (or_intror (or_introl eq_refl)) eq_refl eq_refl)
    as [st' [name [ts [ext [E [_ [N [X [T _]]]]]]]]].
  exists st'. rewrite E.
  destruct X as [[X _] | [[_ X] | [X _]]]; try discriminate.
  subst. reflexivity.
Defined.

End DownloadFacts.

(** ** Numbers: the error of the binary64 quotient, product and rounding *)

Module JsNumberFacts.
Import QArith Qpower Lqa.
Import JsNumber JobTable FloatSpec.
Local Open Scope Z_scope.

(** *** Mantissas and their number of bits *)

(** A positive number of [d] bits lies in [2^(d-1), 2^d). *)
Lemma digits2_pos_bounds (p : positive) :
  2 ^ (Z.pos (digits2_pos p) - 1) <= Z.pos p < 2 ^ Z.pos (digits2_pos p).
Proof.
  induction p as [p IH | p IH |]; cbn [digits2_pos].
  - rewrite Pos2Z.inj_succ.
    replace (Z.succ (Z.pos (digits2_pos p)) - 1)
      with (Z.succ (Z.pos (digits2_pos p) - 1)) by lia.
    rewrite !Z.pow_succ_r by lia. lia.
  - rewrite Pos2Z.inj_succ.
    replace (Z.succ (Z.pos (digits2_pos p)) - 1)
      with (Z.succ (Z.pos (digits2_pos p) - 1)) by lia.
    rewrite !Z.pow_succ_r by lia. lia.
  - simpl. lia.
Qed.

(** Appending [k] zero bits multiplies by [2^k] and adds [k] bits. *)
Lemma iter_xO_value (p k : positive) :
  Z.pos (Pos.iter xO p k) = Z.pos p * 2 ^ Z.pos k.
Proof.
  induction k as [|k IH] using Pos.peano_ind.
  - simpl. lia.
  - rewrite Pos.iter_succ, Pos2Z.inj_succ, Z.pow_succ_r by lia.
    rewrite Pos2Z.inj_xO, IH. lia.
Qed.

Lemma iter_xO_digits (p k : positive) :
  digits2_pos (Pos.iter xO p k) = (digits2_pos p + k)%positive.
Proof.
  induction k as [|k IH] using Pos.peano_ind.
  - simpl. lia.
  - rewrite Pos.iter_succ. cbn [digits2_pos]. rewrite IH. lia.
Qed.

(** A canonical mantissa with an exact location is left as it is. *)
Lemma binary_round_aux_canonical (s : bool) (m : positive) (e : Z) :
  Z.pos (digits2_pos m) = 53 -> -1074 <= e <= 971 ->
  binary_round_aux prec emax s (Z.pos m) e loc_Exact = S754_finite s m e.
Proof.
  intros D He.
  unfold binary_round_aux, shr_fexp, fexp, emin, prec, emax.
  cbn [Zdigits2 shr_record_of_loc]. rewrite D.
  replace (Z.max (53 + e - 53) (3 - 1024 - 53) - e) with 0 by lia.
  cbn [shr shr_m loc_of_shr_record round_nearest_even Zdigits2
       shr_record_of_loc].
  rewrite D.
  replace (Z.max (53 + e - 53) (3 - 1024 - 53) - e) with 0 by lia.
  cbn [shr shr_m].
  destruct (Z.leb_spec e (1024 - 53)); [reflexivity | lia].
Qed.

(** An integer below 2^53 is a Number exactly: its mantissa is the
    integer shifted to 53 bits. *)
Lemma of_Z_pos (p : positive) :
  Z.pos p < 2 ^ 53 ->
  exists m e, of_Z (Z.pos p) = S754_finite false m e
    /\ Z.pos (digits2_pos m) = 53 /\ e = Z.pos (digits2_pos p) - 53
    /\ Z.pos m = Z.pos p * 2 ^ (- e) /\ -52 <= e <= 0.
Proof.
  intros Hp.
  pose proof (digits2_pos_bounds p) as [Hlo Hhi].
  assert (Hd : Z.pos (digits2_pos p) <= 53).
  { destruct (Z.le_gt_cases (Z.pos (digits2_pos p)) 53) as [H | H]; [exact H |].
    exfalso.
    assert (2 ^ 53 <= 2 ^ (Z.pos (digits2_pos p) - 1))
      by (apply Z.pow_le_mono_r; lia).
    lia. }
  unfold of_Z, binary_normalize, binary_round, shl_align, fexp, emin, prec,
    emax.
  replace (Z.max (Z.pos (digits2_pos p) + 0 - 53) (3 - 1024 - 53) - 0)
    with (Z.pos (digits2_pos p) - 53) by lia.
  replace (Z.max (Z.pos (digits2_pos p) + 0 - 53) (3 - 1024 - 53))
    with (Z.pos (digits2_pos p) - 53) by lia.
  destruct (Z.pos (digits2_pos p) - 53) as [| q | q] eqn:E; try lia.
  - exists p, 0. split; [apply binary_round_aux_canonical; lia |].
    repeat split; try lia.
  - exists (Pos.iter xO p q), (Z.neg q).
    assert (Z.pos (digits2_pos (Pos.iter xO p q)) = 53).
    { rewrite iter_xO_digits. lia. }
    split; [apply binary_round_aux_canonical; lia |].
    repeat split; try lia.
    rewrite iter_xO_value. reflexivity.
Qed.

(** *** Powers of two and dyadic values *)

Lemma pow2_pos (e : Z) : (0 < pow2 e)%Q.
Proof. apply Qpower_0_lt. reflexivity. Qed.

Lemma pow2_add (a b : Z) : (pow2 (a + b) == pow2 a * pow2 b)%Q.
Proof. apply Qpower_plus. discriminate. Qed.

Lemma pow2_succ (e : Z) : (pow2 (e + 1) == 2 * pow2 e)%Q.
Proof.
  assert (H : (pow2 1 == 2)%Q) by reflexivity.
  rewrite pow2_add, H. ring.
Qed.

Lemma pow2_Z (e : Z) : 0 <= e -> (pow2 e == inject_Z (2 ^ e))%Q.
Proof. intros H. unfold pow2. now rewrite Zpower_Qpower. Qed.

Lemma pow2_le (a b : Z) : a <= b -> (pow2 a <= pow2 b)%Q.
Proof. intros H. apply Qpower_le_compat_l; [exact H | discriminate]. Qed.

Lemma dyadic_shift (m e k : Z) :
  0 <= k -> (dyadic (m * 2 ^ k) e == dyadic m (e + k))%Q.
Proof.
  intros H. unfold dyadic.
  rewrite inject_Z_mult, pow2_add, <- pow2_Z by exact H.
  ring.
Qed.

Lemma dyadic_le (a b e : Z) : a <= b -> (dyadic a e <= dyadic b e)%Q.
Proof.
  intros H. unfold dyadic. apply Qmult_le_compat_r.
  - now rewrite <- Zle_Qle.
  - apply Qlt_le_weak, pow2_pos.
Qed.

Lemma dyadic_lt_inv (a b e : Z) : (dyadic a e < dyadic b e)%Q -> a < b.
Proof.
  unfold dyadic. intros H. apply Qmult_lt_r in H; [| apply pow2_pos].
  now rewrite Zlt_Qlt.
Qed.

Lemma Zdigits2_pos_bounds (m : Z) :
  0 < m -> 2 ^ (Zdigits2 m - 1) <= m < 2 ^ Zdigits2 m.
Proof.
  destruct m as [| p | p]; try lia. intros _. apply digits2_pos_bounds.
Qed.

Lemma inject_Z_pos (z : Z) : 0 < z -> (0 < inject_Z z)%Q.
Proof.
  intros H. change (inject_Z 0 < inject_Z z)%Q. now rewrite <- Zlt_Qlt.
Qed.

Lemma inject_Z_nonneg (z : Z) : 0 <= z -> (0 <= inject_Z z)%Q.
Proof.
  intros H. change (inject_Z 0 <= inject_Z z)%Q. now rewrite <- Zle_Qle.
Qed.

Lemma dyadic_exact (m p : positive) (e : Z) :
  e <= 0 -> Z.pos m = Z.pos p * 2 ^ (- e) ->
  (dyadic (Z.pos m) e == inject_Z (Z.pos p))%Q.
Proof.
  intros He E. rewrite E, dyadic_shift by lia.
  replace (e + - e) with 0 by lia. unfold dyadic.
  assert (H : (pow2 0 == 1)%Q) by reflexivity. rewrite H. ring.
Qed.

Lemma of_nat_100 : of_nat 100 = S754_finite false 7036874417766400 (-46).
Proof. reflexivity. Qed.

(** *** The location of a value through the rounding steps *)

Lemma dyadic_plus (a b e : Z) :
  (dyadic (a + b) e == dyadic a e + dyadic b e)%Q.
Proof. unfold dyadic. rewrite inject_Z_plus. ring. Qed.

Lemma dyadic_mult (a b e : Z) :
  (dyadic (a * b) e == inject_Z a * dyadic b e)%Q.
Proof. unfold dyadic. rewrite inject_Z_mult. ring. Qed.

Lemma dyadic_succ (m e : Z) : (dyadic m (e + 1) == 2 * dyadic m e)%Q.
Proof. unfold dyadic. rewrite pow2_succ. ring. Qed.

Lemma dyadic_one_pos (e : Z) : (0 < dyadic 1 e)%Q.
Proof.
  unfold dyadic. pose proof (pow2_pos e). change (inject_Z 1) with 1%Q. lra.
Qed.

Lemma bracket_bounds (m e : Z) (l : location) (x : Q) :
  bracket m e l x -> (dyadic m e <= x < dyadic (m + 1) e)%Q.
Proof.
  pose proof (dyadic_one_pos e) as H1.
  pose proof (dyadic_plus m 1 e) as E1.
  pose proof (dyadic_plus (2 * m) 1 e) as E2.
  pose proof (dyadic_mult 2 m e) as E3. change (inject_Z 2) with 2%Q in E3.
  destruct l as [|[]]; cbn [bracket]; intros H; lra.
Qed.

Lemma loc_of_rec_of_loc (m : Z) (l : location) :
  loc_of_shr_record (shr_record_of_loc m l) = l
  /\ shr_m (shr_record_of_loc m l) = m.
Proof. destruct l as [|[]]; split; reflexivity. Qed.

Ltac dyadic_linear :=
  unfold dyadic in *;
  repeat (rewrite inject_Z_plus in * || rewrite inject_Z_mult in *);
  change (inject_Z 0) with 0%Q in *;
  change (inject_Z 1) with 1%Q in *;
  change (inject_Z 2) with 2%Q in *.

Lemma shr_1_bracket (mrs : shr_record) (e : Z) (x : Q) :
  0 <= shr_m mrs -> bracket (shr_m mrs) e (loc_of_shr_record mrs) x ->
  0 <= shr_m (shr_1 mrs)
  /\ bracket (shr_m (shr_1 mrs)) (e + 1) (loc_of_shr_record (shr_1 mrs)) x.
Proof.
  destruct mrs as [m r s]. cbn [shr_m]. intros Hm H.
  pose proof (pow2_pos e) as HP. pose proof (pow2_succ e) as HS.
  destruct m as [|[p|p|]|]; try lia; cbn [shr_1 shr_m]; (split; [lia |]).
  - destruct r, s; cbn [bracket loc_of_shr_record orb] in *;
      dyadic_linear; rewrite ?HS; lra.
  - replace (Z.pos p~1) with (2 * Z.pos p + 1) in H by lia.
    destruct r, s; cbn [bracket loc_of_shr_record orb] in *;
      dyadic_linear; rewrite ?HS; lra.
  - replace (Z.pos p~0) with (2 * Z.pos p) in H by lia.
    destruct r, s; cbn [bracket loc_of_shr_record orb] in *;
      dyadic_linear; rewrite ?HS; lra.
  - destruct r, s; cbn [bracket loc_of_shr_record orb] in *;
      dyadic_linear; rewrite ?HS; lra.
Qed.

Lemma iter_shr_1_bracket (p : positive) :
  forall (mrs : shr_record) (e : Z) (x : Q),
    0 <= shr_m mrs -> bracket (shr_m mrs) e (loc_of_shr_record mrs) x ->
    0 <= shr_m (SpecFloat.iter_pos shr_1 p mrs)
    /\ bracket (shr_m (SpecFloat.iter_pos shr_1 p mrs)) (e + Z.pos p)
               (loc_of_shr_record (SpecFloat.iter_pos shr_1 p mrs)) x.
Proof.
  induction p as [p IH | p IH |]; intros mrs e x Hm Hb;
    cbn [SpecFloat.iter_pos].
  - destruct (shr_1_bracket mrs e x Hm Hb) as [H1 H2].
    destruct (IH _ _ _ H1 H2) as [H3 H4].
    destruct (IH _ _ _ H3 H4) as [H5 H6].
    split; [exact H5 |].
    replace (e + Z.pos p~1) with (e + 1 + Z.pos p + Z.pos p) by lia. exact H6.
  - destruct (IH _ _ _ Hm Hb) as [H3 H4].
    destruct (IH _ _ _ H3 H4) as [H5 H6].
    split; [exact H5 |].
    replace (e + Z.pos p~0) with (e + Z.pos p + Z.pos p) by lia. exact H6.
  - now apply shr_1_bracket.
Qed.

Lemma shr_fexp_bracket (m e : Z) (l : location) (x : Q) :
  0 <= m -> bracket m e l x ->
  let '(mrs', e') := shr_fexp prec emax m e l in
  0 <= shr_m mrs'
  /\ bracket (shr_m mrs') e' (loc_of_shr_record mrs') x
  /\ e' = Z.max e (fexp prec emax (Zdigits2 m + e)).
Proof.
  intros Hm Hb. unfold shr_fexp, shr.
  destruct (loc_of_rec_of_loc m l) as [Hl Hsm].
  destruct (fexp prec emax (Zdigits2 m + e) - e) as [| p | p] eqn:E.
  - rewrite Hsm, Hl. repeat split; try assumption. lia.
  - destruct (iter_shr_1_bracket p (shr_record_of_loc m l) e x) as [H1 H2].
    + now rewrite Hsm.
    + now rewrite Hsm, Hl.
    + split; [exact H1 |]. rewrite <- E. split.
      * replace (e + (fexp prec emax (Zdigits2 m + e) - e))
          with (e + Z.pos p) by lia. exact H2.
      * lia.
  - rewrite Hsm, Hl. repeat split; try assumption. lia.
Qed.

(** Rounding to nearest moves by at most half a unit. *)
Lemma round_nearest_even_bracket (m e : Z) (l : location) (x : Q) :
  bracket m e l x ->
  (round_nearest_even m l = m \/ round_nearest_even m l = m + 1)
  /\ (dyadic (2 * round_nearest_even m l) e - 2 * x <= pow2 e)%Q
  /\ (2 * x - dyadic (2 * round_nearest_even m l) e <= pow2 e)%Q.
Proof.
  intros H. pose proof (pow2_pos e) as HP.
  destruct l as [|[]]; cbn [bracket round_nearest_even] in *.
  - split; [now left |]. dyadic_linear. lra.
  - destruct (Z.even m); (split; [auto |]); dyadic_linear; lra.
  - split; [now left |]. dyadic_linear. lra.
  - split; [now right |]. dyadic_linear. lra.
Qed.

Lemma Zdigits2_unique (m k : Z) :
  2 ^ (k - 1) <= m < 2 ^ k -> 0 < k -> Zdigits2 m = k.
Proof.
  intros [Hlo Hhi] Hk.
  assert (Hm : 0 < m).
  { assert (0 < 2 ^ (k - 1)) by (apply Z.pow_pos_nonneg; lia). lia. }
  pose proof (Zdigits2_pos_bounds m Hm) as [Dlo Dhi].
  assert (Hd : 1 <= Zdigits2 m) by (destruct m; simpl; lia).
  destruct (Z.lt_trichotomy (Zdigits2 m) k) as [L | [E | G]]; [| exact E |].
  - assert (2 ^ Zdigits2 m <= 2 ^ (k - 1)) by (apply Z.pow_le_mono_r; lia). lia.
  - assert (2 ^ k <= 2 ^ (Zdigits2 m - 1)) by (apply Z.pow_le_mono_r; lia). lia.
Qed.

Lemma dyadic_pow2 (k e : Z) : 0 <= k -> (dyadic (2 ^ k) e == pow2 (e + k))%Q.
Proof.
  intros H. unfold dyadic. rewrite <- pow2_Z by exact H.
  rewrite pow2_add. ring.
Qed.

(** Rounding a mantissa of at least 53 bits, in the normal range: the
    result is a normal Number at most half a unit of its last place from
    the value rounded. *)
Lemma binary_round_aux_nearest (sx : bool) (mx ex : Z) (lx : location)
      (x : Q) :
  2 ^ 52 <= mx -> bracket mx ex lx x ->
  -1074 <= Zdigits2 mx + ex - 53 < 971 ->
  exists m e,
    binary_round_aux prec emax sx mx ex lx = S754_finite sx m e
    /\ 2 ^ 52 <= Z.pos m < 2 ^ 53
    /\ Zdigits2 mx + ex - 53 <= e <= Zdigits2 mx + ex - 52
    /\ (pow2 (Zdigits2 mx + ex - 1) <= x)%Q
    /\ (dyadic (2 * Z.pos m) e - 2 * x <= pow2 (Zdigits2 mx + ex - 53))%Q
    /\ (2 * x - dyadic (2 * Z.pos m) e <= pow2 (Zdigits2 mx + ex - 53))%Q.
Proof.
  intros Hmx Hb Hr.
  assert (Hpos : 0 < mx) by lia.
  pose proof (Zdigits2_pos_bounds mx Hpos) as [Dlo Dhi].
  set (d := Zdigits2 mx) in *. set (e1 := d + ex - 53) in *.
  assert (Hd : 53 <= d).
  { destruct (Z.le_gt_cases 53 d) as [L | G]; [exact L | exfalso].
    assert (2 ^ d <= 2 ^ 52) by (apply Z.pow_le_mono_r; lia). lia. }
  assert (Ef : fexp prec emax (d + ex) = e1)
    by (unfold fexp, emin, prec, emax; lia).
  apply bracket_bounds in Hb as Bx.
  assert (Mlo : (pow2 (e1 + 52) <= x)%Q).
  { replace (e1 + 52) with (ex + (d - 1)) by (unfold e1; lia).
    apply Qle_trans with (dyadic (2 ^ (d - 1)) ex).
    - rewrite dyadic_pow2 by lia. apply Qle_refl.
    - apply Qle_trans with (dyadic mx ex); [now apply dyadic_le | apply Bx]. }
  assert (Mhi : (x < pow2 (e1 + 53))%Q).
  { replace (e1 + 53) with (ex + d) by (unfold e1; lia).
    apply Qlt_le_trans with (dyadic (mx + 1) ex); [apply Bx |].
    apply Qle_trans with (dyadic (2 ^ d) ex).
    - apply dyadic_le. lia.
    - rewrite dyadic_pow2 by lia. apply Qle_refl. }
  unfold binary_round_aux.
  pose proof (shr_fexp_bracket mx ex lx x (Z.lt_le_incl _ _ Hpos) Hb) as S1.
  destruct (shr_fexp prec emax mx ex lx) as [mrs' e'].
  destruct S1 as [Hm' [Hb' He']].
  fold d in He'. rewrite Ef in He'.
  assert (Ee : e' = e1) by (unfold e1 in *; lia).
  clear He'. subst e'.
  apply bracket_bounds in Hb' as B'.
  assert (R' : 2 ^ 52 <= shr_m mrs' < 2 ^ 53).
  { split.
    - assert (2 ^ 52 < shr_m mrs' + 1); [| lia].
      apply (dyadic_lt_inv _ _ e1). rewrite dyadic_pow2 by lia.
      apply Qle_lt_trans with x; [exact Mlo | apply B'].
    - apply (dyadic_lt_inv _ _ e1). rewrite (dyadic_pow2 53) by lia.
      apply Qle_lt_trans with x; [apply B' | exact Mhi]. }
  destruct (round_nearest_even_bracket _ _ _ _ Hb') as [Hc [E1 E2]].
  set (m'' := round_nearest_even (shr_m mrs') (loc_of_shr_record mrs')) in *.
  assert (R'' : 2 ^ 52 <= m'' <= 2 ^ 53) by lia.
  destruct (Z.eq_dec m'' (2 ^ 53)) as [Etop | Ntop].
  - (* the carry: one more shift, exact *)
    rewrite Etop in *. unfold shr_fexp.
    change (Zdigits2 (2 ^ 53)) with 54.
    replace (fexp prec emax (54 + e1) - e1) with 1
      by (unfold fexp, emin, prec, emax; lia).
    cbn. destruct (Z.leb_spec (e1 + 1) 971) as [_ | C]; [| lia].
    exists 4503599627370496%positive, (e1 + 1).
    split; [reflexivity |]. split; [lia |]. split; [unfold e1; lia |].
    split; [now replace (d + ex - 1) with (e1 + 52) by (unfold e1; lia) |].
    assert (Ev : (dyadic (2 * 4503599627370496) (e1 + 1)
                  == dyadic (2 * 2 ^ 53) e1)%Q).
    { rewrite dyadic_succ. dyadic_linear.
      change (inject_Z 4503599627370496) with (4503599627370496 # 1)%Q.
      change (inject_Z (2 ^ 53)) with (9007199254740992 # 1)%Q. ring. }
    rewrite Ev. split; assumption.
  - assert (Dm : Zdigits2 m'' = 53) by (apply Zdigits2_unique; lia).
    unfold shr_fexp. rewrite Dm.
    replace (fexp prec emax (53 + e1) - e1) with 0
      by (unfold fexp, emin, prec, emax; lia).
    cbn [shr shr_record_of_loc shr_m].
    destruct m'' as [| m | m] eqn:Em; try lia.
    destruct (Z.leb_spec e1 (emax - prec)) as [_ | C];
      [| unfold emax, prec in C; lia].
    exists m, e1. split; [reflexivity |]. split; [lia |].
    split; [unfold e1; lia |].
    split; [now replace (d + ex - 1) with (e1 + 52) by (unfold e1; lia) |].
    split; assumption.
Qed.

(** The relative form: the result is within [2^-53] of the value. *)
Lemma binary_round_aux_relative (sx : bool) (mx ex : Z) (lx : location)
      (x : Q) :
  2 ^ 52 <= mx -> bracket mx ex lx x ->
  -1074 <= Zdigits2 mx + ex - 53 < 971 ->
  exists m e,
    binary_round_aux prec emax sx mx ex lx = S754_finite sx m e
    /\ 2 ^ 52 <= Z.pos m < 2 ^ 53
    /\ Zdigits2 mx + ex - 53 <= e <= Zdigits2 mx + ex - 52
    /\ (2 * dyadic (Z.pos m) e - 2 * x <= x * pow2 (-52))%Q
    /\ (2 * x - 2 * dyadic (Z.pos m) e <= x * pow2 (-52))%Q.
Proof.
  intros Hmx Hb Hr.
  destruct (binary_round_aux_nearest sx mx ex lx x Hmx Hb Hr)
    as [m [e [E [Rm [Re [Mx [E1 E2]]]]]]].
  exists m, e. split; [exact E |]. split; [exact Rm |]. split; [exact Re |].
  assert (P : (pow2 (Zdigits2 mx + ex - 53)
               == pow2 (Zdigits2 mx + ex - 1) * pow2 (-52))%Q).
  { rewrite <- pow2_add. now replace (Zdigits2 mx + ex - 1 + -52)
      with (Zdigits2 mx + ex - 53) by lia. }
  assert (U : (0 < pow2 (-52))%Q) by apply pow2_pos.
  assert (B : (pow2 (Zdigits2 mx + ex - 53) <= x * pow2 (-52))%Q).
  { rewrite P. apply Qmult_le_compat_r; [exact Mx | now apply Qlt_le_weak]. }
  pose proof (dyadic_mult 2 (Z.pos m) e) as D.
  change (inject_Z 2) with 2%Q in D. rewrite D in E1, E2.
  split; lra.
Qed.

Lemma Zdigits2_range (m a : Z) :
  0 < a -> 2 ^ (a - 1) <= m < 2 ^ (a + 1) -> a <= Zdigits2 m <= a + 1.
Proof.
  intros Ha [Hlo Hhi].
  destruct (Z.lt_ge_cases m (2 ^ a)) as [L | G].
  - rewrite (Zdigits2_unique m a); lia.
  - rewrite (Zdigits2_unique m (a + 1)); try lia.
    now replace (a + 1 - 1) with a by lia.
Qed.

(** The remainder of the integer division places the quotient. *)
Lemma new_location_bracket (q r n e : Z) :
  0 < n -> 0 <= r < n ->
  bracket q e (new_location n r)
          (dyadic q e + inject_Z r / inject_Z n * pow2 e)%Q.
Proof.
  intros Hn Hr.
  set (N := inject_Z n). set (R := inject_Z r).
  assert (HN : (0 < N)%Q) by (apply inject_Z_pos; lia).
  pose proof (pow2_pos e) as HP.
  set (t := (R / N * pow2 e)%Q).
  assert (T0 : r = 0 -> (t == 0)%Q).
  { intros ->. unfold t, R. change (inject_Z 0) with 0%Q.
    unfold Qdiv. ring. }
  assert (Tlt : forall a b : Z, a * r < b * n ->
                  (inject_Z a * t < inject_Z b * pow2 e)%Q).
  { intros a b H. unfold t.
    setoid_replace (inject_Z a * (R / N * pow2 e))%Q
      with (inject_Z a * R / N * pow2 e)%Q by (unfold Qdiv; ring).
    apply Qmult_lt_compat_r; [exact HP |].
    apply Qlt_shift_div_r; [exact HN |].
    unfold R, N. rewrite <- !inject_Z_mult. now rewrite <- Zlt_Qlt. }
  assert (Tgt : forall a b : Z, b * n < a * r ->
                  (inject_Z b * pow2 e < inject_Z a * t)%Q).
  { intros a b H. unfold t.
    setoid_replace (inject_Z a * (R / N * pow2 e))%Q
      with (inject_Z a * R / N * pow2 e)%Q by (unfold Qdiv; ring).
    apply Qmult_lt_compat_r; [exact HP |].
    apply Qlt_shift_div_l; [exact HN |].
    unfold R, N. rewrite <- !inject_Z_mult. now rewrite <- Zlt_Qlt. }
  assert (Teq : 2 * r = n -> (2 * t == pow2 e)%Q).
  { intros H. unfold t.
    setoid_replace (2 * (R / N * pow2 e))%Q
      with (2 * R / N * pow2 e)%Q by (unfold Qdiv; ring).
    assert (E : (2 * R == N)%Q).
    { unfold R, N. rewrite <- H, inject_Z_mult. reflexivity. }
    rewrite E. field. intros C. rewrite C in HN. lra. }
  pose proof (Tlt 1 1) as L11. pose proof (Tlt 2 1) as L21.
  pose proof (Tgt 1 0) as G10. pose proof (Tgt 2 1) as G21.
  change (inject_Z 1) with 1%Q in *. change (inject_Z 2) with 2%Q in *.
  change (inject_Z 0) with 0%Q in *.
  unfold new_location, new_location_even, new_location_odd.
  destruct (Z.even n) eqn:Ev; destruct (Z.eqb_spec r 0) as [Z0 | NZ].
  - cbn [bracket]. rewrite (T0 Z0). ring.
  - destruct (Z.compare_spec (2 * r) n) as [C | C | C];
      cbn [bracket]; dyadic_linear; fold N R t.
    + specialize (Teq C). lra.
    + specialize (L21 ltac:(lia)). specialize (G10 ltac:(lia)). lra.
    + specialize (G21 ltac:(lia)). specialize (L11 ltac:(lia)). lra.
  - cbn [bracket]. rewrite (T0 Z0). ring.
  - assert (Odd : 2 * r <> n).
    { intros C. rewrite <- C, Z.even_mul in Ev. discriminate. }
    destruct (Z.compare_spec (2 * r + 1) n) as [C | C | C];
      cbn [bracket]; dyadic_linear; fold N R t.
    + specialize (L21 ltac:(lia)). specialize (G10 ltac:(lia)). lra.
    + specialize (L21 ltac:(lia)). specialize (G10 ltac:(lia)). lra.
    + specialize (G21 ltac:(lia)). specialize (L11 ltac:(lia)). lra.
Qed.

(** *** The quotient, the product and [Math.round] *)

Lemma canonical_range (m : positive) :
  Z.pos (digits2_pos m) = 53 -> 2 ^ 52 <= Z.pos m < 2 ^ 53.
Proof.
  intros D. pose proof (digits2_pos_bounds m) as H. rewrite D in H.
  exact H.
Qed.

Lemma Zdigits2_canonical (m : positive) :
  2 ^ 52 <= Z.pos m < 2 ^ 53 -> Zdigits2 (Z.pos m) = 53.
Proof. intros H. apply Zdigits2_unique; [exact H | lia]. Qed.

(** The quotient of two normal Numbers is within [2^-53] of the exact
    quotient [x]. *)
Lemma div_relative (mv mn : positive) (ev en : Z) (x : Q) :
  2 ^ 52 <= Z.pos mv < 2 ^ 53 -> 2 ^ 52 <= Z.pos mn < 2 ^ 53 ->
  -52 <= ev <= 0 -> -52 <= en <= 0 ->
  (x * dyadic (Z.pos mn) en == dyadic (Z.pos mv) ev)%Q ->
  exists m e,
    div (S754_finite false mv ev) (S754_finite false mn en)
    = S754_finite false m e
    /\ 2 ^ 52 <= Z.pos m < 2 ^ 53
    /\ -105 <= e <= 1
    /\ (2 * dyadic (Z.pos m) e - 2 * x <= x * pow2 (-52))%Q
    /\ (2 * x - 2 * dyadic (Z.pos m) e <= x * pow2 (-52))%Q.
Proof.
  intros Rv Rn Hev Hen Hx.
  unfold div, SFdiv, SFdiv_core_binary.
  rewrite !Zdigits2_canonical by assumption.
  replace (Z.min (fexp prec emax (53 + ev - (53 + en))) (ev - en))
    with (ev - en - 53) by (unfold fexp, emin, prec, emax; lia).
  replace (ev - en - (ev - en - 53)) with 53 by lia.
  cbv iota beta. rewrite Z.shiftl_mul_pow2 by lia.
  pose proof (Z_div_mod (Z.pos mv * 2 ^ 53) (Z.pos mn) eq_refl) as D.
  destruct (Z.div_eucl (Z.pos mv * 2 ^ 53) (Z.pos mn)) as [q r].
  destruct D as [D1 D2]. cbn [xorb].
  assert (P53 : 2 ^ 53 = 9007199254740992) by reflexivity.
  assert (P52 : 2 ^ 52 = 4503599627370496) by reflexivity.
  assert (P54 : 2 ^ 54 = 18014398509481984) by reflexivity.
  assert (Rq : 2 ^ 52 <= q < 2 ^ 54).
  { rewrite P52, P53, P54 in *. split; nia. }
  assert (Dq : 53 <= Zdigits2 q <= 54).
  { apply (Zdigits2_range q 53); [lia | exact Rq]. }
  set (e' := ev - en - 53).
  set (x0 := (dyadic q e' + inject_Z r / inject_Z (Z.pos mn) * pow2 e')%Q).
  assert (Hb : bracket q e' (new_location (Z.pos mn) r) x0)
    by (apply new_location_bracket; lia).
  assert (Ex : (x == x0)%Q).
  { assert (NZ : ~ (dyadic (Z.pos mn) en == 0)%Q).
    { intros C. pose proof (pow2_pos en) as HP.
      assert (0 < dyadic (Z.pos mn) en)%Q.
      { unfold dyadic. apply Qmult_lt_0_compat; [| exact HP].
        apply inject_Z_pos. lia. }
      lra. }
    apply (Qmult_inj_r _ _ _ NZ). rewrite Hx.
    unfold x0, dyadic.
    assert (Em : (inject_Z (Z.pos mv) * pow2 53
                  == inject_Z (Z.pos mn) * inject_Z q + inject_Z r)%Q).
    { rewrite pow2_Z by lia.
      rewrite <- !inject_Z_mult, <- inject_Z_plus. now rewrite D1. }
    assert (Ep : (pow2 ev == pow2 53 * pow2 e' * pow2 en)%Q).
    { rewrite <- !pow2_add. unfold e'.
      now replace (53 + (ev - en - 53) + en) with ev by lia. }
    rewrite Ep.
    setoid_replace (inject_Z (Z.pos mv) * (pow2 53 * pow2 e' * pow2 en))%Q
      with ((inject_Z (Z.pos mv) * pow2 53) * (pow2 e' * pow2 en))%Q by ring.
    rewrite Em. field.
    intros C. assert (0 < inject_Z (Z.pos mn))%Q by (apply inject_Z_pos; lia).
    lra. }
  destruct (binary_round_aux_relative false q e' _ x0 (proj1 Rq) Hb)
    as [m [e [E [Rm [Re [E1 E2]]]]]].
  { unfold e'. lia. }
  exists m, e. split; [exact E |]. split; [exact Rm |].
  split; [unfold e' in Re; lia |].
  rewrite Ex. split; assumption.
Qed.

(** A normal Number times 100 is within [2^-53] of the exact product. *)
Lemma mul_100_relative (m : positive) (e : Z) :
  2 ^ 52 <= Z.pos m < 2 ^ 53 -> -200 <= e <= 200 ->
  exists m' e',
    mul (S754_finite false m e) (of_nat 100) = S754_finite false m' e'
    /\ (2 * dyadic (Z.pos m') e' - 200 * dyadic (Z.pos m) e
        <= 100 * dyadic (Z.pos m) e * pow2 (-52))%Q
    /\ (200 * dyadic (Z.pos m) e - 2 * dyadic (Z.pos m') e'
        <= 100 * dyadic (Z.pos m) e * pow2 (-52))%Q.
Proof.
  intros Rm Re. rewrite of_nat_100. unfold mul, SFmul. cbn [xorb].
  assert (P53 : 2 ^ 53 = 9007199254740992) by reflexivity.
  assert (P52 : 2 ^ 52 = 4503599627370496) by reflexivity.
  assert (Rp : 2 ^ (105 - 1) <= Z.pos (m * 7036874417766400) < 2 ^ (105 + 1)).
  { rewrite Pos2Z.inj_mul.
    change (2 ^ (105 - 1)) with 20282409603651670423947251286016.
    change (2 ^ (105 + 1)) with 81129638414606681695789005144064.
    rewrite P52, P53 in Rm. lia. }
  assert (Dp : 105 <= Zdigits2 (Z.pos (m * 7036874417766400)) <= 106)
    by (apply Zdigits2_range; [lia | exact Rp]).
  set (x0 := dyadic (Z.pos (m * 7036874417766400)) (e + -46)).
  assert (Hb : bracket (Z.pos (m * 7036874417766400)) (e + -46) loc_Exact x0)
    by (cbn [bracket]; reflexivity).
  assert (Ex : (x0 == 100 * dyadic (Z.pos m) e)%Q).
  { unfold x0, dyadic. rewrite Pos2Z.inj_mul, inject_Z_mult, pow2_add.
    assert (E2 : (inject_Z 7036874417766400 * pow2 (-46) == 100)%Q)
      by reflexivity.
    setoid_replace (inject_Z (Z.pos m) * inject_Z 7036874417766400
                    * (pow2 e * pow2 (-46)))%Q
      with (inject_Z (Z.pos m) * pow2 e
            * (inject_Z 7036874417766400 * pow2 (-46)))%Q by ring.
    rewrite E2. ring. }
  destruct (binary_round_aux_relative
              false (Z.pos (m * 7036874417766400)) (e + -46) loc_Exact x0)
    as [m' [e' [E [_ [_ [E1 E2]]]]]].
  - assert (0 < 2 ^ 52) by reflexivity.
    change (2 ^ (105 - 1)) with 20282409603651670423947251286016 in Rp.
    rewrite P52. lia.
  - exact Hb.
  - lia.
  - exists m', e'. split; [exact E |]. rewrite Ex in E1, E2. split; lra.
Qed.

(** [round_half_up] is the floor of the value plus one half. *)
Lemma round_half_up_floor (m : positive) (e : Z) :
  (inject_Z (round_half_up false m e) <= dyadic (Z.pos m) e + (1 # 2))%Q
  /\ (dyadic (Z.pos m) e + (1 # 2) < inject_Z (round_half_up false m e) + 1)%Q.
Proof.
  unfold round_half_up. destruct e as [| p | p].
  - assert (E : (dyadic (Z.pos m) 0 == inject_Z (Z.pos m * 2 ^ 0))%Q).
    { unfold dyadic. rewrite inject_Z_mult, <- pow2_Z by lia. reflexivity. }
    rewrite E. split; lra.
  - assert (E : (dyadic (Z.pos m) (Z.pos p)
                 == inject_Z (Z.pos m * 2 ^ Z.pos p))%Q).
    { unfold dyadic. rewrite inject_Z_mult, <- pow2_Z by lia. reflexivity. }
    rewrite E. split; lra.
  - rewrite !Pos2Z.inj_pow.
    replace (Z.pos (p + 1)) with (Z.pos p + 1) by lia.
    rewrite Z.pow_add_r by lia. change (2 ^ 1) with 2.
    set (B := 2 ^ Z.pos p).
    assert (HB : 0 < B) by (apply Z.pow_pos_nonneg; lia).
    pose proof (Z_div_mod (2 * Z.pos m + B) (B * 2) ltac:(lia)) as D.
    unfold Z.div.
    destruct (Z.div_eucl (2 * Z.pos m + B) (B * 2)) as [k r].
    destruct D as [D1 D2]. cbn [fst].
    assert (EB : (pow2 (Z.neg p) * inject_Z B == 1)%Q).
    { unfold B. rewrite <- pow2_Z by lia. rewrite <- pow2_add.
      now replace (Z.neg p + Z.pos p) with 0 by lia. }
    assert (HBq : (0 < inject_Z B)%Q) by now apply inject_Z_pos.
    set (y := dyadic (Z.pos m) (Z.neg p)).
    assert (Ey : (y * inject_Z B == inject_Z (Z.pos m))%Q).
    { unfold y, dyadic. rewrite <- Qmult_assoc, EB. ring. }
    assert (Eq1 : (2 * (y * inject_Z B) + inject_Z B
                   == inject_Z B * 2 * inject_Z k + inject_Z r)%Q).
    { rewrite Ey. change 2%Q with (inject_Z 2).
      rewrite <- !inject_Z_mult, <- !inject_Z_plus. now rewrite D1. }
    assert (Hr1 : (0 <= inject_Z r)%Q) by (apply inject_Z_nonneg; lia).
    assert (Hr2 : (inject_Z r < inject_Z B * 2)%Q).
    { change 2%Q with (inject_Z 2). rewrite <- inject_Z_mult.
      rewrite <- Zlt_Qlt. lia. }
    split.
    + apply (Qmult_le_r _ _ (inject_Z B * 2)); [lra |].
      setoid_replace ((y + (1 # 2)) * (inject_Z B * 2))%Q
        with (2 * (y * inject_Z B) + inject_Z B)%Q by ring.
      rewrite Eq1. lra.
    + apply (Qmult_lt_r _ _ (inject_Z B * 2)); [lra |].
      setoid_replace ((y + (1 # 2)) * (inject_Z B * 2))%Q
        with (2 * (y * inject_Z B) + inject_Z B)%Q by ring.
      rewrite Eq1. lra.
Qed.

(** The computed percentage is an integer nearest to the exact share:
    [|k - 100 v / n| <= 1/2]. *)
Lemma percentage_nearest (v n : nat) :
  (v <= n)%nat -> (0 < n)%nat -> Z.of_nat n < 2 ^ 32 ->
  exists k,
    percentage v n = of_Z k
    /\ - Z.of_nat n <= 2 * (k * Z.of_nat n - 100 * Z.of_nat v) <= Z.of_nat n.
Proof.
  intros Hvn Hn Hb. unfold percentage, of_nat at 1 2.
  assert (Hb53 : Z.of_nat n < 2 ^ 53).
  { assert (2 ^ 32 < 2 ^ 53) by reflexivity. lia. }
  destruct (Z.of_nat n) as [| pn | pn] eqn:En; try lia.
  destruct (of_Z_pos pn Hb53) as [mn [en [Rn [Dn [_ [Vn Ren]]]]]].
  rewrite Rn.
  destruct (Z.of_nat v) as [| pv | pv] eqn:Ev; try lia.
  - exists 0. split; [rewrite of_nat_100; reflexivity | lia].
  - assert (Hpv : Z.pos pv <= Z.pos pn) by lia.
    assert (Hbv : Z.pos pv < 2 ^ 53) by lia.
    destruct (of_Z_pos pv Hbv) as [mv [ev [Rv [Dv [_ [Vv Rev]]]]]].
    rewrite Rv.
    assert (Fv : (dyadic (Z.pos mv) ev == inject_Z (Z.pos pv))%Q)
      by (apply dyadic_exact; lia).
    assert (Fn : (dyadic (Z.pos mn) en == inject_Z (Z.pos pn))%Q)
      by (apply dyadic_exact; lia).
    set (V := inject_Z (Z.pos pv)) in *. set (N := inject_Z (Z.pos pn)) in *.
    assert (HN : (0 < N)%Q) by (apply inject_Z_pos; lia).
    assert (HV : (0 < V)%Q) by (apply inject_Z_pos; lia).
    assert (HVN : (V <= N)%Q) by (unfold V, N; now rewrite <- Zle_Qle).
    assert (HN32 : (N < 4294967296)%Q).
    { unfold N. change 4294967296%Q with (inject_Z (2 ^ 32)).
      now rewrite <- Zlt_Qlt. }
    set (x := (V / N)%Q).
    assert (ExN : (x * N == V)%Q).
    { unfold x. field. intros C. rewrite C in HN. lra. }
    assert (Hx0 : (0 < x)%Q).
    { unfold x. apply Qlt_shift_div_l; [exact HN | lra]. }
    assert (Hx1 : (x <= 1)%Q).
    { unfold x. apply Qle_shift_div_r; [exact HN | lra]. }
    destruct (div_relative mv mn ev en x) as [m1 [e1 [R1 [Rm1 [Re1 [A1 A2]]]]]];
      try (apply canonical_range; assumption); try lia.
    { now rewrite Fn, Fv. }
    rewrite R1.
    destruct (mul_100_relative m1 e1 Rm1) as [m2 [e2 [R2 [B1 B2]]]]; [lia |].
    rewrite R2.
    exists (round_half_up false m2 e2). split; [reflexivity |].
    destruct (round_half_up_floor m2 e2) as [C1 C2].
    set (k := round_half_up false m2 e2) in *.
    set (y1 := dyadic (Z.pos m1) e1) in *.
    set (y2 := dyadic (Z.pos m2) e2) in *.
    change (pow2 (-52)) with (1 # 4503599627370496)%Q in *.
    set (K := inject_Z k) in *.
    assert (U : (K - 100 * x - (1 # 2) <= 1 # 35184372088832)%Q) by lra.
    assert (L : (- (1 # 35184372088832) < K - 100 * x + (1 # 2))%Q) by lra.
    assert (UN : ((K - 100 * x - (1 # 2)) * N
                  <= (1 # 35184372088832) * N)%Q)
      by (apply Qmult_le_compat_r; [exact U | lra]).
    assert (LN : (- (1 # 35184372088832) * N
                  < (K - 100 * x + (1 # 2)) * N)%Q)
      by (apply Qmult_lt_compat_r; [exact HN | exact L]).
    setoid_replace ((K - 100 * x - (1 # 2)) * N)%Q
      with (K * N - 100 * (x * N) - (1 # 2) * N)%Q in UN by ring.
    setoid_replace ((K - 100 * x + (1 # 2)) * N)%Q
      with (K * N - 100 * (x * N) + (1 # 2) * N)%Q in LN by ring.
    rewrite ExN in UN, LN.
    assert (UZ : (inject_Z (2 * (k * Z.pos pn - 100 * Z.pos pv) - Z.pos pn)
                  < inject_Z 1)%Q).
    { rewrite <- Z.add_opp_r, inject_Z_plus, inject_Z_opp.
      rewrite inject_Z_mult, <- Z.add_opp_r, inject_Z_plus, inject_Z_opp.
      rewrite !inject_Z_mult. fold K V N.
      change (inject_Z 2) with 2%Q. change (inject_Z 100) with 100%Q.
      change (inject_Z 1) with 1%Q. lra. }
    assert (LZ : (inject_Z (- 1)
                  < inject_Z (2 * (k * Z.pos pn - 100 * Z.pos pv)
                              + Z.pos pn))%Q).
    { rewrite inject_Z_plus.
      rewrite inject_Z_mult, <- Z.add_opp_r, inject_Z_plus, inject_Z_opp.
      rewrite !inject_Z_mult. fold K V N.
      change (inject_Z 2) with 2%Q. change (inject_Z 100) with 100%Q.
      change (inject_Z (-1)) with (-1)%Q. lra. }
    rewrite <- Zlt_Qlt in UZ, LZ. lia.
Qed.

(** A nearest integer to a share of at most 100 is between 0 and 100. *)
Lemma nearest_in_range (k v n : Z) :
  0 <= v <= n -> 0 < n ->
  - n <= 2 * (k * n - 100 * v) <= n -> 0 <= k <= 100.
Proof. intros Hv Hn H. split; nia. Qed.

End JsNumberFacts.

(** ** JobTable: the share of valid links *)

Module PercentageFacts.
Import JsString JobTable Spec JsNumberFacts AnalyticsFacts.

(** A link counts when it is present, not empty and not the sentinel. *)
Lemma hasValidLink_spec (job : Job) :
  hasValidLink job = true <->
  exists l, Link job = Some l /\ l <> "" /\ l <> "N/A".
Proof.
  unfold hasValidLink. destruct (Link job) as [l |]; simpl.
  - rewrite andb_true_iff, negb_true_iff, String.eqb_neq. split.
    + intros [T N]. exists l. repeat split; [| exact N].
      intros ->. discriminate.
    + intros [l' [E [N1 N2]]]. injection E as <-.
      split; [| exact N2]. destruct l; [contradiction | reflexivity].
  - split; [discriminate | intros [l [E _]]; discriminate].
Qed.

Lemma filter_all {A : Type} (f : A -> bool) (l : list A) :
  forallb f l = true -> filter f l = l.
Proof.
  induction l as [|a l IH]; simpl; [reflexivity |].
  rewrite andb_true_iff. intros [Ha Hl]. now rewrite Ha, IH.
Qed.

Lemma filter_none {A : Type} (f : A -> bool) (l : list A) :
  existsb f l = false -> filter f l = [].
Proof.
  induction l as [|a l IH]; simpl; [reflexivity |].
  rewrite orb_false_iff. intros [Ha Hl]. now rewrite Ha, IH.
Qed.

(** C4 (as amended). For every non-empty job list (shorter than 2^32,
    the bound of an array length), [validLinksPercentage] is
    [Math.round((validLinks / jobs.length) * 100)] computed in binary64
    arithmetic, where [validLinks] counts the records whose link is
    present, non-empty and different from "N/A". Its value is an integer
    [k] nearest to the exact share, [|k - 100 * validLinks / N| <= 1/2];
    so it lies in the inclusive range 0..100, it is 100 when every record
    has such a link, and it is 0 when none has. *)
Theorem C4_valid_links_percentage :
  forall (job : Job) (jobs : list Job),
    let J := job :: jobs in
    let N := Z.of_nat (List.length J) in
    let validLinks := Z.of_nat (List.length (filter hasValidLink J)) in
    (N < 2 ^ 32)%Z ->
    exists s k,
      analytics (Some J) = Some s
      /\ validLinksPercentage s =
           JsNumber.Math_round
             (JsNumber.mul
                (JsNumber.div
                   (JsNumber.of_nat (List.length (filter hasValidLink J)))
                   (JsNumber.of_nat (List.length J)))
                (JsNumber.of_nat 100))
      /\ (forall j, hasValidLink j = true <->
                    exists l, Link j = Some l /\ l <> "" /\ l <> "N/A")
      /\ validLinksPercentage s = JsNumber.of_Z k
      /\ (- N <= 2 * (k * N - 100 * validLinks) <= N)%Z
      /\ (0 <= k <= 100)%Z
      /\ (forallb hasValidLink J = true -> k = 100%Z)
      /\ (existsb hasValidLink J = false -> k = 0%Z).
Proof.
  intros job jobs J N validLinks Hb. unfold J, N, validLinks in *.
  rewrite analytics_nonempty.
  assert (Hn : 0 < List.length (job :: jobs)) by (simpl; lia).
  destruct (percentage_nearest
              (List.length (filter hasValidLink (job :: jobs)))
              (List.length (job :: jobs))
              (filter_length_le _ _) Hn Hb) as [k [Ek Hk]].
  eexists. exists k. split; [reflexivity |].
  cbn [validLinksPercentage].
  split; [reflexivity |]. split; [exact hasValidLink_spec |].
  split; [exact Ek |]. split; [exact Hk |].
  pose proof (filter_length_le hasValidLink (job :: jobs)) as Hle.
  split; [| split].
  - apply (nearest_in_range
             k (Z.of_nat (List.length (filter hasValidLink (job :: jobs))))
             (Z.of_nat (List.length (job :: jobs)))); [lia | lia | exact Hk].
  - intros H. rewrite (filter_all _ _ H) in Hk.
    destruct (Z.lt_trichotomy k 100) as [L | [E | G]]; [nia | exact E | nia].
  - intros H. rewrite (filter_none _ _ H) in Hk.
    change (Z.of_nat (List.length (@nil Job))) with 0%Z in Hk.
    destruct (Z.lt_trichotomy k 0) as [L | [E | G]]; [nia | exact E | nia].
Qed.

(** C4 on the three sample records, none of which has a link. *)
Lemma C4_witness :
  option_map validLinksPercentage (analytics (Some Sample.three))
  = Some (JsNumber.of_Z 0).
Proof.
  destruct (C4_valid_links_percentage
              Sample.engineer_acme
              [Sample.untitled_acme; Sample.analyst_beta])
    as [s [k [E [_ [_ [Ek [_ [_ [_ H]]]]]]]]]; [simpl; lia |].
  fold Sample.three in E. rewrite E. simpl.
  rewrite Ek, (H eq_refl). reflexivity.
Defined.

(** C4 as stated fails for a link that is defined but empty: the one
    record has a defined link different from "N/A", and the percentage is
    0, not 100. *)
Lemma C4_empty_link_counterexample :
  let J := [{| Title := Some "Engineer"; Company := Some "Acme";
               Location := None; Link := Some "" |}] in
  (forall job, In job J -> exists l, Link job = Some l /\ l <> "N/A")
  /\ option_map validLinksPercentage (analytics (Some J))
     = Some (JsNumber.of_Z 0)
  /\ JsNumber.of_Z 0 <> JsNumber.of_Z 100.
Proof.
  cbv zeta. split; [| split].
  - intros job [<- | []]. exists "". split; [reflexivity | discriminate].
  - reflexivity.
  - discriminate.
Qed.

(** The quotient is a binary64 value: with 23 valid links out of 40 the
    exact share is 57.5, the computed product is just below it, and the
    percentage is 57; rounding the exact share half up gives 58, and so
    does the same formula with the multiplication done first. *)
Example percentage_23_of_40 :
  percentage 23 40 = JsNumber.of_Z 57
  /\ ((2 * (100 * 23) + 40) / (2 * 40) = 58)%Z
  /\ JsNumber.Math_round
       (JsNumber.div
          (JsNumber.mul (JsNumber.of_nat 100) (JsNumber.of_nat 23))
          (JsNumber.of_nat 40))
     = JsNumber.of_Z 58.
Proof. repeat split. Qed.

End PercentageFacts.

(** ** JobTable: the tables of companies and locations *)

Module TableFacts.
Import JsString JobTable Spec JsArrayFacts.

Lemma get_own_tally (table : JsObject.t Tally) (name k : string) :
  JsObject.get_own (tally table name) k =
  if String.eqb name k && negb (String.eqb name "__proto__")
  then Some match JsObject.get_own table name with
            | Some (Count n) => Count (n + 1)
            | Some NotACount => NotACount
            | None => if inherited name then NotACount else Count 1
            end
  else JsObject.get_own table k.
Proof.
  unfold tally, inherited.
  destruct (String.eqb name "__proto__") eqn:P; cbn [negb].
  - now rewrite andb_false_r.
  - rewrite andb_true_r. destruct (String.eqb_spec name k) as [<- | N].
    + apply DownloadFacts.get_own_define.
    + now apply DownloadFacts.get_own_define_other.
Qed.

Lemma occurrences_app (k : string) (l1 l2 : list string) :
  occurrences k (l1 ++ l2) = occurrences k l1 + occurrences k l2.
Proof. unfold occurrences. now rewrite filter_app, length_app. Qed.

(** One more name keeps every slot what [slotOf] says. *)
Lemma tally_slot (table : JsObject.t Tally) (seen : list string)
      (name : string) :
  (forall k, JsObject.get_own table k = slotOf k seen) ->
  forall k, JsObject.get_own (tally table name) k = slotOf k (seen ++ [name]).
Proof.
  intros H k. rewrite get_own_tally. unfold slotOf.
  rewrite occurrences_app. unfold occurrences at 2. cbn [filter].
  destruct (String.eqb_spec name k) as [<- | N]; cbn [andb].
  - rewrite String.eqb_refl. cbn [List.length].
    destruct (String.eqb name "__proto__") eqn:P; cbn [negb].
    + rewrite H. unfold slotOf. rewrite P.
      rewrite Nat.add_1_r. now destruct (occurrences name seen).
    + rewrite H. unfold slotOf. rewrite P, Nat.add_1_r.
      destruct (occurrences name seen) as [|n];
        destruct (inherited name); try reflexivity.
      now rewrite Nat.add_1_r.
  - assert (E : String.eqb k name = false)
      by (apply String.eqb_neq; congruence).
    rewrite E. cbn [List.length]. rewrite Nat.add_0_r. apply H.
Qed.

Lemma fold_tally_slot (names seen : list string) (table : JsObject.t Tally) :
  (forall k, JsObject.get_own table k = slotOf k seen) ->
  forall k, JsObject.get_own (fold_left tally names table) k
            = slotOf k (seen ++ names).
Proof.
  revert seen table. induction names as [|name names IH]; intros seen table H k.
  - now rewrite app_nil_r.
  - cbn [fold_left].
    replace (seen ++ name :: names) with ((seen ++ [name]) ++ names)
      by now rewrite <- app_assoc.
    apply IH. now apply tally_slot.
Qed.

(** The two tables are two tallies, of the company names and of the
    location names. *)
Lemma fold_countJob (jobs : list Job)
      (acc : JsObject.t Tally * JsObject.t Tally) :
  fold_left countJob jobs acc
  = (fold_left tally (map companyOf jobs) (fst acc),
     fold_left tally (map locationOf jobs) (snd acc)).
Proof.
  revert acc. induction jobs as [|job jobs IH]; intros [c l];
    [reflexivity |].
  cbn [fold_left map]. now rewrite IH.
Qed.

Lemma tables_tallies (jobs : list Job) :
  tables jobs
  = (fold_left tally (map companyOf jobs) JsObject.empty,
     fold_left tally (map locationOf jobs) JsObject.empty).
Proof. apply fold_countJob. Qed.

Lemma tallies_slot (names : list string) (k : string) :
  JsObject.get_own (fold_left tally names JsObject.empty) k = slotOf k names.
Proof. now apply (fold_tally_slot names []). Qed.

Lemma get_own_In {V : Type} (o : JsObject.t V) (k : string) :
  In k (map fst o) <-> JsObject.get_own o k <> None.
Proof.
  induction o as [|[k' v] o IH]; simpl.
  - tauto.
  - destruct (String.eqb_spec k' k) as [-> | N].
    + split; [discriminate | now left].
    + rewrite <- IH. split; [intros [E | H]; [contradiction | exact H] |].
      now right.
Qed.

Lemma get_own_unique {V : Type} (o : JsObject.t V) (k : string) (v : V) :
  NoDup (map fst o) -> In (k, v) o -> JsObject.get_own o k = Some v.
Proof.
  induction o as [|[k' v'] o IH]; simpl; [contradiction |].
  intros Hn [E | H].
  - injection E as -> ->. now rewrite String.eqb_refl.
  - apply NoDup_cons_iff in Hn as [Hk Hn].
    destruct (String.eqb_spec k' k) as [-> | N].
    + exfalso. apply Hk. apply in_map_iff. now exists (k, v).
    + now apply IH.
Qed.

Lemma define_keys {V : Type} (o : JsObject.t V) (k : string) (v : V) :
  map fst (JsObject.define o k v) =
  if in_dec string_dec k (map fst o) then map fst o else map fst o ++ [k].
Proof.
  induction o as [|[k' v'] o IH]; simpl; [reflexivity |].
  destruct (String.eqb_spec k' k) as [-> | N]; simpl.
  - destruct (string_dec k k); [| contradiction].
    reflexivity.
  - rewrite IH. destruct (string_dec k' k); [contradiction |].
    now destruct (in_dec string_dec k (map fst o)).
Qed.

Lemma define_nodup {V : Type} (o : JsObject.t V) (k : string) (v : V) :
  NoDup (map fst o) -> NoDup (map fst (JsObject.define o k v)).
Proof.
  intros H. rewrite define_keys.
  destruct (in_dec string_dec k (map fst o)) as [I | N]; [exact H |].
  apply NoDup_app; [exact H | repeat constructor; intros [] |].
  intros a Ha [<- | []]. contradiction.
Qed.

Lemma tallies_nodup (names : list string) (table : JsObject.t Tally) :
  NoDup (map fst table) -> NoDup (map fst (fold_left tally names table)).
Proof.
  revert table. induction names as [|name names IH]; intros table H;
    [exact H |].
  cbn [fold_left]. apply IH. unfold tally.
  destruct (String.eqb name "__proto__"); [exact H | now apply define_nodup].
Qed.

Lemma occurrences_In (k : string) (names : list string) :
  In k names <-> occurrences k names <> 0.
Proof.
  unfold occurrences. induction names as [|n names IH]; simpl; [tauto |].
  destruct (String.eqb_spec k n) as [-> | N]; simpl.
  - split; [discriminate | now left].
  - rewrite <- IH. split; [intros [E | H]; [congruence | exact H] |].
    now right.
Qed.

Lemma slotOf_some (k : string) (names : list string) :
  slotOf k names <> None <-> In k names /\ k <> "__proto__".
Proof.
  rewrite occurrences_In. unfold slotOf.
  destruct (occurrences k names) as [|n]; [tauto |].
  destruct (String.eqb_spec k "__proto__") as [-> | N].
  - split; [congruence | tauto].
  - destruct (inherited k); split; try discriminate; auto.
Qed.

(** The names of a table are the distinct names tallied. *)
Lemma tallies_keys (names : list string) :
  Permutation (map fst (fold_left tally names JsObject.empty))
              (distinctNames names).
Proof.
  apply NoDup_Permutation.
  - apply tallies_nodup. constructor.
  - apply NoDup_nodup.
  - intros k. rewrite get_own_In, tallies_slot, slotOf_some.
    unfold distinctNames. rewrite nodup_In, filter_In, negb_true_iff.
    now rewrite String.eqb_neq.
Qed.

Lemma tallies_length (names : list string) :
  JsObject.keys_length (fold_left tally names JsObject.empty)
  = List.length (distinctNames names).
Proof.
  unfold JsObject.keys_length.
  rewrite <- (length_map fst). apply Permutation_length, tallies_keys.
Qed.

(** *** The entries and their order *)

Lemma filter_partition_perm {A : Type} (f : A -> bool) (l : list A) :
  Permutation (filter f l ++ filter (fun x => negb (f x)) l) l.
Proof.
  induction l as [|a l IH]; simpl; [constructor |].
  destruct (f a); simpl.
  - now constructor.
  - rewrite <- Permutation_middle. now constructor.
Qed.

Lemma entries_perm {V : Type} (o : JsObject.t V) :
  Permutation (JsObject.entries o) o.
Proof.
  unfold JsObject.entries. rewrite sort_perm. apply filter_partition_perm.
Qed.

Lemma insert_ext_in {A : Type} (f g : A -> A -> Z) (x : A) (l : list A) :
  (forall y, In y l -> f x y = g x y) ->
  JsArray.insert f x l = JsArray.insert g x l.
Proof.
  induction l as [|y l IH]; intros H; simpl; [reflexivity |].
  rewrite (H y) by now left.
  rewrite IH by (intros z Hz; apply H; now right). reflexivity.
Qed.

(** Two comparators that agree on the elements sort alike. *)
Lemma sort_ext_in {A : Type} (f g : A -> A -> Z) (l : list A) :
  (forall x y, In x l -> In y l -> f x y = g x y) ->
  JsArray.sort f l = JsArray.sort g l.
Proof.
  induction l as [|x l IH]; intros H; simpl; [reflexivity |].
  rewrite IH by (intros a b Ha Hb; apply H; now right).
  apply insert_ext_in. intros y Hy. apply H; [now left |].
  right. eapply Permutation_in; [apply sort_perm | exact Hy].
Qed.

Lemma byCount_sym (a b : string * Tally) :
  Z.sgn (byCount a b) = (- Z.sgn (byCount b a))%Z.
Proof. unfold byCount. lia. Qed.

Lemma byCount_trans (a b c : string * Tally) :
  (byCount a b <= 0 -> byCount b c <= 0 -> byCount a c <= 0)%Z.
Proof. unfold byCount. lia. Qed.

Lemma sorted_app_inv {A : Type} (R : A -> A -> Prop) (l1 l2 : list A) :
  StronglySorted R (l1 ++ l2) ->
  StronglySorted R l1
  /\ forall a b, In a l1 -> In b l2 -> R a b.
Proof.
  induction l1 as [|x l1 IH]; simpl; intros H.
  - split; [constructor | intros a b []].
  - apply StronglySorted_inv in H as [H Hx].
    destruct (IH H) as [S1 S2]. split.
    + constructor; [exact S1 |].
      apply Forall_app in Hx. tauto.
    + intros a b [<- | Ha] Hb.
      * rewrite Forall_forall in Hx. apply Hx, in_or_app. now right.
      * now apply S2.
Qed.

(** The three most frequent names of a tally, when none of the names
    is inherited. *)
Lemma top3_mostFrequent (names : list string) :
  (forall name, In name names -> inherited name = false) ->
  mostFrequent names (top3 (fold_left tally names JsObject.empty)).
Proof.
  intros Hi.
  set (table := fold_left tally names JsObject.empty).
  assert (Hn : NoDup (map fst table)) by (apply tallies_nodup; constructor).
  assert (Hslot : forall e, In e table ->
            In (fst e) names
            /\ snd e = Count (occurrences (fst e) names)).
  { intros [k v] He. cbn [fst snd].
    pose proof (get_own_unique table k v Hn He) as G.
    unfold table in G. rewrite tallies_slot in G.
    assert (S : slotOf k names <> None) by congruence.
    apply slotOf_some in S as [Hk Np]. split; [exact Hk |].
    unfold slotOf in G. rewrite (Hi k Hk) in G.
    apply String.eqb_neq in Np. rewrite Np in G.
    destruct (occurrences k names); congruence. }
  assert (Hp : Permutation (JsArray.sort byCountDesc (JsObject.entries table))
                           table)
    by (rewrite sort_perm; apply entries_perm).
  assert (Hs : JsArray.sort byCountDesc (JsObject.entries table)
               = JsArray.sort byCount (JsObject.entries table)).
  { apply sort_ext_in. intros x y Hx Hy.
    apply (Permutation_in _ (entries_perm table)) in Hx, Hy.
    destruct (Hslot x Hx) as [_ Ex], (Hslot y Hy) as [_ Ey].
    unfold byCountDesc, byCount, countOf. now rewrite Ex, Ey. }
  pose proof (sort_sorted byCount byCount_sym byCount_trans
                          (JsObject.entries table)) as Hsorted.
  rewrite <- Hs in Hsorted.
  unfold top3. fold table.
  set (sorted := JsArray.sort byCountDesc (JsObject.entries table)) in *.
  rewrite <- (firstn_skipn 3 sorted) in Hsorted.
  apply sorted_app_inv in Hsorted as [S1 S2].
  assert (Hin : forall e, In e (firstn 3 sorted) -> In e table).
  { intros e He. eapply Permutation_in; [exact Hp |].
    rewrite <- (firstn_skipn 3 sorted). apply in_or_app. now left. }
  assert (Hnd : NoDup (map fst (firstn 3 sorted) ++ map fst (skipn 3 sorted))).
  { rewrite <- map_app, firstn_skipn.
    eapply Permutation_NoDup; [| exact Hn].
    symmetry. now apply Permutation_map. }
  split; [| split; [| split; [| split]]].
  - rewrite length_firstn. rewrite (Permutation_length Hp).
    rewrite <- (tallies_length names). reflexivity.
  - now apply NoDup_app_remove_r in Hnd.
  - intros e He. apply Hslot, Hin, He.
  - eapply StronglySorted_ind
      with (P := StronglySorted (fun a b => countOf b <= countOf a));
      [constructor | | exact S1].
    intros a l _ IH Ha. constructor; [exact IH |].
    eapply Forall_impl; [| exact Ha].
    intros b Hb. unfold before, byCount in Hb. lia.
  - intros name e Hname Hout He.
    assert (Hk : In name (map fst table)).
    { apply get_own_In. unfold table. rewrite tallies_slot.
      apply slotOf_some. split; [exact Hname |].
      intros ->. specialize (Hi _ Hname). discriminate. }
    apply in_map_iff in Hk as [[k v] [Ek Hkv]]. cbn [fst] in Ek. subst k.
    assert (Hsort : In (name, v) sorted)
      by (eapply Permutation_in; [symmetry; exact Hp | exact Hkv]).
    rewrite <- (firstn_skipn 3 sorted) in Hsort.
    apply in_app_or in Hsort as [Hf | Hr].
    + exfalso. apply Hout. apply in_map_iff. now exists (name, v).
    + specialize (S2 e (name, v) He Hr). unfold before, byCount in S2.
      destruct (Hslot _ Hkv) as [_ Ev]. cbn [fst snd] in Ev.
      unfold countOf in S2 at 1. cbn [snd] in S2. rewrite Ev in S2. lia.
Qed.

(** The own properties are enumerated with the array indices first. *)
Example entries_order :
  map fst (JsObject.entries
             (fold_left tally ["Zeta"; "10"; "Acme"; "7"; "007"]
                        JsObject.empty))
  = ["7"; "10"; "Zeta"; "Acme"; "007"].
Proof. reflexivity. Qed.

(** X1. After the [forEach] of [analytics], the slot of every name in the
    [companies] table (and in the [locations] table) is what [slotOf]
    says of the names counted: a name that is not inherited from
    [Object.prototype] holds the number of the records counted under it,
    and has no slot when there is none; a record whose company (or
    location) is absent or empty is counted under "Unknown". *)
Theorem analytics_tables_count_each_name :
  forall (jobs : list Job) (name : string),
    JsObject.get_own (fst (tables jobs)) name
      = slotOf name (map companyOf jobs)
    /\ JsObject.get_own (snd (tables jobs)) name
       = slotOf name (map locationOf jobs)
    /\ (inherited name = false ->
        JsObject.get_own (fst (tables jobs)) name
          = match occurrences name (map companyOf jobs) with
            | O => None
            | S n => Some (Count (S n))
            end
        /\ JsObject.get_own (snd (tables jobs)) name
           = match occurrences name (map locationOf jobs) with
             | O => None
             | S n => Some (Count (S n))
             end)
    /\ (forall job,
          companyOf job = match Company job with
                          | Some (String c s) => String c s
                          | _ => "Unknown"
                          end
          /\ locationOf job = match Location job with
                              | Some (String c s) => String c s
                              | _ => "Unknown"
                              end).
Proof.
  intros jobs name. rewrite tables_tallies. cbn [fst snd].
  rewrite !tallies_slot.
  split; [reflexivity |]. split; [reflexivity |]. split.
  - intros Hi. unfold slotOf. rewrite Hi.
    assert (P : String.eqb name "__proto__" = false).
    { destruct (String.eqb_spec name "__proto__") as [-> |];
        [discriminate | reflexivity]. }
    now rewrite P.
  - intros job. unfold companyOf, locationOf.
    destruct (Company job) as [[|] |], (Location job) as [[|] |]; now split.
Qed.

(** X1 on the sample board: three Acme listings, one listing without a
    location. *)
Lemma analytics_tables_witness :
  JsObject.get_own (fst (tables Sample.board)) "Acme" = Some (Count 3)
  /\ JsObject.get_own (snd (tables Sample.board)) "Unknown" = Some (Count 1).
Proof.
  destruct (analytics_tables_count_each_name Sample.board "Acme")
    as [_ [_ [H1 _]]].
  destruct (analytics_tables_count_each_name Sample.board "Unknown")
    as [_ [_ [H2 _]]].
  split; [exact (proj1 (H1 eq_refl)) | exact (proj2 (H2 eq_refl))].
Defined.

(** X2. For every non-empty job list, [uniqueCompanies] is the number
    of distinct company names, and [uniqueLocations] the number of
    distinct location names, "Unknown" standing for an absent or empty
    one; only the name "__proto__", which never gets a slot, is not
    counted. *)
Theorem analytics_unique_counts_are_exact :
  forall (job : Job) (jobs : list Job),
    let J := job :: jobs in
    exists s,
      analytics (Some J) = Some s
      /\ uniqueCompanies s = List.length (distinctNames (map companyOf J))
      /\ uniqueLocations s = List.length (distinctNames (map locationOf J))
      /\ (forall name, In name (distinctNames (map companyOf J)) <->
                       name <> "__proto__"
                       /\ exists j, In j J /\ companyOf j = name).
Proof.
  intros job jobs J. unfold J.
  rewrite AnalyticsFacts.analytics_nonempty. eexists. split; [reflexivity |].
  cbn [uniqueCompanies uniqueLocations].
  rewrite tables_tallies. cbn [fst snd]. rewrite !tallies_length.
  split; [reflexivity |]. split; [reflexivity |].
  intros name. unfold distinctNames.
  rewrite nodup_In, filter_In, negb_true_iff, String.eqb_neq, in_map_iff.
  split.
  - intros [[j [E Hj]] N]. split; [exact N |]. now exists j.
  - intros [N [j [Hj E]]]. split; [now exists j | exact N].
Qed.

(** X3. When no company and no location is named like a property that
    objects inherit, [topCompanies] and [topLocations] list the most
    frequent names: three of them (all, when there are fewer), each once
    and with the number of its records, in non-increasing order of that
    number, and no name left out has more records than a name listed. *)
Theorem top_lists_hold_the_most_frequent_names :
  forall jobs : list Job,
    (forall job, In job jobs ->
       inherited (companyOf job) = false
       /\ inherited (locationOf job) = false) ->
    mostFrequent (map companyOf jobs) (topCompanies jobs)
    /\ mostFrequent (map locationOf jobs) (topLocations jobs).
Proof.
  intros jobs H. unfold topCompanies, topLocations.
  rewrite tables_tallies. cbn [fst snd].
  split; apply top3_mostFrequent; intros name Hn;
    apply in_map_iff in Hn as [job [<- Hj]]; now apply H.
Qed.

(** X3 on the sample board. *)
Lemma top_lists_witness :
  mostFrequent (map companyOf Sample.board) (topCompanies Sample.board)
  /\ topCompanies Sample.board
     = [("Acme", Count 3); ("Beta", Count 2); ("Unknown", Count 1)]
  /\ topLocations Sample.board
     = [("Remote", Count 3); ("Berlin", Count 2); ("Unknown", Count 1)].
Proof.
  split; [| split; reflexivity].
  apply (top_lists_hold_the_most_frequent_names Sample.board).
  intros job Hj. unfold Sample.board in Hj. cbn [In] in Hj.
  repeat (destruct Hj as [<- | Hj]; [split; reflexivity |]).
  contradiction.
Defined.

End TableFacts.

(** ** The sort and the filter commute *)

Module SortFilterFacts.
Import Spec JsArrayFacts.

Section Consistent.
Context {A : Type}.
Variable comparefn : A -> A -> Z.
Hypothesis comparefn_sym :
  forall a b, Z.sgn (comparefn a b) = (- Z.sgn (comparefn b a))%Z.
Hypothesis comparefn_trans :
  forall a b c, (comparefn a b <= 0 -> comparefn b c <= 0
                 -> comparefn a c <= 0)%Z.
Variable p : A -> bool.

(** An element that may stand before all the others is inserted in
    front. *)
Lemma insert_first (x : A) (l : list A) :
  Forall (before comparefn x) l -> JsArray.insert comparefn x l = x :: l.
Proof.
  intros H. destruct l as [|y l]; [reflexivity |].
  apply Forall_inv in H. unfold before in H. simpl.
  destruct (Z.ltb_spec 0 (comparefn x y)); [lia | reflexivity].
Qed.

(** Inserting and then dropping is dropping and then inserting. *)
Lemma filter_insert (x : A) (l : list A) :
  StronglySorted (before comparefn) l ->
  filter p (JsArray.insert comparefn x l)
  = if p x then JsArray.insert comparefn x (filter p l) else filter p l.
Proof.
  induction 1 as [|y l Hs IH Hy]; simpl.
  - now destruct (p x).
  - destruct (Z.ltb_spec 0 (comparefn x y)) as [Hlt | Hle]; simpl.
    + rewrite IH. destruct (p y) eqn:Py, (p x) eqn:Px; simpl;
        try reflexivity.
      destruct (Z.ltb_spec 0 (comparefn x y)); [reflexivity | lia].
    + destruct (p x) eqn:Px; [| reflexivity].
      symmetry. apply insert_first.
      assert (F : Forall (before comparefn x) (y :: l)).
      { constructor; [exact Hle |].
        eapply Forall_impl; [| exact Hy].
        intros z Hz. exact (comparefn_trans _ _ _ Hle Hz). }
      rewrite Forall_forall in *. intros z Hz. apply F.
      change (In z (filter p (y :: l))) in Hz.
      apply filter_In in Hz. tauto.
Qed.

(** Dropping elements from a sorted array leaves the sort of what is
    kept. *)
Lemma filter_sort (l : list A) :
  filter p (JsArray.sort comparefn l) = JsArray.sort comparefn (filter p l).
Proof.
  induction l as [|x l IH]; simpl; [reflexivity |].
  rewrite filter_insert by now apply sort_sorted.
  rewrite IH. now destruct (p x).
Qed.
End Consistent.

End SortFilterFacts.

(** ** JobTable: the filter text, the case and the header clicks *)

Module ViewFacts.
Import JsString JobTable Spec JsStringFacts JsArrayFacts JobTableFacts.
Import SortFilterFacts.

(** *** Strings: concatenation, case and white space *)

Lemma append_assoc (a b c : string) :
  ((a ++ b) ++ c = a ++ (b ++ c))%string.
Proof. induction a as [|x a IH]; simpl; [reflexivity | now rewrite IH]. Qed.

(** Containment is transitive. *)
Lemma occurs_in_trans (t u s : string) :
  occurs_in t u -> occurs_in u s -> occurs_in t s.
Proof.
  intros [a [b ->]] [x [y ->]].
  exists (x ++ a)%string, (b ++ y)%string.
  now rewrite !append_assoc.
Qed.

Lemma toLowerCase_unit_idem (c : ascii) :
  toLowerCase_unit (toLowerCase_unit c) = toLowerCase_unit c.
Proof. destruct c as [[] [] [] [] [] [] [] []]; reflexivity. Qed.

Lemma toLowerCase_idem (s : string) :
  toLowerCase (toLowerCase s) = toLowerCase s.
Proof.
  induction s as [|c s IH]; simpl; [reflexivity |].
  now rewrite toLowerCase_unit_idem, IH.
Qed.

Lemma isWhiteSpace_lower (c : ascii) :
  isWhiteSpace (toLowerCase_unit c) = isWhiteSpace c.
Proof. destruct c as [[] [] [] [] [] [] [] []]; reflexivity. Qed.

Lemma whitespace_only_lower (s : string) :
  whitespace_only (toLowerCase s) = whitespace_only s.
Proof.
  induction s as [|c s IH]; simpl; [reflexivity |].
  now rewrite isWhiteSpace_lower, IH.
Qed.

Lemma whitespace_only_app (a b : string) :
  whitespace_only (a ++ b) = whitespace_only a && whitespace_only b.
Proof.
  induction a as [|c a IH]; simpl; [reflexivity |].
  now rewrite IH, andb_assoc.
Qed.

(** *** The filter *)

(** A record that matches a text matches every text whose lower-case
    form occurs in the lower-case form of that text. *)
Lemma matches_contained (t t' : string) (job : Job) :
  occurs_in (toLowerCase t) (toLowerCase t') ->
  matches t' job = true -> matches t job = true.
Proof.
  intros Hc. rewrite !matches_spec. intros [v [Hv Ho]].
  exists v. split; [exact Hv |].
  eapply occurs_in_trans; [exact Hc | exact Ho].
Qed.

(** A text is white space only when its lower-case form occurs in the
    lower-case form of a text that is. *)
Lemma whitespace_only_contained (t t' : string) :
  occurs_in (toLowerCase t) (toLowerCase t') ->
  whitespace_only t' = true -> whitespace_only t = true.
Proof.
  intros [a [b E]] W.
  rewrite <- whitespace_only_lower, E, !whitespace_only_app in W.
  rewrite !andb_true_iff in W. destruct W as [_ [W _]].
  now rewrite whitespace_only_lower in W.
Qed.

Lemma filter_filter_impl {A : Type} (p q : A -> bool) (l : list A) :
  (forall x, p x = true -> q x = true) ->
  filter p (filter q l) = filter p l.
Proof.
  intros H. induction l as [|x l IH]; simpl; [reflexivity |].
  destruct (q x) eqn:Q; simpl.
  - now rewrite IH.
  - destruct (p x) eqn:P; [| exact IH].
    apply H in P. congruence.
Qed.

(** Only the lower-cased text enters the filter. *)
Lemma matches_lower (t t' : string) (job : Job) :
  toLowerCase t = toLowerCase t' -> matches t job = matches t' job.
Proof.
  intros E. unfold matches, field_includes. now rewrite E.
Qed.

Lemma compareJobs_consistent (lc : string -> string -> Z) (f : SortField)
      (dir : SortDirection) :
  consistent lc ->
  (forall a b, Z.sgn (compareJobs lc f dir a b)
               = (- Z.sgn (compareJobs lc f dir b a))%Z)
  /\ (forall a b c, (compareJobs lc f dir a b <= 0
                     -> compareJobs lc f dir b c <= 0
                     -> compareJobs lc f dir a c <= 0)%Z).
Proof.
  intros Hc.
  pose proof (compareJobs_sym lc f Hc) as Hs.
  pose proof (compareJobs_trans lc f Hc) as Ht.
  destruct dir; [now split |]. split.
  - exact (negated_sym _ Hs).
  - exact (negated_trans _ Hs Ht).
Qed.

(** Dropping records before the sort or after it shows the same rows. *)
Lemma arrange_filter (lc : string -> string -> Z) (f : option SortField)
      (dir : SortDirection) (p : Job -> bool) (l : list Job) :
  (f <> None -> consistent lc) ->
  match f with
  | Some f0 => JsArray.sort (compareJobs lc f0 dir) (filter p l)
  | None => filter p l
  end
  = filter p match f with
             | Some f0 => JsArray.sort (compareJobs lc f0 dir) l
             | None => l
             end.
Proof.
  intros Hc. destruct f as [f0 |]; [| reflexivity].
  destruct (compareJobs_consistent lc f0 dir (Hc ltac:(discriminate)))
    as [Hs Ht].
  symmetry. now apply filter_sort.
Qed.

(** The view under a text, from the view under a text whose lower-case
    form occurs in its own. *)
Lemma processedJobs_narrow (lc : string -> string -> Z) (jobs : list Job)
      (t t' : string) (f : option SortField) (dir : SortDirection) :
  (f <> None -> consistent lc) ->
  occurs_in (toLowerCase t) (toLowerCase t') ->
  processedJobs lc (Some jobs) t' f dir =
  if whitespace_only t'
  then processedJobs lc (Some jobs) t f dir
  else filter (matches t') (processedJobs lc (Some jobs) t f dir).
Proof.
  intros Hc Ho. unfold processedJobs. rewrite !truthy_trim.
  destruct (whitespace_only t') eqn:W; cbn [negb].
  - now rewrite (whitespace_only_contained t t' Ho W).
  - rewrite <- (arrange_filter lc f dir _ _ Hc).
    destruct (whitespace_only t); cbn [negb]; [reflexivity |].
    now rewrite (filter_filter_impl _ _ _
                   (fun job => matches_contained t t' job Ho)).
Qed.

(** Texts that differ in case only give the same view. *)
Lemma processedJobs_lower (lc : string -> string -> Z)
      (jobs : option (list Job)) (t t' : string) (f : option SortField)
      (dir : SortDirection) :
  toLowerCase t = toLowerCase t' ->
  processedJobs lc jobs t f dir = processedJobs lc jobs t' f dir.
Proof.
  intros E. unfold processedJobs. destruct jobs as [jobs |]; [| reflexivity].
  rewrite !truthy_trim.
  rewrite <- (whitespace_only_lower t), <- (whitespace_only_lower t'), E.
  now rewrite (filter_ext _ _ (fun job => matches_lower t t' job E)).
Qed.

(** X4. Narrowing the filter text shows a part of what was shown. When
    the lower-case form of the old text occurs in the lower-case form of
    the new one, the new view is: the same rows when the new text is
    white space only; else the rows shown before that match the new
    text, in the order they had. So no row is added; the sort column and
    direction stay; and no view shows a row that is not a job. For a
    sorted view the collation has to obey the collation laws. *)
Theorem narrower_filter_text_only_drops_rows :
  forall (lc : string -> string -> Z) (jobs : list Job) (st : ViewState)
         (text : string),
    (sortField st <> None -> consistent lc) ->
    occurs_in (toLowerCase (filterText st)) (toLowerCase text) ->
    let st' := handleFilterChange text st in
    (sortField st' = sortField st /\ sortDirection st' = sortDirection st)
    /\ rows lc (Some jobs) st' =
         (if whitespace_only text then rows lc (Some jobs) st
          else filter (matches text) (rows lc (Some jobs) st))
    /\ incl (rows lc (Some jobs) st') (rows lc (Some jobs) st)
    /\ List.length (rows lc (Some jobs) st')
       <= List.length (rows lc (Some jobs) st)
    /\ incl (rows lc (Some jobs) st) jobs.
Proof.
  intros lc jobs st text Hc Ho st'.
  split; [split; reflexivity |].
  unfold rows, st'. cbn [handleFilterChange sortField sortDirection filterText].
  pose proof (processedJobs_narrow lc jobs (filterText st) text (sortField st)
                (sortDirection st) Hc Ho) as E.
  split; [exact E |]. rewrite E.
  split; [| split].
  - destruct (whitespace_only text); [apply incl_refl | apply incl_filter].
  - destruct (whitespace_only text); [lia | apply filter_length_le].
  - intros job Hj. unfold processedJobs in Hj.
    assert (Hf : In job (if truthy (trim (filterText st))
                         then filter (matches (filterText st)) jobs
                         else jobs)).
    { destruct (sortField st) as [f0 |]; [| exact Hj].
      eapply Permutation_in; [apply sort_perm | exact Hj]. }
    destruct (truthy (trim (filterText st))); [| exact Hf].
    apply filter_In in Hf. tauto.
Qed.

(** X4 at the text "C" narrowed to "acme", sorted by title, descending. *)
Lemma narrower_filter_text_witness :
  rows Host.ordinalCompare (Some Sample.three)
       {| sortField := Some by_Title; sortDirection := desc;
          filterText := "acme" |}
  = filter (matches "acme")
           (rows Host.ordinalCompare (Some Sample.three)
                 {| sortField := Some by_Title; sortDirection := desc;
                    filterText := "C" |}).
Proof.
  destruct (narrower_filter_text_only_drops_rows
              Host.ordinalCompare Sample.three
              {| sortField := Some by_Title; sortDirection := desc;
                 filterText := "C" |} "acme"
              (fun _ => HostFacts.ordinalCompare_consistent)
              (ex_intro _ "a" (ex_intro _ "me" eq_refl)))
    as [_ [H _]].
  exact H.
Defined.

(** X5. The filter ignores case: two texts with the same lower-case form
    give the same view, a text gives the view of its lower-case form,
    and records whose three fields agree up to case match the same
    texts. *)
Theorem filter_ignores_case :
  forall (lc : string -> string -> Z) (jobs : option (list Job))
         (t t' : string) (f : option SortField) (dir : SortDirection),
    toLowerCase t = toLowerCase t' ->
    processedJobs lc jobs t f dir = processedJobs lc jobs t' f dir
    /\ processedJobs lc jobs (toLowerCase t) f dir
       = processedJobs lc jobs t f dir
    /\ forall job job',
         option_map toLowerCase (Title job)
           = option_map toLowerCase (Title job') ->
         option_map toLowerCase (Company job)
           = option_map toLowerCase (Company job') ->
         option_map toLowerCase (Location job)
           = option_map toLowerCase (Location job') ->
         matches t job = matches t' job'.
Proof.
  intros lc jobs t t' f dir E. split; [| split].
  - now apply processedJobs_lower.
  - apply processedJobs_lower, toLowerCase_idem.
  - intros job job' E1 E2 E3. unfold matches, field_includes. rewrite E.
    destruct (Title job), (Title job'), (Company job), (Company job'),
      (Location job), (Location job'); simpl in *; try discriminate;
      repeat match goal with
             | H : Some _ = Some _ |- _ => injection H as H; rewrite H
             end; reflexivity.
Qed.

(** X5 at "ACME" and "acme". *)
Lemma filter_ignores_case_witness :
  processedJobs Host.ordinalCompare (Some Sample.three) "ACME" None asc
  = processedJobs Host.ordinalCompare (Some Sample.three) "acme" None asc.
Proof.
  exact (proj1 (filter_ignores_case Host.ordinalCompare (Some Sample.three)
                  "ACME" "acme" None asc eq_refl)).
Defined.

Lemma SortField_eqb_spec (f g : SortField) :
  SortField_eqb f g = true <-> f = g.
Proof. destruct f, g; simpl; split; congruence. Qed.

Lemma handleSort_cases (f : SortField) (st : ViewState) :
  handleSort f st =
  {| sortField := Some f;
     sortDirection :=
       match sortField st with
       | Some g =>
           if SortField_eqb g f
           then match sortDirection st with asc => desc | desc => asc end
           else asc
       | None => asc
       end;
     filterText := filterText st |}.
Proof.
  unfold handleSort. destruct (sortField st) as [g |]; [| reflexivity].
  destruct (SortField_eqb g f) eqn:E; [| reflexivity].
  apply SortField_eqb_spec in E. now subst g.
Qed.

Lemma rows_perm (lc : string -> string -> Z) (jobs : list Job)
      (st : ViewState) :
  Permutation (rows lc (Some jobs) st)
              (processedJobs lc (Some jobs) (filterText st) None asc).
Proof.
  unfold rows, processedJobs.
  destruct (sortField st); [apply sort_perm | reflexivity].
Qed.

(** X6. A click on the header of a column leaves the filter text alone
    and makes the column the sort column: ascending when the table was
    not sorted by it, the other direction when it was. So a second click
    flips the direction and a third restores the state after the first;
    the rows stay the same rows, re-arranged; and when no two rows tie on
    the column, the second click shows the rows of the first in reverse.
    Before any click the rows are the jobs as received. *)
Theorem header_click_sorts_then_reverses :
  forall (lc : string -> string -> Z) (jobs : list Job) (st : ViewState)
         (f : SortField),
    consistent lc ->
    let st1 := handleSort f st in
    let st2 := handleSort f st1 in
    (sortField st1 = Some f /\ filterText st1 = filterText st
     /\ (sortField st <> Some f -> sortDirection st1 = asc))
    /\ (sortField st2 = Some f /\ filterText st2 = filterText st
        /\ sortDirection st2 <> sortDirection st1)
    /\ handleSort f st2 = st1
    /\ Permutation (rows lc (Some jobs) st1) (rows lc (Some jobs) st)
    /\ ((forall k,
           List.length
             (filter (sameKey lc f k)
                     (processedJobs lc (Some jobs) (filterText st) None asc))
           <= 1) ->
        rows lc (Some jobs) st2 = rev (rows lc (Some jobs) st1))
    /\ rows lc (Some jobs) initialView = jobs.
Proof.
  intros lc jobs st f Hc st1 st2.
  assert (E1 : st1 = handleSort f st) by reflexivity.
  assert (E2 : st2 = handleSort f st1) by reflexivity.
  rewrite handleSort_cases in E1.
  rewrite handleSort_cases in E2. rewrite E1 in E2.
  cbn [sortField sortDirection filterText] in E2.
  assert (R : SortField_eqb f f = true) by now apply SortField_eqb_spec.
  rewrite R in E2.
  split; [| split; [| split; [| split; [| split]]]].
  - rewrite E1. cbn. repeat split. intros N.
    destruct (sortField st) as [g |]; [| reflexivity].
    destruct (SortField_eqb g f) eqn:G; [| reflexivity].
    apply SortField_eqb_spec in G. congruence.
  - rewrite E2, E1. cbn. repeat split.
    destruct (sortField st) as [g |]; [destruct (SortField_eqb g f) |];
      try destruct (sortDirection st); discriminate.
  - rewrite handleSort_cases, E2, E1. cbn. rewrite R. f_equal.
    destruct (sortField st) as [g |]; [destruct (SortField_eqb g f) |];
      try destruct (sortDirection st); reflexivity.
  - rewrite !rows_perm. now rewrite E1.
  - intros Hties. unfold rows. rewrite E2, E1.
    cbn [sortField sortDirection filterText]. unfold processedJobs in *.
    set (l := if truthy (trim (filterText st))
              then filter (matches (filterText st)) jobs else jobs) in *.
    pose proof (sort_jobs_desc_rev_no_ties lc f l Hc Hties) as D.
    destruct (match sortField st with
              | Some g =>
                  if SortField_eqb g f
                  then match sortDirection st with
                       | asc => desc
                       | desc => asc
                       end
                  else asc
              | None => asc
              end).
    + exact D.
    + rewrite D. now rewrite rev_involutive.
  - reflexivity.
Qed.

Lemma ordinalCompare_eqb (a b : string) :
  (Host.ordinalCompare a b =? 0)%Z = String.eqb a b.
Proof.
  destruct (HostFacts.ordinalCompare_cases a b)
    as [[E ->] | [[E L] | [E L]]]; rewrite E.
  - now rewrite String.eqb_refl.
  - destruct (String.eqb_spec a b) as [-> | N]; [| reflexivity].
    now apply HostFacts.string_lt_irrefl in L.
  - destruct (String.eqb_spec a b) as [-> | N]; [| reflexivity].
    now apply HostFacts.string_lt_irrefl in L.
Qed.

(** X6 at two clicks on the title column of the three sample records. *)
Lemma header_click_witness :
  rows Host.ordinalCompare (Some Sample.three)
       (handleSort by_Title (handleSort by_Title initialView))
  = rev (rows Host.ordinalCompare (Some Sample.three)
              (handleSort by_Title initialView)).
Proof.
  destruct (header_click_sorts_then_reverses
              Host.ordinalCompare Sample.three initialView by_Title
              HostFacts.ordinalCompare_consistent)
    as [_ [_ [_ [_ [H _]]]]].
  apply H. intros k.
  change (processedJobs Host.ordinalCompare (Some Sample.three)
            (filterText initialView) None asc) with Sample.three.
  unfold sameKey, Sample.three. cbn [filter].
  rewrite !ordinalCompare_eqb.
  destruct (String.eqb_spec (sortKey by_Title k)
                            (sortKey by_Title Sample.engineer_acme)) as [-> |];
    [cbn; lia |].
  destruct (String.eqb_spec (sortKey by_Title k)
                            (sortKey by_Title Sample.untitled_acme)) as [-> |];
    [cbn; lia |].
  destruct (String.eqb (sortKey by_Title k)
                       (sortKey by_Title Sample.analyst_beta)); cbn; lia.
Defined.

End ViewFacts.

(** ** Strings: trimming twice *)

Module TrimFacts.
Import JsString Spec JsStringFacts.

Lemma trimEnd_idem (s : string) : trimEnd (trimEnd s) = trimEnd s.
Proof.
  induction s as [|c s IH]; [reflexivity |].
  cbn [trimEnd]. destruct (trimEnd s) as [|d t] eqn:E.
  - destruct (isWhiteSpace c) eqn:W; [reflexivity |].
    cbn [trimEnd]. now rewrite W.
  - remember (String d t) as u eqn:U. cbn [trimEnd]. rewrite IH.
    now rewrite U.
Qed.

(** What [trimStart] returns does not start with white space. *)
Lemma trimStart_head (s : string) :
  match trimStart s with
  | EmptyString => True
  | String c _ => isWhiteSpace c = false
  end.
Proof.
  induction s as [|c s IH]; simpl; [exact I |].
  destruct (isWhiteSpace c) eqn:W; [exact IH | exact W].
Qed.

Lemma trimStart_trimEnd (u : string) :
  match u with
  | EmptyString => True
  | String c _ => isWhiteSpace c = false
  end ->
  trimStart (trimEnd u) = trimEnd u.
Proof.
  destruct u as [|c u]; [reflexivity |]. intros W.
  cbn [trimEnd]. destruct (trimEnd u); rewrite ?W; cbn [trimStart];
    now rewrite W.
Qed.

(** Trimming what is trimmed changes nothing. *)
Lemma trim_idem (s : string) : trim (trim s) = trim s.
Proof.
  unfold trim. rewrite trimStart_trimEnd by apply trimStart_head.
  apply trimEnd_idem.
Qed.

Lemma trim_nonempty (s : string) :
  whitespace_only s = false -> trim s <> "".
Proof.
  intros W E. pose proof (truthy_trim s) as T. rewrite E, W in T.
  discriminate.
Qed.

Lemma or_else_nonempty (o : option string) (fallback : string) :
  fallback <> "" -> or_else o fallback <> "".
Proof.
  intros F. unfold or_else. destruct o as [[|c s] |]; simpl;
    try exact F. discriminate.
Qed.

End TrimFacts.

(** ** services/api.js: the scrape request *)

Module RequestFacts.
Import JsString Api Spec JsStringFacts ApiFacts TrimFacts.

(** A request that passes both checks goes out once. *)
Lemma scrapeJobs_accepted (net : Backend) (jobTitle : string)
      (location : option string) (pages : option Z) :
  whitespace_only jobTitle = false ->
  (1 <= match pages with Some p => p | None => 1 end <= 10)%Z ->
  scrapeJobs net (Some jobTitle) location pages =
  let body := requestOf jobTitle location pages in
  (match post net "/scrape" body with
   | Normal d => Normal d
   | Throw error =>
       Throw {| message := scrapeErrorMessage error;
                code := None;
                response := response error;
                originalError := Some error |}
   end, [POST "/scrape" body]).
Proof.
  intros W Hp. unfold scrapeJobs, requestOf.
  rewrite trim_length_zero, W, orb_false_r.
  destruct (truthy jobTitle) eqn:T;
    [| apply truthy_whitespace in T; congruence].
  cbn [negb].
  set (p := match pages with Some p => p | None => 1%Z end) in *.
  assert (R : ((p <? 1) || (p >? 10))%Z = false).
  { apply orb_false_iff. rewrite Z.ltb_ge, Z.gtb_ltb, Z.ltb_ge. lia. }
  rewrite R.
  assert (Z0 : (p =? 0)%Z = false) by (apply Z.eqb_neq; lia).
  rewrite Z0. cbv zeta.
  now destruct (post net _ _).
Qed.

Lemma scrapeJobs_pages_rejected (net : Backend) (jobTitle : string)
      (location : option string) (pages : option Z) :
  whitespace_only jobTitle = false ->
  ~ (1 <= match pages with Some p => p | None => 1 end <= 10)%Z ->
  snd (scrapeJobs net (Some jobTitle) location pages) = [].
Proof.
  intros W Hp. destruct pages as [p |]; [| exfalso; apply Hp; lia].
  rewrite (scrapeJobs_pages_out_of_range net (Some jobTitle) location p W);
    [reflexivity | lia].
Qed.

(** What [scrapeJobs] throws: the error its [catch] block makes of a
    cause, which is one of the two local rejections, with nothing sent,
    or the rejection of the one request sent. *)
Lemma scrapeJobs_throws (net : Backend) (jobTitle location : option string)
      (pages : option Z) (e : JsError) (sent : list Request) :
  scrapeJobs net jobTitle location pages = (Throw e, sent) ->
  exists cause,
    e = {| message := scrapeErrorMessage cause; code := None;
           response := response cause;
           originalError := Some cause |}
    /\ ((sent = []
         /\ (cause = new_Error
               "Job title is required and must be a non-empty string"
             \/ cause = new_Error "Pages must be between 1 and 10"))
        \/ (exists body, sent = [POST "/scrape" body]
                         /\ post net "/scrape" body = Throw cause)).
Proof.
  intros H.
  destruct (blankTitle jobTitle) eqn:B.
  { rewrite (scrapeJobs_blank_title net jobTitle location pages B) in H.
    injection H as <- <-.
    exists (new_Error
              "Job title is required and must be a non-empty string").
    split; [reflexivity |]. left. auto. }
  destruct jobTitle as [t |]; [| discriminate]. cbn [blankTitle] in B.
  destruct (Z_le_dec 1 match pages with Some p => p | None => 1%Z end)
    as [L |]; [destruct (Z_le_dec match pages with
                                  | Some p => p | None => 1%Z end 10)
                 as [U |] |].
  - rewrite (scrapeJobs_accepted net t location pages B (conj L U)) in H.
    cbv zeta in H.
    destruct (post net "/scrape" (requestOf t location pages))
      as [d | cause] eqn:P; [discriminate |].
    injection H as <- <-. exists cause. split; [reflexivity |].
    right. now exists (requestOf t location pages).
  - destruct pages as [p |]; [| lia].
    rewrite (scrapeJobs_pages_out_of_range net (Some t) location p B) in H
      by lia.
    injection H as <- <-.
    exists (new_Error "Pages must be between 1 and 10").
    split; [reflexivity |]. left. auto.
  - destruct pages as [p |]; [| lia].
    rewrite (scrapeJobs_pages_out_of_range net (Some t) location p B) in H
      by lia.
    injection H as <- <-.
    exists (new_Error "Pages must be between 1 and 10").
    split; [reflexivity |]. left. auto.
Qed.

Lemma scrapeErrorMessage_nonempty (error : JsError) :
  scrapeErrorMessage error <> "".
Proof.
  unfold scrapeErrorMessage. destruct (response error) as [r |].
  - apply or_else_nonempty, or_else_nonempty. discriminate.
  - destruct (code error) as [c |].
    + destruct (String.eqb c "ECONNABORTED"); [discriminate |].
      destruct (String.eqb c "ECONNREFUSED"); [discriminate |].
      destruct (message error); simpl; discriminate.
    + destruct (message error); simpl; discriminate.
Qed.

(** X7. Called with a title, a location and a page count that are a
    string, a string and an integer, or left out, [scrapeJobs] sends at
    most one request, and a request it sends is made from its arguments
    and well formed: a POST to /scrape whose job title is the title
    given, trimmed, and not empty; whose location is the location given,
    trimmed, or "Remote" when none is given or the one given is blank,
    so it is trimmed and not empty; and whose page count is the one
    given (1 when omitted) and lies in 1..10. *)
Theorem scrape_requests_are_well_formed :
  forall (net : Backend) (jobTitle location : option string)
         (pages : option Z) (r : Request),
    In r (snd (scrapeJobs net jobTitle location pages)) ->
    snd (scrapeJobs net jobTitle location pages) = [r]
    /\ exists t body,
         jobTitle = Some t /\ r = POST "/scrape" body
         /\ job_title body = trim t
         /\ job_title body <> ""
         /\ trim (job_title body) = job_title body
         /\ Api.location body
            = match location with
              | Some l => if whitespace_only l then "Remote" else trim l
              | None => "Remote"
              end
         /\ Api.location body <> ""
         /\ trim (Api.location body) = Api.location body
         /\ Api.pages body = match pages with Some p => p | None => 1%Z end
         /\ (1 <= Api.pages body <= 10)%Z.
Proof.
  intros net jobTitle location pages r Hr.
  destruct (blankTitle jobTitle) eqn:B.
  { rewrite (scrapeJobs_blank_title net jobTitle location pages B) in Hr.
    contradiction. }
  destruct jobTitle as [t |]; [| discriminate]. cbn [blankTitle] in B.
  destruct (Z_le_dec 1 match pages with Some p => p | None => 1%Z end)
    as [L |]; [destruct (Z_le_dec match pages with
                                  | Some p => p | None => 1%Z end 10)
                 as [U |] |];
    try (rewrite (scrapeJobs_pages_rejected net t location pages B) in Hr;
         [contradiction | lia]).
  rewrite (scrapeJobs_accepted net t location pages B (conj L U)) in *.
  cbv zeta in *. cbn [snd] in *. destruct Hr as [<- | []].
  split; [reflexivity |].
  exists t, (requestOf t location pages).
  split; [reflexivity |]. split; [reflexivity |].
  unfold requestOf. cbn [job_title Api.location Api.pages].
  split; [reflexivity |].
  split; [now apply trim_nonempty |].
  split; [apply trim_idem |].
  split; [| split; [| split; [| split; [reflexivity | lia]]]].
  - destruct location as [l |]; [| reflexivity].
    unfold or_else. rewrite truthy_trim.
    now destruct (whitespace_only l).
  - apply or_else_nonempty; discriminate.
  - unfold or_else.
    destruct (trim match location with Some l => l | None => "Remote" end)
      eqn:E; [reflexivity |].
    cbn [truthy]. rewrite <- E. apply trim_idem.
Qed.

(** X7 at a padded title and a padded location. *)
Lemma scrape_requests_witness :
  snd (scrapeJobs Sample.serving (Some " dev ") (Some " Paris ") (Some 3%Z))
  = [POST "/scrape"
          {| job_title := "dev"; location := "Paris"; pages := 3 |}].
Proof.
  exact (proj1 (scrape_requests_are_well_formed
                  Sample.serving (Some " dev ") (Some " Paris ") (Some 3%Z)
                  (POST "/scrape"
                     {| job_title := "dev"; location := "Paris";
                        pages := 3 |})
                  (or_introl eq_refl))).
Defined.

(** X8. With a title that is not blank and a page count in 1..10,
    [scrapeJobs] sends exactly the one request built from its arguments;
    when the backend answers, the answer is returned unchanged; when the
    request fails, the error thrown keeps the failure as [originalError]
    and its server response as [response]. Leaving out location and
    pages is asking for one page of "Remote". *)
Theorem scrape_returns_the_backend_answer :
  forall (net : Backend) (jobTitle : string) (location : option string)
         (pages : option Z),
    whitespace_only jobTitle = false ->
    (1 <= match pages with Some p => p | None => 1 end <= 10)%Z ->
    let body := requestOf jobTitle location pages in
    snd (scrapeJobs net (Some jobTitle) location pages)
      = [POST "/scrape" body]
    /\ (forall d, post net "/scrape" body = Normal d ->
          fst (scrapeJobs net (Some jobTitle) location pages) = Normal d)
    /\ (forall cause, post net "/scrape" body = Throw cause ->
          exists e,
            fst (scrapeJobs net (Some jobTitle) location pages) = Throw e
            /\ originalError e = Some cause
            /\ response e = response cause)
    /\ scrapeJobs net (Some jobTitle) None None
       = scrapeJobs net (Some jobTitle) (Some "Remote") (Some 1%Z).
Proof.
  intros net jobTitle location pages W Hp body.
  rewrite (scrapeJobs_accepted net jobTitle location pages W Hp).
  cbv zeta. fold body. cbn [fst snd].
  split; [reflexivity |]. split; [| split].
  - intros d E. now rewrite E.
  - intros cause E. rewrite E. eexists. repeat split.
  - reflexivity.
Qed.

(** X8 against the sample backend. *)
Lemma scrape_returns_witness :
  fst (scrapeJobs Sample.serving (Some "dev") None None)
  = Normal {| success := true; jobs := Sample.three; total_jobs := 3;
              pages_scraped := 1; result_message := None |}.
Proof.
  destruct (scrape_returns_the_backend_answer
              Sample.serving "dev" None None eq_refl)
    as [_ [H _]]; [simpl; lia |].
  apply H. reflexivity.
Defined.

(** X9. Every error [scrapeJobs] throws has a message that is not
    empty and no [code]; it keeps its cause as [originalError] and the
    server response of the cause as [response]. The cause is one of the
    two local rejections, with nothing sent and its message kept, or the
    failure of the one request sent. A non-empty [detail] of the server
    is the message; without a response, a timeout and a refused
    connection get their fixed texts. *)
Theorem scrape_failure_always_has_a_message :
  forall (net : Backend) (jobTitle location : option string)
         (pages : option Z) (e : JsError) (sent : list Request),
    scrapeJobs net jobTitle location pages = (Throw e, sent) ->
    message e <> ""
    /\ code e = None
    /\ exists cause,
         originalError e = Some cause
         /\ response e = response cause
         /\ message e = scrapeErrorMessage cause
         /\ ((sent = []
              /\ (cause = new_Error
                    "Job title is required and must be a non-empty string"
                  \/ cause = new_Error "Pages must be between 1 and 10")
              /\ message e = message cause)
             \/ (exists body, sent = [POST "/scrape" body]
                              /\ post net "/scrape" body = Throw cause))
         /\ (forall r d m,
               response cause = Some r -> data r = Some d ->
               detail d = Some m -> m <> "" -> message e = m)
         /\ (response cause = None -> code cause = Some "ECONNABORTED" ->
             message e = "Request timed out. Scraping took too long.")
         /\ (response cause = None -> code cause = Some "ECONNREFUSED" ->
             message e
             = "Cannot connect to server. Make sure backend is running.").
Proof.
  intros net jobTitle location pages e sent H.
  destruct (scrapeJobs_throws net jobTitle location pages e sent H)
    as [cause [-> G]].
 cbn [message code originalError response].
  split; [apply scrapeErrorMessage_nonempty |]. split; [reflexivity |].
  exists cause. split; [reflexivity |]. split; [reflexivity |].
  split; [reflexivity |]. split; [| split; [| split]].
  - destruct G as [[-> [-> | ->]] | G]; [left | left | right; exact G];
      repeat split; auto.
  - intros r d m Hr Hd Hm Nm. unfold scrapeErrorMessage.
    rewrite Hr, Hd, Hm. destruct m; [contradiction | reflexivity].
  - intros Hr Hc. unfold scrapeErrorMessage. now rewrite Hr, Hc.
  - intros Hr Hc. unfold scrapeErrorMessage. now rewrite Hr, Hc.
Qed.

(** X9 at a request that times out. *)
Lemma scrape_failure_witness :
  message
    match fst (scrapeJobs (Sample.failing Sample.timeout_error)
                          (Some "dev") None None) with
    | Throw e => e
    | Normal _ => new_Error ""
    end <> "".
Proof.
  exact (proj1 (scrape_failure_always_has_a_message
                  (Sample.failing Sample.timeout_error)
                  (Some "dev") None None _ _ eq_refl)).
Defined.

End RequestFacts.

(** ** DownloadButtons.js: the outcome of a download and the statistics *)

Module StatsFacts.
Import JsString Api DownloadButtons Spec JsStringFacts ApiFacts DownloadFacts.

(** The four exits of the handler when there is data. *)
Lemma handleDownload_cases (env : Env) (format : string) (st : State) :
  hasData env = true ->
  handleDownload env format st =
  match import_failure env with
  | Some e =>
      (Normal tt, settled format st (downloadStats st),
       [SetDownloading format true;
        Alerted ("Download failed: " ++ failureDetail e)%string;
        SetDownloading format false])
  | None =>
      match downloadFile (net env) format with
      | (Throw e, sent) =>
          (Normal tt, settled format st (downloadStats st),
           SetDownloading format true :: map Sent sent
             ++ [Alerted ("Download failed: " ++ failureDetail e)%string;
                 SetDownloading format false])
      | (Normal blob, sent) =>
          match createObjectURL env blob with
          | Throw e =>
              (Normal tt, settled format st (downloadStats st),
               SetDownloading format true :: map Sent sent
                 ++ [Alerted ("Download failed: " ++ failureDetail e)%string;
                     SetDownloading format false])
          | Normal url =>
              (Normal tt,
               settled format st
                 {| totalDownloads := totalDownloads (downloadStats st) + 1;
                    lastDownload := Some (infoOf env format blob);
                    downloadHistory :=
                      JsArray.slice_last 10
                        (downloadHistory (downloadStats st)
                           ++ [infoOf env format blob]) |},
               SetDownloading format true :: map Sent sent
                 ++ [Clicked url (filenameOf (toISOString_now env 0) format);
                     SetDownloading format false])
          end
      end
  end.
Proof.
  intros Hd.
  unfold handleDownload, downloadBlock, downloadFailed, try_catch_finally,
    bind, lift, await, emit, setDownloadStats, setDownloading, settled,
    infoOf.
  rewrite Hd. cbn [negb].
  destruct (import_failure env) as [e |]; [reflexivity |].
  destruct (downloadFile (net env) format) as [[blob | e] sent]; cbn.
  - destruct (createObjectURL env blob) as [url | e]; cbn;
      repeat (rewrite <- app_assoc || rewrite app_nil_r); reflexivity.
  - repeat (rewrite <- app_assoc || rewrite app_nil_r). reflexivity.
Qed.

Lemma saved_sent (sent : list Request) (rest : list Event) :
  saved (map Sent sent ++ rest) = saved rest.
Proof. induction sent as [|r sent IH]; [reflexivity | exact IH]. Qed.

Lemma alerts_sent (sent : list Request) (rest : list Event) :
  alerts (map Sent sent ++ rest) = alerts rest.
Proof. induction sent as [|r sent IH]; [reflexivity | exact IH]. Qed.

Lemma slice_last_snoc {A : Type} (n : nat) (l : list A) (x : A) :
  List.length (JsArray.slice_last (S n) (l ++ [x]))
    = Nat.min (S n) (List.length l + 1)
  /\ exists older, JsArray.slice_last (S n) (l ++ [x]) = older ++ [x].
Proof.
  unfold JsArray.slice_last. split.
  - rewrite length_skipn, length_app. cbn [List.length]. lia.
  - rewrite skipn_app, length_app. cbn [List.length].
    replace (List.length l + 1 - S n - List.length l) with 0 by lia.
    now exists (skipn (List.length l + 1 - S n) l).
Qed.

(** X10. When there is data, a call of the download handler does one of
    two things. Either the module loads, the blob arrives and the browser
    makes an address for it: then exactly one file is saved, under the
    name built for the format, nothing is alerted, the download counter
    goes up by one, and the download becomes the last download and the
    newest entry of the history, of which the last ten are kept. Or one
    of these three steps fails: then nothing is saved, exactly one alert
    is shown, "Download failed: " followed by the server's detail or the
    error's message, and the statistics are unchanged. *)
Theorem download_saves_once_or_alerts_once :
  forall (env : Env) (format : string) (st : State),
    hasData env = true ->
    let st' := snd (fst (handleDownload env format st)) in
    let evs := snd (handleDownload env format st) in
    (exists blob url,
        import_failure env = None
        /\ fst (downloadFile (net env) format) = Normal blob
        /\ createObjectURL env blob = Normal url
        /\ saved evs = [(url, filenameOf (toISOString_now env 0) format)]
        /\ alerts evs = []
        /\ totalDownloads (downloadStats st')
           = totalDownloads (downloadStats st) + 1
        /\ lastDownload (downloadStats st') = Some (infoOf env format blob)
        /\ downloadHistory (downloadStats st')
           = JsArray.slice_last 10 (downloadHistory (downloadStats st)
                                      ++ [infoOf env format blob]))
    \/ (exists cause,
          (import_failure env = Some cause
           \/ (import_failure env = None
               /\ fst (downloadFile (net env) format) = Throw cause)
           \/ (import_failure env = None
               /\ exists blob,
                    fst (downloadFile (net env) format) = Normal blob
                    /\ createObjectURL env blob = Throw cause))
          /\ saved evs = []
          /\ alerts evs = [("Download failed: " ++ failureDetail cause)%string]
          /\ downloadStats st' = downloadStats st).
Proof.
  intros env format st Hd st' evs. unfold st', evs.
  rewrite (handleDownload_cases env format st Hd).
  destruct (import_failure env) as [e |].
  { right. exists e. cbn. repeat split. now left. }
  destruct (downloadFile (net env) format) as [[blob | e] sent].
  - destruct (createObjectURL env blob) as [url | e] eqn:U.
    + left. exists blob, url. cbn [fst snd].
      change (saved (?a :: ?l)) with (saved l).
      change (alerts (?a :: ?l)) with (alerts l).
      rewrite saved_sent, alerts_sent. repeat split. exact U.
    + right. exists e. cbn [fst snd].
      change (saved (?a :: ?l)) with (saved l).
      change (alerts (?a :: ?l)) with (alerts l).
      rewrite saved_sent, alerts_sent. repeat split.
      right. right. split; [reflexivity |]. exists blob. now split.
  - right. exists e. cbn [fst snd].
    change (saved (?a :: ?l)) with (saved l).
    change (alerts (?a :: ?l)) with (alerts l).
    rewrite saved_sent, alerts_sent. repeat split.
    right. left. now split.
Qed.

(** X10 on the sample page: a csv export, and a request that times
    out. *)
Lemma download_saves_witness :
  saved (snd (handleDownload (Sample.browser Sample.serving) "csv"
                             initialState))
  = [("blob:1", "indeed-jobs-2024-03-05T14-07-09.csv")]
  /\ alerts (snd (handleDownload
                    (Sample.browser (Sample.failing Sample.timeout_error))
                    "csv" initialState))
     = ["Download failed: Download failed"].
Proof.
  split.
  - destruct (download_saves_once_or_alerts_once
                (Sample.browser Sample.serving) "csv" initialState eq_refl)
      as [[blob [url [_ [_ [U [S _]]]]]] | [cause [_ [S _]]]].
    + injection U as <-. exact S.
    + discriminate S.
  - destruct (download_saves_once_or_alerts_once
                (Sample.browser (Sample.failing Sample.timeout_error))
                "csv" initialState eq_refl)
      as [[blob [url [_ [D _]]]] | [cause [C [_ [A _]]]]].
    + discriminate D.
    + destruct C as [C | [[_ C] | [_ [blob [C _]]]]]; try discriminate C.
      injection C as <-. exact A.
Defined.

(** The state and the events of the handler when there is no data. *)
Lemma handleDownload_no_data (env : Env) (format : string) (st : State) :
  hasData env = false -> handleDownload env format st = (Normal tt, st, []).
Proof. intros H. unfold handleDownload. now rewrite H. Qed.

(** The statistics after one call: unchanged, or one download more. *)
Lemma handleDownload_stats (env : Env) (format : string) (st : State) :
  let st' := snd (fst (handleDownload env format st)) in
  downloadStats st' = downloadStats st
  \/ exists info,
       downloadStats st'
       = {| totalDownloads := totalDownloads (downloadStats st) + 1;
            lastDownload := Some info;
            downloadHistory :=
              JsArray.slice_last 10
                (downloadHistory (downloadStats st) ++ [info]) |}.
Proof.
  cbv zeta. destruct (hasData env) eqn:Hd.
  - rewrite (handleDownload_cases env format st Hd).
    destruct (import_failure env); [now left |].
    destruct (downloadFile (net env) format) as [[blob | e] sent];
      [| now left].
    destruct (createObjectURL env blob); [| now left].
    right. now eexists.
  - rewrite (handleDownload_no_data env format st Hd). now left.
Qed.

(** The busy flags after one call: the flag of the format is cleared
    (or untouched, without data), the others are untouched. *)
Lemma handleDownload_flags (env : Env) (format : string) (st : State)
      (other : string) :
  let st' := snd (fst (handleDownload env format st)) in
  JsObject.get_own (downloading st') other
  = if hasData env && String.eqb format other then Some false
    else JsObject.get_own (downloading st) other.
Proof.
  cbv zeta. destruct (hasData env) eqn:Hd; cbn [andb].
  - assert (E : downloading (snd (fst (handleDownload env format st)))
                = JsObject.define
                    (JsObject.define (downloading st) format true)
                    format false).
    { rewrite (handleDownload_cases env format st Hd).
      destruct (import_failure env); [reflexivity |].
      destruct (downloadFile (net env) format) as [[blob | e] sent];
        [| reflexivity].
      now destruct (createObjectURL env blob). }
    rewrite E. destruct (String.eqb_spec format other) as [<- | N].
    + apply get_own_define.
    + now rewrite !get_own_define_other.
  - now rewrite (handleDownload_no_data env format st Hd).
Qed.

Lemma statsConsistent_step (s : DownloadStats) (info : DownloadInfo) :
  statsConsistent s ->
  statsConsistent
    {| totalDownloads := totalDownloads s + 1;
       lastDownload := Some info;
       downloadHistory :=
         JsArray.slice_last 10 (downloadHistory s ++ [info]) |}.
Proof.
  intros [L _]. unfold statsConsistent.
  cbn [totalDownloads lastDownload downloadHistory].
  destruct (slice_last_snoc 9 (downloadHistory s) info) as [H1 H2].
  split; [rewrite H1, L; lia | exact H2].
Qed.

(** What holds of the state after any run of clicks that started in a
    state where it held. *)
Lemma session_invariant (calls : list (Env * string)) (st : State) (n : nat) :
  statsConsistent (downloadStats st) ->
  totalDownloads (downloadStats st) <= n ->
  (forall f, JsObject.get_own (downloading st) f <> Some true) ->
  let st' := session calls st in
  statsConsistent (downloadStats st')
  /\ totalDownloads (downloadStats st') <= n + List.length calls
  /\ (forall f, JsObject.get_own (downloading st') f <> Some true).
Proof.
  revert st n. induction calls as [|[env format] calls IH];
    intros st n Hs Hn Hf; cbv zeta.
  - cbn [session fold_left List.length]. rewrite Nat.add_0_r. auto.
  - cbn [session fold_left List.length fst snd].
    set (st1 := snd (fst (handleDownload env format st))).
    replace (n + S (List.length calls)) with (S n + List.length calls) by lia.
    apply (IH st1 (S n)).
    + destruct (handleDownload_stats env format st) as [E | [info E]];
        fold st1 in E; rewrite E; [exact Hs | now apply statsConsistent_step].
    + destruct (handleDownload_stats env format st) as [E | [info E]];
        fold st1 in E; rewrite E; cbn [totalDownloads]; lia.
    + intros f. unfold st1. rewrite handleDownload_flags.
      destruct (hasData env && String.eqb format f);
        [discriminate | apply Hf].
Qed.

(** X11. After any run of download clicks from the initial state, the
    history holds [min 10 totalDownloads] entries, so ten at most; the
    last download, if any, is its last entry; the counter is at most the
    number of clicks; and no busy flag is left set. Each single call
    keeps the first two facts. *)
Theorem download_history_keeps_the_last_ten :
  forall calls : list (Env * string),
    let st := session calls initialState in
    statsConsistent (downloadStats st)
    /\ List.length (downloadHistory (downloadStats st)) <= 10
    /\ totalDownloads (downloadStats st) <= List.length calls
    /\ (forall f, JsObject.get_own (downloading st) f <> Some true)
    /\ (forall env format st0,
          statsConsistent (downloadStats st0) ->
          statsConsistent
            (downloadStats (snd (fst (handleDownload env format st0))))).
Proof.
  intros calls st.
  destruct (session_invariant calls initialState 0) as [H1 [H2 H3]].
  - split; reflexivity.
  - apply Nat.le_refl.
  - intros f. discriminate.
  - split; [exact H1 |]. split; [| split; [exact H2 | split; [exact H3 |]]].
    + destruct H1 as [L _]. fold st in L. rewrite L. apply Nat.le_min_l.
    + intros env format st0 Hs.
      destruct (handleDownload_stats env format st0) as [E | [info E]];
        rewrite E; [exact Hs | now apply statsConsistent_step].
Qed.

(** X11 at one csv export from the initial state. *)
Lemma download_history_witness :
  statsConsistent
    (downloadStats
       (snd (fst (handleDownload (Sample.browser Sample.serving) "csv"
                                 initialState)))).
Proof.
  destruct (download_history_keeps_the_last_ten []) as [H [_ [_ [_ Step]]]].
  exact (Step (Sample.browser Sample.serving) "csv" initialState H).
Defined.

(** X12. A download of one format never changes the busy flag of
    another format. *)
Theorem download_leaves_other_formats_alone :
  forall (env : Env) (format other : string) (st : State),
    format <> other ->
    JsObject.get_own
      (downloading (snd (fst (handleDownload env format st)))) other
    = JsObject.get_own (downloading st) other.
Proof.
  intros env format other st N. rewrite handleDownload_flags.
  apply String.eqb_neq in N. rewrite N. now rewrite andb_false_r.
Qed.

(** X12 at a csv export and the flag of json. *)
Lemma download_other_formats_witness :
  JsObject.get_own
    (downloading
       (snd (fst (handleDownload (Sample.browser Sample.serving) "csv"
                                 initialState)))) "json"
  = None.
Proof.
  apply (download_leaves_other_formats_alone
           (Sample.browser Sample.serving) "csv" "json" initialState).
  discriminate.
Defined.

Lemma requests_sent (sent : list Request) (rest : list Event) :
  requests (map Sent sent ++ rest) = sent ++ requests rest.
Proof.
  induction sent as [|r sent IH]; [reflexivity |]. cbn. now rewrite <- IH.
Qed.

(** X13. When [downloadFile] fails, the one alert reads "Download
    failed: " followed by the non-empty [detail] of the server's
    response, if there is one, and by "Download failed" again otherwise;
    nothing is saved, and the requests of the handler are those of
    [downloadFile]. A rejection before any request carries no detail. *)
Theorem download_alert_shows_detail_or_repeats_itself :
  forall (env : Env) (format : string) (st : State) (e : JsError)
         (sent : list Request),
    hasData env = true ->
    import_failure env = None ->
    downloadFile (net env) format = (Throw e, sent) ->
    alerts (snd (handleDownload env format st))
    = [("Download failed: "
        ++ match serverDetail e with
           | Some d => d
           | None => "Download failed"
           end)%string]
    /\ saved (snd (handleDownload env format st)) = []
    /\ requests (snd (handleDownload env format st)) = sent
    /\ (sent = [] -> serverDetail e = None).
Proof.
  intros env format st e sent Hd Hi Hf.
  rewrite (handleDownload_cases env format st Hd), Hi, Hf. cbn [snd].
  change (alerts (?a :: ?l)) with (alerts l).
  change (saved (?a :: ?l)) with (saved l).
  change (requests (SetDownloading ?f ?b :: ?l)) with (requests l).
  rewrite saved_sent, alerts_sent.
  assert (M : message e = "Download failed"
              /\ (sent = [] -> response e = None)).
  { destruct (JsArray.includes validFormats format) eqn:V.
    - rewrite (downloadFile_valid (net env) format V) in Hf. cbv zeta in Hf.
      destruct (get (net env) _ _); [discriminate |].
      injection Hf as <- <-. split; [reflexivity | discriminate].
    - rewrite (downloadFile_invalid (net env) format V) in Hf.
      injection Hf as <- <-. split; reflexivity. }
  destruct M as [M R].
  split; [| split; [reflexivity | split]].
  - cbn. unfold failureDetail, serverDetail, or_else. rewrite M.
    destruct (response e) as [r |]; [| reflexivity].
    destruct (data r) as [d |]; [| reflexivity].
    now destruct (detail d) as [[|c s] |].
  - rewrite requests_sent. cbn. apply app_nil_r.
  - intros E. unfold serverDetail. now rewrite (R E).
Qed.

(** X13 at a request that times out. *)
Lemma download_alert_witness :
  alerts (snd (handleDownload
                 (Sample.browser (Sample.failing Sample.timeout_error))
                 "json" initialState))
  = ["Download failed: Download failed"].
Proof.
  exact (proj1 (download_alert_shows_detail_or_repeats_itself
                  (Sample.browser (Sample.failing Sample.timeout_error))
                  "json" initialState _ _ eq_refl eq_refl eq_refl)).
Defined.

End StatsFacts.

(** ** Strings: [parseInt] *)

Module ParseFacts.
Import JsString Spec JsStringFacts.

Lemma digitValue_digit (r : nat) :
  r < 10 -> digitValue 10 (digit r) = Some (Z.of_nat r).
Proof.
  intros H. do 10 (destruct r as [|r]; [reflexivity |]). lia.
Qed.

Lemma isDigit_digit (r : nat) : r < 10 -> isDigit (digit r) = true.
Proof.
  intros H. do 10 (destruct r as [|r]; [reflexivity |]). lia.
Qed.

(** Reading the decimal rendering of [n] gives [n] back. *)
Lemma parseDigits_decimal (fuel n : nat) (acc : string) :
  n < fuel ->
  parseDigits 10 (decimal_aux fuel n acc) None
  = parseDigits 10 acc (Some (Z.of_nat n)).
Proof.
  revert n acc. induction fuel as [|fuel IH]; intros n acc H; [lia |].
  cbn [decimal_aux].
  assert (Hr : n mod 10 < 10) by (apply Nat.mod_upper_bound; lia).
  pose proof (Nat.div_mod_eq n 10) as Hn.
  destruct (Nat.eqb_spec (n / 10) 0) as [E | N].
  - cbn [parseDigits]. rewrite (digitValue_digit _ Hr).
    do 2 f_equal. lia.
  - rewrite IH by (assert (n / 10 < n) by (apply Nat.div_lt; lia); lia).
    cbn [parseDigits]. rewrite (digitValue_digit _ Hr).
    do 2 f_equal. lia.
Qed.

Lemma decimal_digits (fuel n : nat) (acc : string) :
  all_digits acc = true -> all_digits (decimal_aux fuel n acc) = true.
Proof.
  revert n acc. induction fuel as [|fuel IH]; intros n acc H; [exact H |].
  cbn [decimal_aux].
  assert (Hr : n mod 10 < 10) by (apply Nat.mod_upper_bound; lia).
  assert (D : all_digits (String (digit (n mod 10)) acc) = true)
    by (cbn [all_digits]; now rewrite (isDigit_digit _ Hr)).
  destruct (n / 10 =? 0)%nat; [exact D | now apply IH].
Qed.

Lemma decimal_nonempty (fuel n : nat) (acc : string) :
  decimal_aux (S fuel) n acc <> "".
Proof.
  revert n acc. induction fuel as [|fuel IH]; intros n acc.
  - cbn [decimal_aux]. destruct (n / 10 =? 0)%nat; discriminate.
  - cbn [decimal_aux] in *. destruct (n / 10 =? 0)%nat; [discriminate |].
    apply IH.
Qed.

Lemma isDigit_plain (c : ascii) :
  isDigit c = true ->
  isWhiteSpace c = false /\ Ascii.eqb c "-" = false
  /\ Ascii.eqb c "+" = false /\ Ascii.eqb c "x" = false
  /\ Ascii.eqb c "X" = false.
Proof.
  destruct c as [[] [] [] [] [] [] [] []]; cbv; intros H;
    try discriminate; repeat split.
Qed.

(** A string of digits is read as a decimal numeral. *)
Lemma parseInt_digits (s : string) :
  all_digits s = true -> parseInt s = parseDigits 10 s None.
Proof.
  intros H. destruct s as [|c s]; [reflexivity |].
  cbn [all_digits] in H. apply andb_true_iff in H as [Hc Hs].
  destruct (isDigit_plain c Hc) as [W [M [P _]]].
  unfold parseInt. cbn [trimStart]. rewrite W, M, P.
  destruct s as [|x s].
  - now destruct (parseDigits 10 (String c "") None).
  - cbn [all_digits] in Hs. apply andb_true_iff in Hs as [Hx _].
    destruct (isDigit_plain x Hx) as [_ [_ [_ [X1 X2]]]].
    rewrite X1, X2, andb_false_r.
    now destruct (parseDigits 10 (String c (String x s)) None).
Qed.

Lemma parseInt_of_nat (n : nat) : parseInt (of_nat n) = Some (Z.of_nat n).
Proof.
  unfold of_nat. rewrite parseInt_digits by now apply decimal_digits.
  rewrite parseDigits_decimal by lia. reflexivity.
Qed.

(** [parseInt] reads back the decimal rendering of every integer. *)
Lemma parseInt_of_Z (z : Z) : parseInt (JsString.of_Z z) = Some z.
Proof.
  unfold JsString.of_Z. destruct (Z.ltb_spec z 0) as [L | G].
  - pose proof (parseInt_of_nat (Z.to_nat (- z))) as H.
    assert (D : all_digits (of_nat (Z.to_nat (- z))) = true)
      by (apply decimal_digits; reflexivity).
    rewrite (parseInt_digits _ D) in H.
    unfold parseInt. cbn [append trimStart isWhiteSpace].
    change (isWhiteSpace "-") with false. cbv iota.
    change (Ascii.eqb "-" "-") with true. cbv iota.
    destruct (of_nat (Z.to_nat (- z))) as [|c s] eqn:E.
    { exfalso. revert E. apply decimal_nonempty. }
    cbn [all_digits] in D. apply andb_true_iff in D as [Hc Hs].
    destruct s as [|x s].
    + rewrite H. f_equal. lia.
    + cbn [all_digits] in Hs. apply andb_true_iff in Hs as [Hx _].
      destruct (isDigit_plain x Hx) as [_ [_ [_ [X1 X2]]]].
      rewrite X1, X2, andb_false_r. rewrite H. f_equal. lia.
  - rewrite parseInt_of_nat. f_equal. lia.
Qed.

Example parseInt_samples :
  parseInt "" = None
  /\ parseInt "abc" = None
  /\ parseInt "  42px" = Some 42%Z
  /\ parseInt "-7" = Some (-7)%Z
  /\ parseInt "+7.9" = Some 7%Z
  /\ parseInt "0x1F" = Some 31%Z
  /\ parseInt "0x" = None
  /\ parseInt "1e3" = Some 1%Z
  /\ parseInt "010" = Some 10%Z.
Proof. repeat split. Qed.

End ParseFacts.

(** ** JobScraper.js and App.js: the form, a submit and its callbacks *)

Module FormFacts.
Import JsString Spec JsStringFacts ApiFacts TrimFacts RequestFacts ParseFacts.
Import JobScraper.

Lemma trim_length_whitespace (t : string) :
  2 <= String.length (trim t) -> whitespace_only t = false.
Proof.
  intros H. rewrite <- trim_length_zero.
  apply Nat.eqb_neq. lia.
Qed.

(** The [errors] object, by the two checks. *)
Lemma errorsOf_cases (form : FormData) :
  errorsOf form =
  (if (String.length (trim (jobTitle form)) <? 2)%nat
   then [("jobTitle",
          Some (if (String.length (trim (jobTitle form)) =? 0)%nat
                then "Job title is required"
                else "Job title must be at least 2 characters"))]
   else [])
  ++ (if ((pages form <? 1) || (pages form >? 10))%Z
      then [("pages", Some "Pages must be between 1 and 10")]
      else []).
Proof.
  unfold errorsOf.
  assert (T : truthy (trim (jobTitle form))
              = negb (String.length (trim (jobTitle form)) =? 0)%nat)
    by now destruct (trim (jobTitle form)).
  rewrite T.
  destruct (String.length (trim (jobTitle form))) as [|[|n]];
    destruct ((pages form <? 1) || (pages form >? 10))%Z; reflexivity.
Qed.

Lemma pages_check (p : Z) :
  ((p <? 1) || (p >? 10))%Z = false <-> (1 <= p <= 10)%Z.
Proof. rewrite orb_false_iff, Z.ltb_ge, Z.gtb_ltb, Z.ltb_ge. lia. Qed.

Lemma pages_check_true (p : Z) :
  ((p <? 1) || (p >? 10))%Z = true <-> (p < 1 \/ 10 < p)%Z.
Proof. rewrite orb_true_iff, Z.ltb_lt, Z.gtb_ltb, Z.ltb_lt. tauto. Qed.

(** What [validateForm] records, field by field. *)
Lemma validateForm_errors (st : State) :
  let form := formData st in
  let st' := snd (validateForm st) in
  hasValidationError st' name_jobTitle
    = (String.length (trim (jobTitle form)) <? 2)%nat
  /\ hasValidationError st' name_pages
     = ((pages form <? 1) || (pages form >? 10))%Z
  /\ hasValidationError st' name_location = false
  /\ fst (validateForm st)
     = negb (String.length (trim (jobTitle form)) <? 2)%nat
       && negb ((pages form <? 1) || (pages form >? 10))%Z
  /\ (fst (validateForm st) = true <-> validationErrors st' = []).
Proof.
  cbv zeta. unfold hasValidationError, validateForm.
  cbn [fst snd validationErrors key]. rewrite errorsOf_cases.
  destruct (String.length (trim (jobTitle (formData st))) <? 2)%nat;
    destruct ((pages (formData st) <? 1) || (pages (formData st) >? 10))%Z;
    destruct (String.length (trim (jobTitle (formData st))) =? 0)%nat;
    cbn; repeat split; discriminate.
Qed.

Lemma validateForm_true (st : State) :
  fst (validateForm st) = true <->
  2 <= String.length (trim (jobTitle (formData st)))
  /\ (1 <= pages (formData st) <= 10)%Z.
Proof.
  destruct (validateForm_errors st) as [_ [_ [_ [E _]]]]. rewrite E.
  rewrite andb_true_iff, !negb_true_iff, Nat.ltb_ge, pages_check.
  tauto.
Qed.

Lemma handleSubmit_invalid (env : Env) (st : State) :
  fst (validateForm st) = false ->
  handleSubmit env st = (snd (validateForm st), []).
Proof.
  intros H. unfold handleSubmit.
  destruct (validateForm st) as [valid st0]. cbn [fst snd] in *.
  now rewrite H.
Qed.

Lemma handleSubmit_valid (env : Env) (st : State) :
  fst (validateForm st) = true ->
  handleSubmit env st =
  (setIsLoading false (fst (submitBlock env (started st))),
   ScrapeStart :: snd (submitBlock env (started st))).
Proof.
  intros H. unfold handleSubmit, started.
  destruct (validateForm st) as [valid st0]. cbn [fst snd] in *.
  rewrite H. cbn [negb].
  now destruct (submitBlock env _).
Qed.

(** Thrown by [scrapeJobs], an error shows its own message where the
    handlers look for the server's detail first. *)
Lemma failureDetail_thrown (net : Api.Backend)
      (jobTitle location : option string) (pages : option Z)
      (e : Api.JsError) (sent : list Api.Request) :
  Api.scrapeJobs net jobTitle location pages = (Api.Throw e, sent) ->
  failureDetail e = Api.message e /\ Api.message e <> "".
Proof.
  intros H.
  destruct (scrapeJobs_throws net jobTitle location pages e sent H)
    as [cause [-> _]].
  split; [| apply scrapeErrorMessage_nonempty].
  unfold failureDetail, Api.scrapeErrorMessage.
  cbn [Api.response Api.message].
  destruct (Api.response cause) as [r |]; [| reflexivity].
  destruct (Api.data r) as [d |]; [| reflexivity].
  destruct (Api.detail d) as [[|c s] |]; reflexivity.
Qed.

Lemma submitted_sent (sent : list Api.Request) (rest : list Event) :
  submitted (map Sent sent ++ rest) = sent ++ submitted rest.
Proof.
  induction sent as [|r sent IH]; [reflexivity |]. cbn. now rewrite <- IH.
Qed.

Lemma fold_receive_sent (sent : list Api.Request) (rest : list Event)
      (app : App.State) :
  fold_left App.receive (map Sent sent ++ rest) app
  = fold_left App.receive rest app.
Proof.
  revert app. induction sent as [|r sent IH]; intros app; [reflexivity |].
  cbn. apply IH.
Qed.

(** What the page holds after [handleScrapeError]. *)
Lemma handleScrapeError_reports (error : Api.JsError) (app : App.State) :
  reportsFailure (App.handleScrapeError error app).
Proof.
  split; [reflexivity |]. split; [reflexivity |].
  eexists. exists (if truthy (Api.message error) then Api.message error
                   else "Unknown error occurred").
  split; [reflexivity |]. split; [reflexivity |]. split; [reflexivity |].
  split; [| split; [reflexivity |]].
  - destruct (Api.message error); simpl; discriminate.
  - unfold App.notice, App.handleScrapeError, JobTable.noData.
    cbn [App.scrapeResults Api.jobs Api.success Api.result_message].
    now destruct (Api.message error).
Qed.

(** The page after the callbacks of a submit that ended in
    [onScrapeError]. *)
Lemma receive_failure (env : Env) (app : App.State)
      (sent : list Api.Request) (err : Api.JsError) :
  onScrapeError_given env = true ->
  reportsFailure
    (fold_left App.receive
               (ScrapeStart :: map Sent sent ++ reportError env err) app).
Proof.
  intros Hg. cbn [fold_left]. rewrite fold_receive_sent.
  unfold reportError. rewrite Hg. cbn [fold_left App.receive].
  apply handleScrapeError_reports.
Qed.

(** X14. [validateForm] accepts a form exactly when its trimmed title has
    two characters or more and its page count lies in 1..10, and exactly
    then it records no error; what it accepts, [scrapeJobs] accepts and
    sends. Otherwise it records an error for the title when the trimmed
    title is shorter than two characters and an error for the pages when
    they are out of range, never one for the location, and it changes
    nothing else. It is stricter than the client: the title "C" is
    refused by the form and would be sent by [scrapeJobs]. *)
Theorem form_validation_is_stricter_than_the_client :
  forall (st : State) (net : Api.Backend),
    let form := formData st in
    let st' := snd (validateForm st) in
    (fst (validateForm st) = true <->
       2 <= String.length (trim (jobTitle form))
       /\ (1 <= pages form <= 10)%Z)
    /\ (fst (validateForm st) = true <-> validationErrors st' = [])
    /\ (fst (validateForm st) = true ->
        snd (Api.scrapeJobs net (Some (jobTitle form))
                            (Some (location form)) (Some (pages form)))
        = [Api.POST "/scrape"
             (requestOf (jobTitle form) (Some (location form))
                        (Some (pages form)))])
    /\ (hasValidationError st' name_jobTitle = true <->
          String.length (trim (jobTitle form)) < 2)
    /\ (hasValidationError st' name_pages = true <->
          (pages form < 1 \/ 10 < pages form)%Z)
    /\ hasValidationError st' name_location = false
    /\ (formData st' = form /\ isLoading st' = isLoading st
        /\ error st' = error st)
    /\ (fst (validateForm
               {| formData := {| jobTitle := "C"; location := "Remote";
                                 pages := 1 |};
                  isLoading := false; error := "";
                  validationErrors := JsObject.empty |}) = false
        /\ snd (Api.scrapeJobs net (Some "C") (Some "Remote") (Some 1%Z))
           <> []).
Proof.
  intros st net form st'.
  pose proof (validateForm_true st) as V. fold form in V.
  destruct (validateForm_errors st) as [E1 [E2 [E3 [_ E5]]]].
  fold form in E1, E2. fold st' in E1, E2, E3, E5.
  split; [exact V |]. split; [exact E5 |].
  split; [| split; [| split; [| split; [exact E3 |]]]].
  - intros Hv. apply V in Hv as [Ht Hp].
    rewrite (scrapeJobs_accepted net (jobTitle form) (Some (location form))
               (Some (pages form)) (trim_length_whitespace _ Ht) Hp).
    reflexivity.
  - rewrite E1. apply Nat.ltb_lt.
  - rewrite E2. apply pages_check_true.
  - split; [repeat split |]. split; [reflexivity |].
    rewrite (scrapeJobs_accepted net "C" (Some "Remote") (Some 1%Z) eq_refl)
      by (cbn; lia).
    discriminate.
Qed.

(** X14 at the filled sample form. *)
Lemma form_validation_witness :
  snd (Api.scrapeJobs Sample.serving (Some " dev ") (Some "Remote")
                      (Some 3%Z))
  = [Api.POST "/scrape"
       {| Api.job_title := "dev"; Api.location := "Remote";
          Api.pages := 3 |}].
Proof.
  destruct (form_validation_is_stricter_than_the_client
              Sample.filled Sample.serving) as [_ [_ [H _]]].
  exact (H eq_refl).
Defined.

(** X15. A submit of the form, with App as the parent (which gives all
    three callbacks). When the form does not pass [validateForm],
    nothing is sent, no callback is called, and the form only gets its
    validation errors. When it passes, [onScrapeStart] is called first,
    the one request of [scrapeJobs] is sent unless the module fails to
    load, and at the end neither the form nor the page is loading and
    the page has a result: either the answer of the backend, which
    reports success, with no error text in the form; or a failure
    report, with an error text in the form, no job, the notice in place
    of the table, and download buttons that do nothing when clicked. *)
Theorem submit_settles_the_form_and_the_page :
  forall (env : Env) (scraper : State) (app : App.State),
    onScrapeError_given env = true ->
    let result := App.submit env (scraper, app) in
    let scraper' := fst (fst result) in
    let app' := snd (fst result) in
    let evs := snd result in
    let form := formData scraper in
    let call :=
      Api.scrapeJobs (net env) (Some (jobTitle form)) (Some (location form))
                     (Some (pages form)) in
    if fst (validateForm scraper)
    then
      isLoading scraper' = false
      /\ App.isLoading app' = false
      /\ formData scraper' = form
      /\ validationErrors scraper' = []
      /\ hd_error evs = Some ScrapeStart
      /\ submitted evs
         = match import_failure env with
           | None => [Api.POST "/scrape"
                        (requestOf (jobTitle form) (Some (location form))
                                   (Some (pages form)))]
           | Some _ => []
           end
      /\ ((exists results,
              import_failure env = None
              /\ fst call = Api.Normal results
              /\ Api.success results = true
              /\ App.scrapeResults app' = Some results
              /\ error scraper' = ""
              /\ App.hasData app'
                 = Some (0 <? List.length (Api.jobs results))%nat)
          \/ (reportsFailure app'
              /\ error scraper' <> ""
              /\ forall (button : DownloadButtons.Env) (format : string)
                        (st : DownloadButtons.State),
                   App.hasData app' = Some (DownloadButtons.hasData button) ->
                   DownloadButtons.handleDownload button format st
                   = (Api.Normal tt, st, [])))
    else
      scraper' = snd (validateForm scraper) /\ app' = app /\ evs = []
      /\ validationErrors scraper' <> []
      /\ isLoading scraper' = isLoading scraper.
Proof.
  intros env scraper app Hg result scraper' app' evs form call.
  unfold scraper', app', evs, result, App.submit. cbn [fst snd].
  destruct (validateForm_errors scraper) as [_ [_ [_ [_ Verr]]]].
  destruct (fst (validateForm scraper)) eqn:V.
  2: { rewrite (handleSubmit_invalid env scraper V). cbn [fst snd fold_left].
       repeat split. intros E. apply Verr in E. discriminate. }
  rewrite (handleSubmit_valid env scraper V). cbn [fst snd].
  assert (E0 : validationErrors (snd (validateForm scraper)) = [])
    by now apply Verr.
  apply validateForm_true in V as [Ht Hp]. fold form in Ht, Hp.
  pose proof (scrapeJobs_accepted (net env) (jobTitle form)
                (Some (location form)) (Some (pages form))
                (trim_length_whitespace _ Ht) Hp) as Hcall.
  cbv zeta in Hcall. fold call in Hcall.
  assert (Inert : forall app1, reportsFailure app1 ->
            forall (button : DownloadButtons.Env) (format : string)
                   (st : DownloadButtons.State),
              App.hasData app1 = Some (DownloadButtons.hasData button) ->
              DownloadButtons.handleDownload button format st
              = (Api.Normal tt, st, [])).
  { intros app1 [_ [Hh _]] button format st Hb. rewrite Hh in Hb.
    injection Hb as Hb. unfold DownloadButtons.handleDownload.
    now rewrite <- Hb. }
  unfold submitBlock. destruct (import_failure env) as [err |].
  - unfold submitFailed. cbn [fst snd].
    pose proof (receive_failure env app [] err Hg) as R.
    unfold reportError in *. rewrite Hg in *.
    repeat (split; [first [reflexivity | exact E0] |]).
    right. split; [exact R |]. split; [discriminate | exact (Inert _ R)].
  - change (formData (started scraper)) with form. fold call.
    rewrite Hcall.
    destruct (Api.post (net env) "/scrape" _) as [results | cause] eqn:P.
    + destruct (Api.success results) eqn:S; cbn [fst snd].
      * repeat (split; [first [reflexivity | exact E0] |]).
        left. exists results. repeat split. exact S.
      * match goal with
        | |- context [reportError env ?e] =>
            pose proof (receive_failure env app
                          [Api.POST "/scrape"
                             (requestOf (jobTitle form)
                                        (Some (location form))
                                        (Some (pages form)))] e Hg) as R
        end.
        unfold reportError in *. rewrite Hg in *.
        repeat (split; [first [reflexivity | exact E0] |]).
        right. split; [exact R |]. split; [| exact (Inert _ R)].
        apply or_else_nonempty. discriminate.
    + unfold submitFailed. cbn [fst snd].
      match goal with
      | |- context [reportError env ?e] =>
          pose proof (receive_failure env app
                        [Api.POST "/scrape"
                           (requestOf (jobTitle form)
                                      (Some (location form))
                                      (Some (pages form)))] e Hg) as R
      end.
      unfold reportError in *. rewrite Hg in *.
      repeat (split; [first [reflexivity | exact E0] |]).
      right. split; [exact R |]. split; [discriminate | exact (Inert _ R)].
Qed.

(** X15 at the filled sample form, against the sample backend. *)
Lemma submit_settles_witness :
  App.isLoading
    (snd (fst (App.submit (Sample.page Sample.serving)
                          (Sample.filled, App.initialState)))) = false
  /\ submitted (snd (App.submit (Sample.page Sample.serving)
                                (Sample.filled, App.initialState)))
     = [Api.POST "/scrape"
          {| Api.job_title := "dev"; Api.location := "Remote";
             Api.pages := 3 |}].
Proof.
  pose proof (submit_settles_the_form_and_the_page
                (Sample.page Sample.serving) Sample.filled App.initialState
                eq_refl) as H.
  cbv zeta in H.
  change (fst (validateForm Sample.filled)) with true in H. cbv iota in H.
  destruct H as [_ [H1 [_ [_ [_ [H2 _]]]]]].
  split; [exact H1 | exact H2].
Defined.

(** X16. How a scrape that fails after a valid submit is reported, with
    App as the parent and the module loaded. When [scrapeJobs] throws,
    the form shows "Error: " followed by the message of the error, and
    the page shows that message, which is not empty. When the backend
    answers without success, form and page show the message of the
    answer, or "Scraping failed" when it has none, and the jobs of the
    answer are dropped. In both cases the callbacks are [onScrapeStart]
    and then, after the request, [onScrapeError]. *)
Theorem failed_scrape_is_reported_with_its_message :
  forall (env : Env) (scraper : State) (app : App.State),
    onScrapeError_given env = true ->
    fst (validateForm scraper) = true ->
    import_failure env = None ->
    let form := formData scraper in
    let call :=
      Api.scrapeJobs (net env) (Some (jobTitle form)) (Some (location form))
                     (Some (pages form)) in
    let result := App.submit env (scraper, app) in
    let shown :=
      match App.scrapeResults (snd (fst result)) with
      | Some results => Api.result_message results
      | None => None
      end in
    (forall e, fst call = Api.Throw e ->
       error (fst (fst result)) = ("Error: " ++ Api.message e)%string
       /\ shown = Some (Api.message e)
       /\ Api.message e <> ""
       /\ snd result = ScrapeStart :: map Sent (snd call) ++ [ScrapeError e])
    /\ (forall results, fst call = Api.Normal results ->
          Api.success results = false ->
          let msg := or_else (Api.result_message results) "Scraping failed" in
          error (fst (fst result)) = msg
          /\ shown = Some msg
          /\ App.hasData (snd (fst result)) = Some false
          /\ snd result
             = ScrapeStart :: map Sent (snd call)
                 ++ [ScrapeError (Api.new_Error msg)]).
Proof.
  intros env scraper app Hg V Hi form call result shown.
  unfold shown, result, App.submit. cbn [fst snd].
  rewrite (handleSubmit_valid env scraper V). cbn [fst snd].
  unfold submitBlock. rewrite Hi.
  change (formData (started scraper)) with form. fold call.
  split.
  - intros e He. destruct call as [c sent] eqn:C. cbn [fst snd] in *.
    subst c. unfold submitFailed, reportError. rewrite Hg. cbn [fst snd].
    destruct (failureDetail_thrown _ _ _ _ e sent C) as [D N].
    rewrite D. cbn [fold_left App.receive]. rewrite fold_receive_sent.
    cbn [fold_left App.receive App.handleScrapeError App.scrapeResults
         Api.result_message].
    split; [reflexivity |]. split; [| split; [exact N | reflexivity]].
    destruct (Api.message e); [contradiction | reflexivity].
  - intros results Hr S.
    set (msg := or_else (Api.result_message results) "Scraping failed").
    destruct call as [c sent] eqn:C.
    cbn [fst snd] in *. subst c. rewrite S.
    unfold reportError. rewrite Hg. cbn [fst snd].
    cbn [fold_left App.receive]. rewrite fold_receive_sent.
    cbn [fold_left App.receive App.handleScrapeError App.scrapeResults
         Api.result_message Api.new_Error Api.message].
    fold msg.
    assert (N : msg <> "") by (apply or_else_nonempty; discriminate).
    split; [reflexivity |]. split; [| split; reflexivity].
    destruct msg; [contradiction | reflexivity].
Qed.

(** X16 at a request that times out. *)
Lemma failed_scrape_witness :
  error (fst (fst (App.submit
                     (Sample.page (Sample.failing Sample.timeout_error))
                     (Sample.filled, App.initialState))))
  = "Error: Request timed out. Scraping took too long.".
Proof.
  destruct (failed_scrape_is_reported_with_its_message
              (Sample.page (Sample.failing Sample.timeout_error))
              Sample.filled App.initialState eq_refl eq_refl eq_refl)
    as [H _].
  exact (proj1 (H _ eq_refl)).
Defined.

(** X17. A change of an input clears the error text of the form and the
    validation error of that input, and leaves the validation errors of
    the other inputs and the loading flag alone. A change of the title
    or of the location stores the value as typed. A change of the pages
    stores [parseInt(value) || 1]: never 0; 1 when the value does not
    start with a number or is a zero; and the integer [n] when the value
    is the decimal rendering of [n <> 0] (up to 2^53, where a Number is
    the integer), so re-entering the page count shown gives it back. *)
Theorem input_change_clears_errors_and_keeps_pages_usable :
  forall (name : InputName) (value : string) (st : State),
    let st' := handleInputChange name value st in
    error st' = ""
    /\ hasValidationError st' name = false
    /\ (forall other, other <> name ->
          hasValidationError st' other = hasValidationError st other)
    /\ isLoading st' = isLoading st
    /\ match name with
       | name_jobTitle =>
           formData st' = {| jobTitle := value;
                             location := location (formData st);
                             pages := pages (formData st) |}
       | name_location =>
           formData st' = {| jobTitle := jobTitle (formData st);
                             location := value;
                             pages := pages (formData st) |}
       | name_pages =>
           jobTitle (formData st') = jobTitle (formData st)
           /\ location (formData st') = location (formData st)
           /\ pages (formData st') <> 0%Z
           /\ (parseInt value = None \/ parseInt value = Some 0%Z ->
               pages (formData st') = 1%Z)
           /\ (forall n, parseInt value = Some n -> n <> 0%Z ->
                 (Z.abs n <= 2 ^ 53)%Z -> pages (formData st') = n)
           /\ (forall n, value = JsString.of_Z n -> n <> 0%Z ->
                 (Z.abs n <= 2 ^ 53)%Z -> pages (formData st') = n)
       end.
Proof.
  intros name value st st'. unfold st', handleInputChange.
  cbn [error isLoading formData].
  split; [now destruct (error st) |].
  split; [| split; [| split; [reflexivity |]]].
  - destruct (hasValidationError st name) eqn:H; [| exact H].
    unfold hasValidationError. cbn [validationErrors].
    now rewrite DownloadFacts.get_own_define.
  - intros other N. destruct (hasValidationError st name); [| reflexivity].
    unfold hasValidationError at 1. cbn [validationErrors].
    rewrite DownloadFacts.get_own_define_other; [reflexivity |].
    destruct name, other; try discriminate; congruence.
  - destruct name; try reflexivity.
    cbn [jobTitle location pages].
    split; [reflexivity |]. split; [reflexivity |].
    split; [| split; [| split]].
    + destruct (parseInt value) as [n |]; [| discriminate].
      destruct (Z.eqb_spec n 0); [discriminate | assumption].
    + intros [-> | ->]; reflexivity.
    + intros n -> N _. apply Z.eqb_neq in N. now rewrite N.
    + intros n -> N _. rewrite parseInt_of_Z.
      apply Z.eqb_neq in N. now rewrite N.
Qed.

(** X17 at the page counts "7", "" and "0". *)
Lemma input_change_witness :
  pages (formData (handleInputChange name_pages "7" Sample.filled)) = 7%Z
  /\ pages (formData (handleInputChange name_pages "" Sample.filled)) = 1%Z
  /\ pages (formData (handleInputChange name_pages "0" Sample.filled)) = 1%Z.
Proof.
  destruct (input_change_clears_errors_and_keeps_pages_usable
              name_pages "7" Sample.filled)
    as [_ [_ [_ [_ [_ [_ [_ [_ [H _]]]]]]]]].
  destruct (input_change_clears_errors_and_keeps_pages_usable
              name_pages "" Sample.filled)
    as [_ [_ [_ [_ [_ [_ [_ [H1 _]]]]]]]].
  destruct (input_change_clears_errors_and_keeps_pages_usable
              name_pages "0" Sample.filled)
    as [_ [_ [_ [_ [_ [_ [_ [H0 _]]]]]]]].
  split; [apply H; [reflexivity | discriminate | cbn; lia] |].
  split; [apply H1; now left | apply H0; now right].
Defined.

End FormFacts.

(** ** DownloadButtons.js: the size of the last download *)

Module SizeFacts.
Import QArith Qpower Lqa.
Import JsNumber FloatSpec JsNumberFacts.
Local Open Scope Z_scope.

Lemma of_nat_1024 :
  of_nat 1024 = S754_finite false 4503599627370496 (-42).
Proof. reflexivity. Qed.

(** Dividing a normal Number by 1024 lowers its exponent by ten and
    rounds nothing. *)
Lemma div_1024_exact (m : positive) (e : Z) :
  2 ^ 52 <= Z.pos m < 2 ^ 53 -> -52 <= e <= 0 ->
  div (S754_finite false m e) (of_nat 1024) = S754_finite false m (e - 10).
Proof.
  intros Rm He. rewrite of_nat_1024.
  unfold div, SFdiv, SFdiv_core_binary.
  rewrite (Zdigits2_canonical m Rm).
  change (Zdigits2 (Z.pos 4503599627370496)) with 53.
  replace (Z.min (fexp prec emax (53 + e - (53 + -42))) (e - -42))
    with (e - 11) by (unfold fexp, emin, prec, emax; lia).
  replace (e - -42 - (e - 11)) with 53 by lia.
  cbv iota beta. rewrite Z.shiftl_mul_pow2 by lia.
  assert (P53 : 2 ^ 53 = 9007199254740992) by reflexivity.
  assert (P52 : 2 ^ 52 = 4503599627370496) by reflexivity.
  pose proof (Z_div_mod (Z.pos m * 2 ^ 53) (Z.pos 4503599627370496) eq_refl)
    as D.
  destruct (Z.div_eucl (Z.pos m * 2 ^ 53) (Z.pos 4503599627370496))
    as [q r].
  destruct D as [D1 D2]. rewrite P53 in D1.
  assert (Eq : q = 2 * Z.pos m) by lia.
  assert (Er : r = 0) by lia.
  subst q r. cbn [xorb].
  change (new_location (Z.pos 4503599627370496) 0) with loc_Exact.
  set (x := dyadic (2 * Z.pos m) (e - 11)).
  assert (Hb : bracket (2 * Z.pos m) (e - 11) loc_Exact x)
    by (cbn [bracket]; reflexivity).
  assert (D54 : Zdigits2 (2 * Z.pos m) = 54).
  { apply Zdigits2_unique; [| lia].
    change (2 ^ (54 - 1)) with 9007199254740992.
    change (2 ^ 54) with 18014398509481984. rewrite P52, P53 in Rm. lia. }
  destruct (binary_round_aux_nearest false (2 * Z.pos m) (e - 11) loc_Exact x)
    as [m' [e' [E [Rm' [Re' [_ [E1 E2]]]]]]].
  - rewrite P52 in *. lia.
  - exact Hb.
  - rewrite D54. lia.
  - rewrite E. rewrite D54 in Re', E1, E2.
    replace (54 + (e - 11) - 53) with (e - 10) in * by lia.
    replace (54 + (e - 11) - 52) with (e - 9) in * by lia.
    assert (Ex : (2 * x == dyadic (2 * Z.pos m) (e - 10))%Q).
    { unfold x. replace (e - 10) with (e - 11 + 1) by lia.
      now rewrite dyadic_succ. }
    rewrite Ex in E1, E2.
    assert (P1 : (pow2 (e - 10) == dyadic 1 (e - 10))%Q).
    { unfold dyadic. change (inject_Z 1) with 1%Q. ring. }
    rewrite P1 in E1, E2.
    destruct (Z.eq_dec e' (e - 10)) as [-> | Ne].
    + f_equal.
      assert (L1 : 2 * Z.pos m' - 2 * Z.pos m < 2).
      { apply (dyadic_lt_inv _ _ (e - 10)).
        rewrite <- (Z.add_opp_r (2 * Z.pos m')), dyadic_plus.
        replace (- (2 * Z.pos m)) with ((-1) * (2 * Z.pos m)) by lia.
        rewrite (dyadic_mult (-1)).
        change (inject_Z (-1)) with (-1 # 1)%Q.
        pose proof (dyadic_one_pos (e - 10)) as H1.
        replace 2 with (1 + 1) at 4 by lia. rewrite (dyadic_plus 1 1).
        lra. }
      assert (L2 : 2 * Z.pos m - 2 * Z.pos m' < 2).
      { apply (dyadic_lt_inv _ _ (e - 10)).
        rewrite <- (Z.add_opp_r (2 * Z.pos m)), dyadic_plus.
        replace (- (2 * Z.pos m')) with ((-1) * (2 * Z.pos m')) by lia.
        rewrite (dyadic_mult (-1)).
        change (inject_Z (-1)) with (-1 # 1)%Q.
        pose proof (dyadic_one_pos (e - 10)) as H1.
        replace 2 with (1 + 1) at 4 by lia. rewrite (dyadic_plus 1 1).
        lra. }
      lia.
    + exfalso. assert (e' = e - 10 + 1) by lia. subst e'.
      rewrite dyadic_succ in E1.
      assert (L1 : 2 * (2 * Z.pos m') - 2 * Z.pos m < 2).
      { apply (dyadic_lt_inv _ _ (e - 10)).
        rewrite <- (Z.add_opp_r (2 * (2 * Z.pos m'))), dyadic_plus.
        replace (- (2 * Z.pos m)) with ((-1) * (2 * Z.pos m)) by lia.
        rewrite (dyadic_mult (-1)), (dyadic_mult 2).
        change (inject_Z (-1)) with (-1 # 1)%Q.
        change (inject_Z 2) with 2%Q.
        pose proof (dyadic_one_pos (e - 10)) as H1.
        replace 2 with (1 + 1) at 5 by lia. rewrite (dyadic_plus 1 1).
        lra. }
      rewrite P52, P53 in *. lia.
Qed.

(** [Math.round(size / 1024)] is [size / 1024] rounded to the nearest
    integer, halves up, with no error from the division. *)
Lemma sizeInKB_exact (size : nat) :
  Z.of_nat size < 2 ^ 53 ->
  DownloadButtons.sizeInKB size = of_Z ((Z.of_nat size + 512) / 1024).
Proof.
  intros Hb. unfold DownloadButtons.sizeInKB, of_nat at 1.
  destruct (Z.of_nat size) as [| p | p] eqn:Ep; try lia.
  { reflexivity. }
  destruct (of_Z_pos p Hb) as [m [e [R [D [_ [V He]]]]]].
  rewrite R, (div_1024_exact m e (canonical_range m D) He).
  cbn [Math_round]. unfold of_Z. f_equal.
  pose proof (round_half_up_floor m (e - 10)) as [F1 F2].
  set (k := round_half_up false m (e - 10)) in *.
  assert (Ey : (dyadic (Z.pos m) (e - 10)
                == inject_Z (Z.pos p) * (1 # 1024))%Q).
  { unfold dyadic. replace (e - 10) with (e + -10) by lia.
    rewrite pow2_add, Qmult_assoc.
    fold (dyadic (Z.pos m) e).
    rewrite (dyadic_exact m p e) by (lia || exact V).
    assert (P10 : (pow2 (-10) == 1 # 1024)%Q) by reflexivity.
    now rewrite P10. }
  rewrite Ey in F1, F2.
  assert (L : 1024 * k <= Z.pos p + 512).
  { rewrite Zle_Qle, inject_Z_plus, inject_Z_mult.
    change (inject_Z 1024) with 1024%Q. change (inject_Z 512) with 512%Q.
    lra. }
  assert (U : Z.pos p + 512 < 1024 * k + 1024).
  { rewrite Zlt_Qlt, !inject_Z_plus, inject_Z_mult.
    change (inject_Z 1024) with 1024%Q. change (inject_Z 512) with 512%Q.
    lra. }
  apply (Z.div_unique (Z.pos p + 512) 1024 k (Z.pos p + 512 - 1024 * k));
    lia.
Qed.

(** The sizes around one half and one and a half KB. *)
Example sizeInKB_samples :
  DownloadButtons.sizeInKB 0 = of_Z 0
  /\ DownloadButtons.sizeInKB 511 = of_Z 0
  /\ DownloadButtons.sizeInKB 512 = of_Z 1
  /\ DownloadButtons.sizeInKB 1535 = of_Z 1
  /\ DownloadButtons.sizeInKB 1536 = of_Z 2.
Proof. repeat split. Qed.

(** X18. After a download that saved a file of fewer than 2^53 bytes,
    the statistics panel shows as the size of the last download the
    number of bytes divided by 1024 and rounded to the nearest integer,
    halves up: the binary64 division and [Math.round] lose nothing.
    Before the first download the panel shows no size. *)
Theorem last_download_size_is_shown_in_whole_KB :
  forall (env : DownloadButtons.Env) (format : string)
         (st : DownloadButtons.State) (blob : Api.Blob) (url : string),
    DownloadButtons.hasData env = true ->
    DownloadButtons.import_failure env = None ->
    fst (Api.downloadFile (DownloadButtons.net env) format)
      = Api.Normal blob ->
    DownloadButtons.createObjectURL env blob = Api.Normal url ->
    Z.of_nat (Api.size blob) < 2 ^ 53 ->
    DownloadButtons.lastSizeInKB
      (DownloadButtons.downloadStats
         (snd (fst (DownloadButtons.handleDownload env format st))))
    = Some (of_Z ((Z.of_nat (Api.size blob) + 512) / 1024))
    /\ DownloadButtons.lastSizeInKB
         (DownloadButtons.downloadStats DownloadButtons.initialState)
       = None.
Proof.
  intros env format st blob url Hd Hi Hf Hu Hb.
  split; [| reflexivity].
  rewrite (StatsFacts.handleDownload_cases env format st Hd), Hi.
  destruct (Api.downloadFile (DownloadButtons.net env) format)
    as [c sent].
  cbn [fst] in Hf. subst c. rewrite Hu.
  cbn [fst snd Spec.settled DownloadButtons.downloadStats].
  unfold DownloadButtons.lastSizeInKB.
  cbn [DownloadButtons.totalDownloads DownloadButtons.lastDownload
       Spec.infoOf DownloadButtons.info_size].
  assert (T : (0 <? DownloadButtons.totalDownloads
                      (DownloadButtons.downloadStats st) + 1)%nat = true)
    by (apply Nat.ltb_lt; lia).
  rewrite T. f_equal. now apply sizeInKB_exact.
Qed.

(** X18 on the sample page, whose backend answers with 2048 bytes. *)
Lemma last_download_size_witness :
  DownloadButtons.lastSizeInKB
    (DownloadButtons.downloadStats
       (snd (fst (DownloadButtons.handleDownload
                    (Sample.browser Sample.serving) "csv"
                    DownloadButtons.initialState))))
  = Some (of_Z 2).
Proof.
  exact (proj1 (last_download_size_is_shown_in_whole_KB
                  (Sample.browser Sample.serving) "csv"
                  DownloadButtons.initialState {| Api.size := 2048 |}
                  "blob:1" eq_refl eq_refl eq_refl eq_refl eq_refl)).
Defined.

End SizeFacts.

(** ** JobTable: the keys of the rows *)

Module KeyFacts.
Import JsString JobTable Spec JsStringFacts ParseFacts ViewFacts.

Lemma all_digits_dash (a d : string) :
  all_digits (a ++ String "-" d) = false.
Proof.
  induction a as [|c a IH]; [reflexivity |].
  change (all_digits (String c a ++ String "-" d))
    with (isDigit c && all_digits (a ++ String "-" d)).
  rewrite IH. apply andb_false_r.
Qed.

(** What follows the last hyphen, when it is a numeral, is determined by
    the whole. *)
Lemma last_dash (a a' d d' : string) :
  all_digits d = true -> all_digits d' = true ->
  (a ++ String "-" d = a' ++ String "-" d')%string -> d = d'.
Proof.
  intros Hd Hd'. revert a'. induction a as [|c a IH]; intros [|c' a'] E.
  - now injection E.
  - injection E as _ E. rewrite E, all_digits_dash in Hd. discriminate.
  - injection E as _ E. rewrite <- E, all_digits_dash in Hd'. discriminate.
  - injection E as _ E. exact (IH a' E).
Qed.

Lemma of_nat_digits (n : nat) : all_digits (of_nat n) = true.
Proof. unfold of_nat. now apply decimal_digits. Qed.

Lemma of_nat_inj (i j : nat) : of_nat i = of_nat j -> i = j.
Proof.
  intros E. pose proof (parseInt_of_nat i) as Hi.
  rewrite E, parseInt_of_nat in Hi. injection Hi as Hi. lia.
Qed.

Section Keys.
Variable written : option string -> string.

(** Two keys that are equal were made for the same index. *)
Lemma rowKey_index (job job' : Job) (i j : nat) :
  rowKey written job i = rowKey written job' j -> i = j.
Proof.
  unfold rowKey. intros E. apply of_nat_inj.
  rewrite <- !(append_assoc (written (Title _))) in E.
  rewrite <- !(append_assoc (written (Title _) ++ "-")) in E.
  exact (last_dash _ _ _ _ (of_nat_digits i) (of_nat_digits j) E).
Qed.

Lemma rowKeysFrom_index (i : nat) (rows : list Job) (k : string) :
  In k (rowKeysFrom written i rows) ->
  exists job j, i <= j /\ k = rowKey written job j.
Proof.
  revert i. induction rows as [|job rows IH]; intros i; [intros [] |].
  intros [<- | H].
  - now exists job, i.
  - destruct (IH (S i) H) as [job' [j [L E]]]. exists job', j.
    split; [lia | exact E].
Qed.

Lemma rowKeysFrom_nodup (i : nat) (rows : list Job) :
  NoDup (rowKeysFrom written i rows).
Proof.
  revert i. induction rows as [|job rows IH]; intros i; [constructor |].
  cbn [rowKeysFrom]. constructor; [| apply IH].
  intros H. apply rowKeysFrom_index in H as [job' [j [L E]]].
  apply rowKey_index in E. lia.
Qed.
End Keys.

(** Two listings of the same title and company, one after the other. *)
Example rowKeys_of_twins :
  rowKeys (fun o => match o with Some s => s | None => "undefined" end)
          [Sample.engineer_acme; Sample.engineer_acme;
           {| Title := None; Company := Some "Acme"; Location := None;
              Link := None |}]
  = ["Engineer-Acme-0"; "Engineer-Acme-1"; "undefined-Acme-2"].
Proof. reflexivity. Qed.

(** X19. Whatever the records shown and however an absent title or
    company is written, the rows of the table get keys that are pairwise
    distinct, one for each row: a key ends with a hyphen and the index of
    its row, so two keys that are equal belong to the same index, even
    for records that agree in title and company. *)
Theorem row_keys_are_pairwise_distinct :
  forall (written : option string -> string) (lc : string -> string -> Z)
         (jobs : option (list Job)) (st : ViewState),
    let keys := rowKeys written (rows lc jobs st) in
    NoDup keys
    /\ List.length keys = List.length (rows lc jobs st)
    /\ (forall job job' i j,
          rowKey written job i = rowKey written job' j -> i = j)
    /\ (forall job i,
          exists prefix,
            rowKey written job i = (prefix ++ "-" ++ of_nat i)%string).
Proof.
  intros written lc jobs st keys. unfold keys, rowKeys.
  split; [apply rowKeysFrom_nodup |]. split; [| split].
  - generalize 0. induction (rows lc jobs st) as [|job l IH]; intros i;
      [reflexivity |].
    cbn [rowKeysFrom List.length]. now rewrite IH.
  - apply rowKey_index.
  - intros job i.
    exists (written (Title job) ++ "-" ++ written (Company job))%string.
    unfold rowKey. now rewrite !append_assoc.
Qed.

End KeyFacts.
